(** * create_library.py: transcript parser, question/answer grouper, tag export

    A shallow embedding of [ChatParser], [QAGrouper] and the tag ordering of
    [DatabaseManager] from [create_library.py], with the properties of the
    parsing and grouping passes that the specification states.

    Python [str] values are sequences of Unicode code points and are modelled
    as [list N].  The Unicode tables of the Python runtime (character
    classes, case mapping), the limit of [int] on the number of digits and
    the iteration order of a [set] are not part of the program; they are
    the fields of the class [PyRuntime], and the theorems on the program
    hold for every runtime.  A call that ends with an exception returns
    [None]: this is the case of the sort of the threads, whose key calls
    [int].  [bmp_runtime] is one
    runtime, on Basic Latin and the Cyrillic letters, used to run the
    program on concrete transcripts. *)

From Stdlib Require Import String Ascii Sorted Permutation.
From stdpp Require Import base numbers option list gmap.

Local Open Scope list_scope.

(** ** Python strings *)

Definition str := list N.

#[global] Instance str_eq_dec : EqDecision str := _.

(** Truth value of a string: [bool(s)], false exactly on the empty string. *)
Definition truthy (s : str) : bool :=
  match s with
  | [] => false
  | _ :: _ => true
  end.

Fixpoint utf8_bytes (s : string) : list N :=
  match s with
  | EmptyString => []
  | String a s' => N_of_ascii a :: utf8_bytes s'
  end.

(** Decoding of the UTF-8 bytes of a literal of this file into code points. *)
Fixpoint utf8_decode (bs : list N) : str :=
  match bs with
  | [] => []
  | b1 :: r1 =>
    if (b1 <? 128)%N then b1 :: utf8_decode r1
    else match r1 with
    | [] => [b1]
    | b2 :: r2 =>
      if (b1 <? 224)%N then ((b1 - 192) * 64 + (b2 - 128))%N :: utf8_decode r2
      else match r2 with
      | [] => [b1; b2]
      | b3 :: r3 =>
        if (b1 <? 240)%N
        then ((b1 - 224) * 4096 + (b2 - 128) * 64 + (b3 - 128))%N :: utf8_decode r3
        else match r3 with
        | [] => [b1; b2; b3]
        | b4 :: r4 =>
          ((b1 - 240) * 262144 + (b2 - 128) * 4096 + (b3 - 128) * 64 + (b4 - 128))%N
            :: utf8_decode r4
        end
      end
    end
  end.

Definition u (s : string) : str := utf8_decode (utf8_bytes s).

(** [s.startswith(p)], returning the rest of [s] after [p]. *)
Fixpoint strip_prefix (p s : str) : option str :=
  match p with
  | [] => Some s
  | c :: p' =>
    match s with
    | [] => None
    | d :: s' => if (c =? d)%N then strip_prefix p' s' else None
    end
  end.

(** [sub in s] on strings. *)
Fixpoint contains (sub s : str) : bool :=
  match strip_prefix sub s with
  | Some _ => true
  | None =>
    match s with
    | [] => false
    | _ :: s' => contains sub s'
    end
  end.

(** Order of [str] values: lexicographic on code points. *)
Fixpoint str_leb (a b : str) : bool :=
  match a, b with
  | [], _ => true
  | _ :: _, [] => false
  | c :: a', d :: b' =>
    if (c <? d)%N then true
    else if (d <? c)%N then false
    else str_leb a' b'
  end.

(** [sep.join(parts)]. *)
Fixpoint join (sep : str) (parts : list str) : str :=
  match parts with
  | [] => []
  | [p] => p
  | p :: rest => p ++ sep ++ join sep rest
  end.

(** ** The Python runtime *)

Class PyRuntime := {
  (** [str.isspace] of one character; also the class [\s] of [re]. *)
  isspace : N -> bool;
  (** The class [\d] of [re]: Unicode decimal digits. *)
  isdecimal : N -> bool;
  (** [str.isdigit] of one character; a decimal digit is a digit, a digit
      need not be decimal (the superscript two is not). *)
  isdigit : N -> bool;
  isdecimal_isdigit : forall c, isdecimal c = true -> isdigit c = true;
  (** Value of a decimal digit, as [int] reads it. *)
  digit_value : N -> Z;
  (** [sys.get_int_max_str_digits()]: the largest number of digits that
      [int] converts, 0 when there is no limit. *)
  int_max_str_digits : nat;
  (** The class [\w] of [re]. *)
  isword : N -> bool;
  (** Simple lower-case mapping of one character, used by [re.IGNORECASE]. *)
  tolower : N -> N;
  (** [str.lower]. *)
  lower : str -> str;
  lower_nil : lower [] = [];
  (** [list(set(l))]: the elements of the set built from [l], in the
      iteration order of that set. *)
  set_iter : list str -> list str;
  set_iter_NoDup : forall l, NoDup (set_iter l);
  set_iter_elem_of : forall l x, x ∈ set_iter l <-> x ∈ l
}.

(** ** Stable sort with a key: [list.sort(key=...)] and [sorted] *)

Section Sort.
Context {A K : Type} (leb : K -> K -> bool) (key : A -> K).

Fixpoint insert_by (x : A) (l : list A) : list A :=
  match l with
  | [] => [x]
  | y :: l' =>
    if leb (key x) (key y) then x :: l else y :: insert_by x l'
  end.

Fixpoint sort_by (l : list A) : list A :=
  match l with
  | [] => []
  | x :: l' => insert_by x (sort_by l')
  end.

(** The order of the keys, on the elements. *)
Definition key_le (x y : A) : Prop := leb (key x) (key y) = true.
End Sort.

(** ** Regular expressions of [ChatParser.message_patterns]

    The patterns of the program are built from literals, repetitions of a
    character class and one capturing group; [rmatch] is the backtracking
    matcher of [re] on this fragment. *)

Inductive regex :=
| Lit (l : str)
| Star (cls : N -> bool)
| Plus (cls : N -> bool)
| PlusLazy (cls : N -> bool)
| Group (r : regex)
| Cat (r1 r2 : regex).

Section Matcher.
Context {R : Type}.

Fixpoint star_greedy (cls : N -> bool) (s : str) (k : str -> option R) : option R :=
  match s with
  | [] => k s
  | c :: s' =>
    if cls c then
      match star_greedy cls s' k with
      | Some r => Some r
      | None => k s
      end
    else k s
  end.

Fixpoint plus_lazy (cls : N -> bool) (s : str) (k : str -> option R) : option R :=
  match s with
  | [] => None
  | c :: s' =>
    if cls c then
      match k s' with
      | Some r => Some r
      | None => plus_lazy cls s' k
      end
    else None
  end.

Fixpoint rmatch (r : regex) (s : str) (g : option str)
    (k : str -> option str -> option R) : option R :=
  match r with
  | Lit l =>
    match strip_prefix l s with
    | Some s' => k s' g
    | None => None
    end
  | Star cls => star_greedy cls s (fun s' => k s' g)
  | Plus cls =>
    match s with
    | [] => None
    | c :: s' => if cls c then star_greedy cls s' (fun s'' => k s'' g) else None
    end
  | PlusLazy cls => plus_lazy cls s (fun s' => k s' g)
  | Group r1 =>
    rmatch r1 s g (fun s' _ => k s' (Some (take (length s - length s') s)))
  | Cat r1 r2 => rmatch r1 s g (fun s' g' => rmatch r2 s' g' k)
  end.
End Matcher.

(** [pattern.search(s)]: [None] when there is no match, otherwise
    [group(1)] of the leftmost match. *)
Fixpoint re_search (r : regex) (s : str) : option str :=
  match rmatch r s None (fun _ g => Some (default [] g)) with
  | Some g => Some g
  | None =>
    match s with
    | [] => None
    | _ :: s' => re_search r s'
    end
  end.

(** [pattern.findall(s)] for a pattern without group: the texts of the
    successive matches, leftmost first, not overlapping. *)
Fixpoint re_findall_fuel (fuel : nat) (r : regex) (s : str) : list str :=
  match fuel with
  | O => []
  | S fuel' =>
    match s with
    | [] => []
    | _ :: s' =>
      match rmatch r s None (fun rest _ => Some rest) with
      | Some rest =>
        if (length rest <? length s)%nat
        then take (length s - length rest) s :: re_findall_fuel fuel' r rest
        else re_findall_fuel fuel' r s'
      | None => re_findall_fuel fuel' r s'
      end
    end
  end.

Definition re_findall (r : regex) (s : str) : list str :=
  re_findall_fuel (length s) r s.

(** ** Data model *)

(** [ChatMessage]. *)
Record ChatMessage := {
  message_number : str;
  sender : str;
  date : str;
  message_id : str;
  reply_to : str;
  text : str;
  tags : list str;
  is_violetta_answer : bool
}.

(** The dictionary built by [_create_qa_pair]; its key ['tags'] is the field
    [qa_tags]. *)
Record QAPair := {
  question_ids : list str;
  question_text : str;
  question_sender : str;
  question_date : str;
  answer_ids : list str;
  answer_text : str;
  qa_tags : list str;
  answer_date : str
}.

Definition set_sender (m : ChatMessage) (v : str) : ChatMessage :=
  {| message_number := message_number m; sender := v; date := date m;
     message_id := message_id m; reply_to := reply_to m; text := text m;
     tags := tags m; is_violetta_answer := is_violetta_answer m |}.

Definition set_date (m : ChatMessage) (v : str) : ChatMessage :=
  {| message_number := message_number m; sender := sender m; date := v;
     message_id := message_id m; reply_to := reply_to m; text := text m;
     tags := tags m; is_violetta_answer := is_violetta_answer m |}.

Definition set_message_id (m : ChatMessage) (v : str) : ChatMessage :=
  {| message_number := message_number m; sender := sender m; date := date m;
     message_id := v; reply_to := reply_to m; text := text m;
     tags := tags m; is_violetta_answer := is_violetta_answer m |}.

Definition set_reply_to (m : ChatMessage) (v : str) : ChatMessage :=
  {| message_number := message_number m; sender := sender m; date := date m;
     message_id := message_id m; reply_to := v; text := text m;
     tags := tags m; is_violetta_answer := is_violetta_answer m |}.

Definition set_text (m : ChatMessage) (v : str) : ChatMessage :=
  {| message_number := message_number m; sender := sender m; date := date m;
     message_id := message_id m; reply_to := reply_to m; text := v;
     tags := tags m; is_violetta_answer := is_violetta_answer m |}.

Definition set_tags (m : ChatMessage) (v : list str) : ChatMessage :=
  {| message_number := message_number m; sender := sender m; date := date m;
     message_id := message_id m; reply_to := reply_to m; text := text m;
     tags := v; is_violetta_answer := is_violetta_answer m |}.

Definition set_is_violetta_answer (m : ChatMessage) (v : bool) : ChatMessage :=
  {| message_number := message_number m; sender := sender m; date := date m;
     message_id := message_id m; reply_to := reply_to m; text := text m;
     tags := tags m; is_violetta_answer := v |}.

(** The marker of an official answer, and the glyphs of the program. *)
Definition answer_marker : str := u "ответвиолетты".
Definition bullet : N := 8226.          (* U+2022 *)
Definition horizontal_bar : N := 8213.  (* U+2015 *)
Definition box_light : N := 9472.       (* U+2500 *)
Definition hash_sign : N := 35.
Definition newline : str := [10%N].
Definition blank_line : str := [10%N; 10%N].

(** ** ChatParser *)

Fixpoint drop_while (p : N -> bool) (s : str) : str :=
  match s with
  | [] => []
  | c :: s' => if p c then drop_while p s' else s
  end.

Definition is_some {A} (o : option A) : bool :=
  match o with
  | Some _ => true
  | None => false
  end.

Section Parser.
Context {rt : PyRuntime}.

(** [s.strip()]. *)
Definition strip (s : str) : str :=
  rev (drop_while isspace (rev (drop_while isspace s))).

Definition not_bullet (c : N) : bool := negb (c =? bullet)%N.

Definition in_range (lo hi c : N) : bool := ((lo <=? c) && (c <=? hi))%N.

(** The class of the tag pattern; under [re.IGNORECASE] a character is
    tested by its lower-case form.  The ranges are those of the source:
    U+0430..U+044F, U+0410..U+042F, U+0451, U+0401. *)
Definition tag_class (c : N) : bool :=
  let c := tolower c in
  isword c || in_range 1072 1103 c || in_range 1040 1071 c
  || (c =? 1105)%N || (c =? 1025)%N || isdecimal c
  || (c =? 95)%N || (c =? 45)%N.

(** [self.message_patterns]. *)
Definition pat_message_start : regex :=
  Cat (Lit (u "Сообщение"))
    (Cat (Star isspace) (Cat (Lit [hash_sign]) (Group (Plus isdecimal)))).

Definition pat_sender : regex :=
  Cat (Lit (u "От:"))
    (Cat (Star isspace)
      (Cat (Group (PlusLazy not_bullet)) (Cat (Star isspace) (Lit [bullet])))).

Definition pat_date : regex :=
  Cat (Lit (u "Дата:"))
    (Cat (Star isspace)
      (Cat (Group (PlusLazy not_bullet)) (Cat (Star isspace) (Lit [bullet])))).

Definition pat_message_id : regex :=
  Cat (Lit (u "ID:")) (Cat (Star isspace) (Group (Plus isdecimal))).

Definition pat_reply_to : regex :=
  Cat (Lit (u "Ответ на сообщение:")) (Cat (Star isspace) (Group (Plus isdecimal))).

Definition pat_tags : regex := Cat (Lit [hash_sign]) (Plus tag_class).

(** [match.group(1)] of a successful search. *)
Definition group1 (m : option str) : str := default [] m.

Definition _is_message_start (txt : str) : bool :=
  is_some (re_search pat_message_start txt)
  || contains (u "――――――") txt.

Definition _create_new_message (txt : str) : ChatMessage :=
  let match_ := re_search pat_message_start txt in
  let message_number := if is_some match_ then group1 match_ else [] in
  {| message_number := message_number; sender := []; date := [];
     message_id := []; reply_to := []; text := []; tags := [];
     is_violetta_answer := false |}.

(** The three separators tested by [_process_message_content]. *)
Definition separators : list str := [u "――"; u "─"; u "―"].

Definition has_separator (txt : str) : bool :=
  existsb (fun separator => contains separator txt) separators.

(** [any(pattern.search(text) for pattern in [sender, date, message_id,
    reply_to])]. *)
Definition matches_metadata (txt : str) : bool :=
  existsb (fun pattern => is_some (re_search pattern txt))
    [pat_sender; pat_date; pat_message_id; pat_reply_to].

(** The body branch of [_process_message_content]: the block is added to
    the text, and its tags, without duplicates, to the tags. *)
Definition add_body (message : ChatMessage) (txt : str) : ChatMessage :=
  let message :=
    if truthy (text message)
    then set_text message (text message ++ newline ++ txt)
    else set_text message txt in
  let found := re_findall pat_tags txt in
  match found with
  | [] => message
  | _ :: _ => set_tags message (tags message ++ set_iter found)
  end.

Definition _process_message_content (message : ChatMessage) (txt : str)
    : ChatMessage :=
  if has_separator txt then message
  else
    let message :=
      if negb (truthy (sender message)) && is_some (re_search pat_sender txt)
      then set_sender message (strip (group1 (re_search pat_sender txt)))
      else message in
    let message :=
      if negb (truthy (date message)) && is_some (re_search pat_date txt)
      then set_date message (strip (group1 (re_search pat_date txt)))
      else message in
    let message :=
      if negb (truthy (message_id message))
         && is_some (re_search pat_message_id txt)
      then set_message_id message (group1 (re_search pat_message_id txt))
      else message in
    let message :=
      if negb (truthy (reply_to message))
         && is_some (re_search pat_reply_to txt)
      then set_reply_to message (group1 (re_search pat_reply_to txt))
      else message in
    if negb (matches_metadata txt) then add_body message txt else message.

(** [_identify_violetta_answers]: every message gets its flag from its
    tags. *)
Definition has_answer_tag (message : ChatMessage) : bool :=
  existsb (fun tag => contains answer_marker (lower tag)) (tags message).

Definition _identify_violetta_answers (messages : list ChatMessage)
    : list ChatMessage :=
  map (fun message => set_is_violetta_answer message (has_answer_tag message))
    messages.

(** State of the loop of [parse_word_document]: the list [messages] and
    [current_message]. *)
Definition parser_state : Type := list ChatMessage * option ChatMessage.

(** [if current_message and current_message.text: messages.append(...)]. *)
Definition flush (messages : list ChatMessage)
    (current_message : option ChatMessage) : list ChatMessage :=
  match current_message with
  | Some m => if truthy (text m) then messages ++ [m] else messages
  | None => messages
  end.

(** One iteration of the loop over [doc.paragraphs]. *)
Definition parse_step (st : parser_state) (paragraph : str) : parser_state :=
  let txt := strip paragraph in
  if negb (truthy txt) then st
  else if _is_message_start txt then
    (flush (fst st) (snd st), Some (_create_new_message txt))
  else
    match snd st with
    | Some m => (fst st, Some (_process_message_content m txt))
    | None => st
    end.

(** The paragraphs that take the start branch of the loop. *)
Definition starts_message (paragraph : str) : bool :=
  truthy (strip paragraph) && _is_message_start (strip paragraph).

(** The paragraphs that cannot reach the body branch of
    [_process_message_content]: empty ones, and content blocks with a
    separator or a metadata pattern. *)
Definition adds_no_body (paragraph : str) : bool :=
  let txt := strip paragraph in
  negb (truthy txt)
  || (negb (_is_message_start txt) && (has_separator txt || matches_metadata txt)).

Definition parse_loop (paragraphs : list str) (st : parser_state) : parser_state :=
  fold_left parse_step paragraphs st.

(** [parse_word_document], on the paragraph texts of the document. *)
Definition parse_word_document (paragraphs : list str) : list ChatMessage :=
  let st := parse_loop paragraphs ([], None) in
  _identify_violetta_answers (flush (fst st) (snd st)).
End Parser.

(** ** QAGrouper

    The sort key of the threads calls [int], which raises [ValueError] on
    some strings; the functions that sort, and their callers, return an
    [option], where [None] stands for the exception that ends the call. *)

Section Grouper.
Context {rt : PyRuntime}.

(** [self.messages]. *)
Variable messages : list ChatMessage.

(** [self.messages_by_id]: a later message replaces an earlier one with
    the same id. *)
Definition messages_by_id : gmap str ChatMessage :=
  fold_left
    (fun d msg => if truthy (message_id msg) then <[message_id msg := msg]> d else d)
    messages ∅.

(** [s.isdigit()]. *)
Definition str_isdigit (s : str) : bool := truthy s && forallb isdigit s.

(** The limit of [int] on the number of digits. *)
Definition within_int_limit (n : nat) : bool :=
  (int_max_str_digits =? 0)%nat || (n <=? int_max_str_digits)%nat.

(** [int(s)] for a string on which [s.isdigit()] holds (no sign, no white
    space, no underscore): the value of the decimal digits, or [None] for
    [ValueError], when a character is not a decimal digit or the digits are
    more than the limit. *)
Definition int_of (s : str) : option Z :=
  if truthy s && forallb isdecimal s && within_int_limit (length s)
  then Some (fold_left (fun acc c => (acc * 10 + digit_value c)%Z) s 0%Z)
  else None.

(** The sort key of both threads:
    [int(x.message_number) if x.message_number.isdigit() else 0]. *)
Definition sequence_key (x : ChatMessage) : option Z :=
  if str_isdigit (message_number x) then int_of (message_number x) else Some 0%Z.

(** [l.sort(key=...)] with this key: the keys of all the elements are
    computed first, in the order of the list, and the first one that raises
    ends the sort; then the list is sorted by the keys, stably. *)
Fixpoint with_keys (l : list ChatMessage) : option (list (Z * ChatMessage)) :=
  match l with
  | [] => Some []
  | x :: l' =>
    match sequence_key x with
    | None => None
    | Some k =>
      match with_keys l' with
      | None => None
      | Some keyed => Some ((k, x) :: keyed)
      end
    end
  end.

Definition sort_by_sequence (l : list ChatMessage) : option (list ChatMessage) :=
  match with_keys l with
  | None => None
  | Some keyed => Some (map snd (sort_by Z.leb fst keyed))
  end.

(** [[msg.message_id for msg in thread if msg.message_id]]. *)
Definition ids_of (thread : list ChatMessage) : list str :=
  List.filter truthy (map message_id thread).

(** The test of the loop of [_find_question_thread]. *)
Definition same_question (parent_id sender_ : str) (msg : ChatMessage) : bool :=
  bool_decide (reply_to msg = parent_id)
  && bool_decide (sender msg = sender_)
  && negb (is_violetta_answer msg).

Definition _find_question_thread (start_message_id : str)
    : option (list ChatMessage) :=
  match messages_by_id !! start_message_id with
  | None => Some []
  | Some start_message =>
    let parent_id := reply_to start_message in
    let sender_ := sender start_message in
    if negb (truthy parent_id) then Some [start_message]
    else sort_by_sequence (List.filter (same_question parent_id sender_) messages)
  end.

(** The test of the loop of [_find_answer_thread]. *)
Definition answers_question (question_ids_ : list str) (msg : ChatMessage) : bool :=
  is_violetta_answer msg && bool_decide (reply_to msg ∈ question_ids_).

Definition _find_answer_thread (question_thread : list ChatMessage)
    : option (list ChatMessage) :=
  let question_ids_ := ids_of question_thread in
  sort_by_sequence (List.filter (answers_question question_ids_) messages).

Definition _create_qa_pair (question_thread answer_thread : list ChatMessage)
    : QAPair :=
  let all_tags := concat (map tags answer_thread) in
  {| question_ids := ids_of question_thread;
     question_text :=
       join blank_line (List.filter truthy (map text question_thread));
     question_sender :=
       match question_thread with
       | m :: _ => sender m
       | [] => []
       end;
     question_date :=
       match question_thread with
       | m :: _ => date m
       | [] => []
       end;
     answer_ids := ids_of answer_thread;
     answer_text :=
       join blank_line (List.filter truthy (map text answer_thread));
     qa_tags := set_iter all_tags;
     answer_date :=
       match last answer_thread with
       | Some m => date m
       | None => []
       end |}.

(** [tuple(sorted(ids))]. *)
Definition question_key_of (ids : list str) : list str :=
  sort_by str_leb (fun x => x) ids.

(** State of the loop of [group_questions_answers]: [qa_pairs] and
    [processed_questions]. *)
Definition grouper_state : Type := list QAPair * gset (list str).

(** One iteration of the loop over [violetta_answers]. *)
Definition group_step (st : grouper_state) (answer : ChatMessage)
    : option grouper_state :=
  if negb (truthy (reply_to answer)) then Some st
  else
    match _find_question_thread (reply_to answer) with
    | None => None
    | Some [] => Some st
    | Some question_thread =>
      let question_key := question_key_of (ids_of question_thread) in
      if bool_decide (question_key ∈ snd st) then Some st
      else
        let processed_questions := {[question_key]} ∪ snd st in
        match _find_answer_thread question_thread with
        | None => None
        | Some answer_thread =>
          let qa_pair := _create_qa_pair question_thread answer_thread in
          Some (fst st ++ [qa_pair], processed_questions)
        end
    end.

Fixpoint group_loop (answers : list ChatMessage) (st : grouper_state)
    : option grouper_state :=
  match answers with
  | [] => Some st
  | answer :: rest =>
    match group_step st answer with
    | None => None
    | Some st' => group_loop rest st'
    end
  end.

Definition violetta_answers : list ChatMessage :=
  List.filter is_violetta_answer messages.

Definition group_questions_answers : option (list QAPair) :=
  match group_loop violetta_answers ([], ∅) with
  | None => None
  | Some st => Some (fst st)
  end.

(** Following the specification: the numeric sequence number of a message.
    A number written in decimal digits has the value of its digits,
    weighted by the powers of ten; a number that is missing or not numeric
    counts as 0. *)
Fixpoint positional_value (digits : str) : Z :=
  match digits with
  | [] => 0%Z
  | c :: rest =>
    (digit_value c * 10 ^ Z.of_nat (length rest) + positional_value rest)%Z
  end.

Definition sequence_number (x : ChatMessage) : Z :=
  if truthy (message_number x) && forallb isdecimal (message_number x)
  then positional_value (message_number x)
  else 0%Z.

(** Ascending order of the numeric sequence numbers. *)
Definition by_sequence (x y : ChatMessage) : Prop :=
  (sequence_number x <= sequence_number y)%Z.

(** The canonical key of an emitted pair. *)
Definition canonical_key (p : QAPair) : list str :=
  question_key_of (question_ids p).

(** [p] is the pair that the loop builds for the answer [answer]: the
    question thread of its reply target, which is not empty, with the
    answer thread of that question thread. *)
Definition emitted_from (answer : ChatMessage) (p : QAPair) : Prop :=
  answer ∈ messages
  /\ is_violetta_answer answer = true
  /\ reply_to answer <> []
  /\ exists q a,
       _find_question_thread (reply_to answer) = Some q
       /\ q <> []
       /\ _find_answer_thread q = Some a
       /\ p = _create_qa_pair q a.
End Grouper.

(** ** DatabaseManager: the tag list of the export *)

(** The metadata block of [create_json_database], without its time stamp
    and description. *)
Record Metadata := {
  total_entries : nat;
  total_unique_tags : nat;
  all_tags : list str
}.

Section Database.
Context {rt : PyRuntime}.

Definition is_answer_tag (tag : str) : bool :=
  contains answer_marker (lower tag).

(** [tags_list.remove(x)]: the first occurrence goes. *)
Fixpoint list_remove (x : str) (l : list str) : list str :=
  match l with
  | [] => []
  | y :: l' => if bool_decide (y = x) then l' else y :: list_remove x l'
  end.

(** [_sort_tags_alphabetical]; the set [tags] is given by the list of the
    elements it was built from. *)
Definition _sort_tags_alphabetical (tags_ : list str) : list str :=
  let tags_list := set_iter tags_ in
  let answer_tag := List.find is_answer_tag tags_list in
  let pinned := match answer_tag with Some t => truthy t | None => false end in
  let tags_list :=
    if pinned then list_remove (group1 answer_tag) tags_list
    else tags_list in
  let tags_list := sort_by str_leb lower tags_list in
  if pinned then group1 answer_tag :: tags_list else tags_list.

(** Alphabetical order that ignores case: the order of the keys
    [x.lower()]. *)
Definition lower_le (x y : str) : Prop := str_leb (lower x) (lower y) = true.

(** The set [all_tags] of [create_json_database], as the sequence of its
    updates, and the metadata computed from it. *)
Definition collected_tags (qa_pairs : list QAPair) : list str :=
  concat (map qa_tags qa_pairs).

Definition create_json_database (qa_pairs : list QAPair) : Metadata * list QAPair :=
  let all_tags_ := collected_tags qa_pairs in
  let sorted_tags := _sort_tags_alphabetical all_tags_ in
  ({| total_entries := length qa_pairs;
      total_unique_tags := length (set_iter all_tags_);
      all_tags := sorted_tags |},
   qa_pairs).
End Database.

(** ** A runtime on Basic Latin and Cyrillic

    The tables below agree with Unicode on U+0000..U+007F and on the
    Cyrillic letters U+0400..U+045F; white space is the full list of
    [str.isspace]; the limit of [int] is the default one of CPython, 4300
    digits.  A set is iterated in the order of first insertion, one
    of the orders a Python set may have. *)

Definition bmp_isspace (c : N) : bool :=
  in_range 9 13 c || in_range 28 32 c || (c =? 133)%N || (c =? 160)%N
  || (c =? 5760)%N || in_range 8192 8202 c || (c =? 8232)%N || (c =? 8233)%N
  || (c =? 8239)%N || (c =? 8287)%N || (c =? 12288)%N.

Definition bmp_isdecimal (c : N) : bool := in_range 48 57 c.

(** [str.isdigit] also holds of the superscript digits of Latin-1. *)
Definition bmp_isdigit (c : N) : bool :=
  bmp_isdecimal c || (c =? 178)%N || (c =? 179)%N || (c =? 185)%N.

Definition bmp_digit_value (c : N) : Z := Z.of_N c - 48.

Definition bmp_isword (c : N) : bool :=
  in_range 48 57 c || in_range 65 90 c || in_range 97 122 c || (c =? 95)%N
  || in_range 1024 1119 c.

Definition bmp_tolower (c : N) : N :=
  if in_range 65 90 c then (c + 32)%N
  else if in_range 1040 1071 c then (c + 32)%N
  else if in_range 1024 1039 c then (c + 80)%N
  else c.

Definition bmp_lower (s : str) : str := map bmp_tolower s.

Definition first_seen (l : list str) : list str :=
  reverse (remove_dups (reverse l)).

#[global, refine] Instance bmp_runtime : PyRuntime := {|
  isspace := bmp_isspace;
  isdecimal := bmp_isdecimal;
  isdigit := bmp_isdigit;
  digit_value := bmp_digit_value;
  int_max_str_digits := 4300;
  isword := bmp_isword;
  tolower := bmp_tolower;
  lower := bmp_lower;
  lower_nil := eq_refl;
  set_iter := first_seen
|}.
Proof.
  - intros c H. unfold bmp_isdigit. rewrite H. reflexivity.
  - intros l. unfold first_seen.
    rewrite reverse_Permutation. apply NoDup_remove_dups.
  - intros l x. unfold first_seen.
    rewrite elem_of_reverse, elem_of_remove_dups, elem_of_reverse.
    reflexivity.
Defined.

(** ** A transcript

    A question (id 9), a first reply of the expert that is not tagged
    (id 1), the official answer (id 2), a follow-up official answer that
    replies to that answer (id 3), an official answer to a message that
    is not in the transcript (id 4), and a second official answer to the
    question (id 5), whose two body blocks carry the same tag. *)

Definition thread_transcript : list str := map u [
  "Сообщение #1"; "От: Анна • Дата: 01.10.2025 • ID: 9";
  "Как начать?";
  "Сообщение #2"; "От: Виолетта • Дата: 02.10.2025 • ID: 1";
  "Ответ на сообщение: 9";
  "Сейчас отвечу";
  "Сообщение #3"; "От: Виолетта • Дата: 02.10.2025 • ID: 2";
  "Ответ на сообщение: 9";
  "Начните с малого #ответвиолетты";
  "Сообщение #4"; "От: Виолетта • Дата: 03.10.2025 • ID: 3";
  "Ответ на сообщение: 2";
  "И не спешите #ответвиолетты #Привычки";
  "Сообщение #5"; "От: Виолетта • Дата: 04.10.2025 • ID: 4";
  "Ответ на сообщение: 77";
  "Ответ без вопроса #ответвиолетты";
  "Сообщение #6"; "От: Виолетта • Дата: 05.10.2025 • ID: 5";
  "Ответ на сообщение: 9";
  "Ещё совет #ответвиолетты #мотивация";
  "Подробнее завтра #мотивация"
]%string.

Definition question_msg : ChatMessage :=
  {| message_number := u "1"; sender := u "Анна"; date := u "01.10.2025";
     message_id := u "9"; reply_to := []; text := u "Как начать?";
     tags := []; is_violetta_answer := false |}.

Definition first_reply : ChatMessage :=
  {| message_number := u "2"; sender := u "Виолетта"; date := u "02.10.2025";
     message_id := u "1"; reply_to := u "9"; text := u "Сейчас отвечу";
     tags := []; is_violetta_answer := false |}.

Definition official_answer : ChatMessage :=
  {| message_number := u "3"; sender := u "Виолетта"; date := u "02.10.2025";
     message_id := u "2"; reply_to := u "9";
     text := u "Начните с малого #ответвиолетты";
     tags := [u "#ответвиолетты"]; is_violetta_answer := true |}.

Definition follow_up : ChatMessage :=
  {| message_number := u "4"; sender := u "Виолетта"; date := u "03.10.2025";
     message_id := u "3"; reply_to := u "2";
     text := u "И не спешите #ответвиолетты #Привычки";
     tags := [u "#ответвиолетты"; u "#Привычки"];
     is_violetta_answer := true |}.

Definition orphan_answer : ChatMessage :=
  {| message_number := u "5"; sender := u "Виолетта"; date := u "04.10.2025";
     message_id := u "4"; reply_to := u "77";
     text := u "Ответ без вопроса #ответвиолетты";
     tags := [u "#ответвиолетты"]; is_violetta_answer := true |}.

Definition second_answer : ChatMessage :=
  {| message_number := u "6"; sender := u "Виолетта"; date := u "05.10.2025";
     message_id := u "5"; reply_to := u "9";
     text := u "Ещё совет #ответвиолетты #мотивация"
             ++ newline ++ u "Подробнее завтра #мотивация";
     tags := [u "#ответвиолетты"; u "#мотивация"; u "#мотивация"];
     is_violetta_answer := true |}.

Definition thread_messages : list ChatMessage :=
  [question_msg; first_reply; official_answer; follow_up; orphan_answer;
   second_answer].

(** The pair of the question, and the pair that the follow-up answer
    produces. *)
Definition question_pair : QAPair :=
  {| question_ids := [u "9"];
     question_text := u "Как начать?";
     question_sender := u "Анна";
     question_date := u "01.10.2025";
     answer_ids := [u "2"; u "5"];
     answer_text := text official_answer ++ blank_line ++ text second_answer;
     qa_tags := [u "#ответвиолетты"; u "#мотивация"];
     answer_date := u "05.10.2025" |}.

Definition follow_up_pair : QAPair :=
  {| question_ids := [u "1"];
     question_text := u "Сейчас отвечу";
     question_sender := u "Виолетта";
     question_date := u "02.10.2025";
     answer_ids := [];
     answer_text := [];
     qa_tags := [];
     answer_date := [] |}.

(** A block composed of divider glyphs only, in the words of the
    specification. *)
Definition purely_decorative (txt : str) : bool :=
  forallb (fun c => (c =? horizontal_bar)%N || (c =? box_light)%N) txt.

(** A body block that holds one horizontal bar. *)
Definition dash_block : str := u "Итог ― надо начинать".

(** ** Shapes of the parsed fields *)

(** The patterns without capturing group. *)
Fixpoint group_free (r : regex) : bool :=
  match r with
  | Lit _ | Star _ | Plus _ | PlusLazy _ => true
  | Group _ => false
  | Cat r1 r2 => group_free r1 && group_free r2
  end.

Section Shapes.
Context {rt : PyRuntime}.

(** A string of decimal digits, as [\d+] captures, or the empty string. *)
Definition decimal_string (s : str) : Prop :=
  Forall (fun c => isdecimal c = true) s.

(** A text matched by the tag pattern: a hash sign and at least one
    character of the class. *)
Definition tag_shaped (t : str) : Prop :=
  exists body, t = hash_sign :: body /\ body <> []
               /\ Forall (fun c => tag_class c = true) body.

(** No white space at either end, as after [strip()]. *)
Definition stripped (s : str) : Prop :=
  (forall c rest, s = c :: rest -> isspace c = false)
  /\ (forall c front, s = front ++ [c] -> isspace c = false).

(** The fields of a message that the parser can have filled. *)
Definition parsed_shape (m : ChatMessage) : Prop :=
  decimal_string (message_number m)
  /\ decimal_string (message_id m)
  /\ decimal_string (reply_to m)
  /\ Forall (fun c => c <> bullet) (sender m)
  /\ stripped (sender m)
  /\ Forall (fun c => c <> bullet) (date m)
  /\ stripped (date m)
  /\ Forall tag_shaped (tags m).

(** The invariant of the loop of [parse_word_document] for the shapes. *)
Definition shape_invariant (st : parser_state) : Prop :=
  Forall parsed_shape (fst st)
  /\ forall m, snd st = Some m -> parsed_shape m.
End Shapes.

(** ** Growth of an accumulator *)

(** [m'] is [m] after some content blocks: the number is the same, a
    metadata field that was filled is the same, and text and tags have only
    grown at their end. *)
Definition extends (m m' : ChatMessage) : Prop :=
  message_number m' = message_number m
  /\ (sender m <> [] -> sender m' = sender m)
  /\ (date m <> [] -> date m' = date m)
  /\ (message_id m <> [] -> message_id m' = message_id m)
  /\ (reply_to m <> [] -> reply_to m' = reply_to m)
  /\ (exists more, text m' = text m ++ more)
  /\ (exists more, tags m' = tags m ++ more).

(** 1 when an accumulator is open, 0 otherwise. *)
Definition pending (cur : option ChatMessage) : nat :=
  if is_some cur then 1%nat else 0%nat.

Section Counting.
Context {rt : PyRuntime}.

(** The paragraphs that reach the body branch of
    [_process_message_content]. *)
Definition body_block (paragraph : str) : bool :=
  truthy (strip paragraph)
  && negb (_is_message_start (strip paragraph))
  && negb (has_separator (strip paragraph))
  && negb (matches_metadata (strip paragraph)).

(** The tags that one body block gives. *)
Definition block_tags (paragraph : str) : list str :=
  set_iter (re_findall pat_tags (strip paragraph)).

(** The number of start markers among the paragraphs. *)
Definition count_starts (paragraphs : list str) : nat :=
  length (List.filter starts_message paragraphs).
End Counting.

(** ** Further notions on the grouper *)

#[global] Instance ChatMessage_eq_dec : EqDecision ChatMessage.
Proof. solve_decision. Defined.

Section Resolution.
Context {rt : PyRuntime}.

(** The reply target of [answer] is a key of the id index. *)
Definition resolves (messages : list ChatMessage) (answer : ChatMessage) : bool :=
  is_some (messages_by_id messages !! reply_to answer).

(** The flags of the messages are those that [_identify_violetta_answers]
    gives. *)
Definition flags_identified (messages : list ChatMessage) : Prop :=
  forall m, m ∈ messages -> is_violetta_answer m = has_answer_tag m.
End Resolution.

(** ** The page: [LibraryApp.getAllTags] and [LibraryApp.sortTags]

    The script of the generated page is JavaScript.  Its strings are
    modelled like those of Python; what belongs to the JavaScript runtime,
    [toLowerCase] and the sort of an array with the comparator
    [a.toLowerCase().localeCompare(b.toLowerCase())], which depends on the
    locale, is a field of [JsRuntime]. *)

Class JsRuntime := {
  toLowerCase : str -> str;
  toLowerCase_nil : toLowerCase [] = [];
  locale_sort : list str -> list str;
  locale_sort_Permutation : forall l, locale_sort l ≡ₚ l
}.

Section Page.
Context {js : JsRuntime}.

(** [getAllTags]: a JavaScript [Set] is iterated in the order of
    insertion. *)
Definition getAllTags (qaData : list QAPair) : list str :=
  first_seen (concat (map qa_tags qaData)).

(** [tag.toLowerCase().includes(...)]. *)
Definition includes_marker (tag : str) : bool :=
  contains answer_marker (toLowerCase tag).

(** One iteration of the loop of [sortTags], on [answerTag] and
    [otherTags]. *)
Definition sortTags_step (st : option str * list str) (tag : str)
    : option str * list str :=
  if includes_marker tag then (Some tag, snd st)
  else (fst st, snd st ++ [tag]).

Definition sortTags (tags_ : list str) : list str :=
  let st := fold_left sortTags_step tags_ (None, []) in
  let otherTags := locale_sort (snd st) in
  match fst st with
  | Some answerTag => if truthy answerTag then answerTag :: otherTags else otherTags
  | None => otherTags
  end.
End Page.

(** A JavaScript runtime on Basic Latin and Cyrillic, with the order of
    the code points of the lower-case forms as collation. *)
#[global, refine] Instance bmp_js_runtime : JsRuntime := {|
  toLowerCase := bmp_lower;
  toLowerCase_nil := eq_refl;
  locale_sort := sort_by str_leb bmp_lower
|}.
Proof.
  intros l. induction l as [|x l IH]; simpl; [reflexivity|].
  rewrite <- IH at 2. generalize (sort_by str_leb bmp_lower l). clear.
  intros l. induction l as [|y l IH]; simpl; [reflexivity|].
  destruct (str_leb (bmp_lower x) (bmp_lower y)); [reflexivity|].
  rewrite IH. apply perm_swap.
Defined.

(** ** Further data *)

(** The question, sent again with another text under the same id. *)
Definition corrected_question : ChatMessage :=
  set_text question_msg (u "Как начать и не бросить?").

(** A pair whose tags hold the marker in two spellings. *)
Definition two_spellings_pair : QAPair :=
  {| question_ids := [u "9"];
     question_text := u "Как начать?";
     question_sender := u "Анна";
     question_date := u "01.10.2025";
     answer_ids := [u "2"];
     answer_text := u "Начните с малого";
     qa_tags := [u "#ответвиолетты"; u "#мотивация"; u "#ОтветВиолетты"];
     answer_date := u "02.10.2025" |}.


(** ** A question in several parts

    Four parts of one question, all of them replies of one sender to the
    message 20: two are numbered, 10 and 9, and two come after a divider
    and have no number; in the list they stand in the order 10, none, 9,
    none.  Two official answers, numbered 12 and 11, reply to the parts 10
    and 9, the answer 12 before the answer 11. *)

Definition parts_transcript : list str := map u [
  "Сообщение #10"; "От: Олег • Дата: 06.10.2025 • ID: 31";
  "Ответ на сообщение: 20";
  "И как не бросить?";
  "Сообщение #12"; "От: Виолетта • Дата: 08.10.2025 • ID: 41";
  "Ответ на сообщение: 31";
  "Возвращайтесь к цели #ответвиолетты";
  "――――――"; "От: Олег • Дата: 05.10.2025 • ID: 33";
  "Ответ на сообщение: 20";
  "Добрый день";
  "Сообщение #9"; "От: Олег • Дата: 06.10.2025 • ID: 32";
  "Ответ на сообщение: 20";
  "С чего начать?";
  "――――――"; "От: Олег • Дата: 07.10.2025 • ID: 34";
  "Ответ на сообщение: 20";
  "Спасибо";
  "Сообщение #11"; "От: Виолетта • Дата: 07.10.2025 • ID: 42";
  "Ответ на сообщение: 32";
  "Начните с плана #ответвиолетты #планы"
]%string.

Definition part_ten : ChatMessage :=
  {| message_number := u "10"; sender := u "Олег"; date := u "06.10.2025";
     message_id := u "31"; reply_to := u "20"; text := u "И как не бросить?";
     tags := []; is_violetta_answer := false |}.

Definition answer_twelve : ChatMessage :=
  {| message_number := u "12"; sender := u "Виолетта"; date := u "08.10.2025";
     message_id := u "41"; reply_to := u "31";
     text := u "Возвращайтесь к цели #ответвиолетты";
     tags := [u "#ответвиолетты"]; is_violetta_answer := true |}.

Definition part_unnumbered : ChatMessage :=
  {| message_number := []; sender := u "Олег"; date := u "05.10.2025";
     message_id := u "33"; reply_to := u "20"; text := u "Добрый день";
     tags := []; is_violetta_answer := false |}.

Definition part_nine : ChatMessage :=
  {| message_number := u "9"; sender := u "Олег"; date := u "06.10.2025";
     message_id := u "32"; reply_to := u "20"; text := u "С чего начать?";
     tags := []; is_violetta_answer := false |}.

Definition part_postscript : ChatMessage :=
  {| message_number := []; sender := u "Олег"; date := u "07.10.2025";
     message_id := u "34"; reply_to := u "20"; text := u "Спасибо";
     tags := []; is_violetta_answer := false |}.

Definition answer_eleven : ChatMessage :=
  {| message_number := u "11"; sender := u "Виолетта"; date := u "07.10.2025";
     message_id := u "42"; reply_to := u "32";
     text := u "Начните с плана #ответвиолетты #планы";
     tags := [u "#ответвиолетты"; u "#планы"]; is_violetta_answer := true |}.

Definition parts_messages : list ChatMessage :=
  [part_ten; answer_twelve; part_unnumbered; part_nine; part_postscript;
   answer_eleven].

(** The two threads of the question, in the order of the sort. *)
Definition parts_question_thread : list ChatMessage :=
  [part_unnumbered; part_postscript; part_nine; part_ten].

Definition parts_answer_thread : list ChatMessage :=
  [answer_eleven; answer_twelve].

Definition parts_pair : QAPair :=
  {| question_ids := [u "33"; u "34"; u "32"; u "31"];
     question_text :=
       u "Добрый день" ++ blank_line ++ u "Спасибо" ++ blank_line
       ++ u "С чего начать?" ++ blank_line ++ u "И как не бросить?";
     question_sender := u "Олег";
     question_date := u "05.10.2025";
     answer_ids := [u "42"; u "41"];
     answer_text := text answer_eleven ++ blank_line ++ text answer_twelve;
     qa_tags := [u "#ответвиолетты"; u "#планы"];
     answer_date := u "08.10.2025" |}.

(** ** Sequence numbers that [int] does not convert

    A part of a question whose number is the superscript two, a digit that
    is not decimal, with an official answer to it; and a transcript
    whose first message has a number of 4301 digits, one more than [int]
    converts. *)

Definition part_squared : ChatMessage :=
  {| message_number := [178%N]; sender := u "Олег"; date := u "06.10.2025";
     message_id := u "51"; reply_to := u "20"; text := u "С чего начать?";
     tags := []; is_violetta_answer := false |}.

Definition answer_thirteen : ChatMessage :=
  {| message_number := u "13"; sender := u "Виолетта"; date := u "07.10.2025";
     message_id := u "52"; reply_to := u "51";
     text := u "Начните с плана #ответвиолетты";
     tags := [u "#ответвиолетты"]; is_violetta_answer := true |}.

Definition squared_messages : list ChatMessage :=
  [part_squared; answer_thirteen].

(** The digit 1, 4301 times. *)
Definition long_number : str := repeat 49%N 4301.

Definition long_number_transcript : list str :=
  [u "Сообщение #" ++ long_number;
   u "От: Олег • Дата: 06.10.2025 • ID: 51";
   u "Ответ на сообщение: 20";
   u "С чего начать?";
   u "Сообщение #13";
   u "От: Виолетта • Дата: 07.10.2025 • ID: 52";
   u "Ответ на сообщение: 51";
   u "Начните с плана #ответвиолетты"].

Definition part_long_number : ChatMessage :=
  {| message_number := long_number; sender := u "Олег";
     date := u "06.10.2025"; message_id := u "51"; reply_to := u "20";
     text := u "С чего начать?"; tags := []; is_violetta_answer := false |}.

Definition long_number_messages : list ChatMessage :=
  [part_long_number; answer_thirteen].

(** ** Tags of an export

    A pair whose tags are not in alphabetical order and hold the marker in
    the middle, and a pair with the same tags without the marker. *)
Definition habits_pair : QAPair :=
  {| question_ids := [u "9"];
     question_text := u "Как начать?";
     question_sender := u "Анна";
     question_date := u "01.10.2025";
     answer_ids := [u "2"];
     answer_text := u "Начните с малого";
     qa_tags := [u "#сон"; u "#Привычки"; u "#ответвиолетты"; u "#мотивация"];
     answer_date := u "02.10.2025" |}.

Definition unanswered_pair : QAPair :=
  {| question_ids := [u "1"];
     question_text := u "Сейчас отвечу";
     question_sender := u "Виолетта";
     question_date := u "02.10.2025";
     answer_ids := [];
     answer_text := [];
     qa_tags := [u "#сон"; u "#Привычки"; u "#мотивация"];
     answer_date := [] |}.

(** ** Answers without number

    Two official answers to the question that come after a divider, and
    so have no number, among the numbered answers 6 and 3. *)
Definition unnumbered_answer : ChatMessage :=
  {| message_number := []; sender := u "Виолетта"; date := u "06.10.2025";
     message_id := u "61"; reply_to := u "9";
     text := u "Дополню #ответвиолетты";
     tags := [u "#ответвиолетты"]; is_violetta_answer := true |}.

Definition unnumbered_postscript : ChatMessage :=
  {| message_number := []; sender := u "Виолетта"; date := u "07.10.2025";
     message_id := u "62"; reply_to := u "9";
     text := u "И последнее #ответвиолетты";
     tags := [u "#ответвиолетты"]; is_violetta_answer := true |}.

Definition tie_messages : list ChatMessage :=
  [question_msg; second_answer; unnumbered_answer; official_answer;
   unnumbered_postscript].
(** * Properties *)

(** ** The stable sort *)

Section SortFacts.
Context {A K : Type} (leb : K -> K -> bool) (key : A -> K).

Lemma insert_by_Permutation (x : A) (l : list A) :
  insert_by leb key x l ≡ₚ x :: l.
Proof.
  induction l as [|y l IH]; simpl; [reflexivity|].
  destruct (leb (key x) (key y)); [reflexivity|].
  rewrite IH. apply perm_swap.
Qed.

Lemma sort_by_Permutation (l : list A) : sort_by leb key l ≡ₚ l.
Proof.
  induction l as [|x l IH]; simpl; [reflexivity|].
  rewrite insert_by_Permutation, IH. reflexivity.
Qed.

Lemma elem_of_sort_by (x : A) (l : list A) : x ∈ sort_by leb key l <-> x ∈ l.
Proof. rewrite sort_by_Permutation. reflexivity. Qed.

Lemma sort_by_nil_inv (l : list A) : sort_by leb key l = [] -> l = [].
Proof.
  intros H. apply Permutation_nil. rewrite <- H.
  apply sort_by_Permutation.
Qed.

(** The sort is stable: elements that are below one another both ways,
    as elements with equal keys are, keep their order. *)
Lemma insert_by_stable (p : A -> bool) (x : A) (l : list A) :
  (forall a b, p a = true -> p b = true -> leb (key a) (key b) = true) ->
  List.filter p (insert_by leb key x l)
  = if p x then x :: List.filter p l else List.filter p l.
Proof.
  intros Hp. induction l as [|y l IH]; simpl.
  - destruct (p x); reflexivity.
  - destruct (leb (key x) (key y)) eqn:E; simpl.
    + destruct (p x); reflexivity.
    + rewrite IH. destruct (p x) eqn:Ex, (p y) eqn:Ey; try reflexivity.
      rewrite (Hp x y Ex Ey) in E. discriminate.
Qed.

Lemma sort_by_stable (p : A -> bool) (l : list A) :
  (forall a b, p a = true -> p b = true -> leb (key a) (key b) = true) ->
  List.filter p (sort_by leb key l) = List.filter p l.
Proof.
  intros Hp. induction l as [|x l IH]; simpl; [reflexivity|].
  rewrite (insert_by_stable p x _ Hp), IH. reflexivity.
Qed.

Hypothesis leb_total : forall a b, leb a b = true \/ leb b a = true.
Hypothesis leb_trans :
  forall a b c, leb a b = true -> leb b c = true -> leb a c = true.

Lemma insert_by_sorted (x : A) (l : list A) :
  StronglySorted (key_le leb key) l -> StronglySorted (key_le leb key) (insert_by leb key x l).
Proof.
  induction 1 as [|y l Hl IH Hy]; simpl.
  - constructor; constructor.
  - destruct (leb (key x) (key y)) eqn:E.
    + constructor; [constructor; assumption|].
      constructor; [exact E|].
      eapply Forall_impl; [exact Hy|].
      intros z Hz. unfold key_le in *. eauto.
    + constructor; [exact IH|].
      rewrite insert_by_Permutation. constructor; [|exact Hy].
      unfold key_le. destruct (leb_total (key x) (key y)); congruence.
Qed.

Lemma sort_by_sorted (l : list A) : StronglySorted (key_le leb key) (sort_by leb key l).
Proof.
  induction l as [|x l IH]; simpl; [constructor|].
  apply insert_by_sorted, IH.
Qed.
End SortFacts.

Lemma StronglySorted_weaken {A : Type} (R1 R2 : A -> A -> Prop) (l : list A) :
  (forall x y, R1 x y -> R2 x y) -> StronglySorted R1 l -> StronglySorted R2 l.
Proof.
  intros HR. induction 1 as [|x l Hl IH Hx]; constructor; [exact IH|].
  eapply Forall_impl; [exact Hx|]. intros y. apply HR.
Qed.

Lemma Zleb_total (a b : Z) : (a <=? b)%Z = true \/ (b <=? a)%Z = true.
Proof. rewrite !Z.leb_le. lia. Qed.

Lemma Zleb_trans (a b c : Z) :
  (a <=? b)%Z = true -> (b <=? c)%Z = true -> (a <=? c)%Z = true.
Proof. rewrite !Z.leb_le. lia. Qed.

Lemma str_leb_total (a b : str) : str_leb a b = true \/ str_leb b a = true.
Proof.
  revert b. induction a as [|c a IH]; intros [|d b]; simpl; auto.
  destruct (N.ltb_spec c d), (N.ltb_spec d c); auto; lia.
Qed.

Lemma str_leb_trans (a b c : str) :
  str_leb a b = true -> str_leb b c = true -> str_leb a c = true.
Proof.
  revert b c. induction a as [|x a IH]; intros [|y b] [|z c]; simpl; auto;
    try discriminate.
  destruct (N.ltb_spec x y), (N.ltb_spec y x), (N.ltb_spec y z),
    (N.ltb_spec z y), (N.ltb_spec x z), (N.ltb_spec z x);
    try discriminate; try lia; auto.
  apply IH.
Qed.

(** [re_findall] has fuel enough: more fuel gives the same matches. *)
Lemma re_findall_fuel_enough (r : regex) (n : nat) :
  forall (s : str) (fuel : nat),
    (length s <= n)%nat -> (n <= fuel)%nat ->
    re_findall_fuel fuel r s = re_findall_fuel n r s.
Proof.
  induction n as [|n IH]; intros s fuel Hs Hf.
  - destruct s; [|simpl in Hs; lia]. destruct fuel; reflexivity.
  - destruct fuel as [|fuel]; [lia|].
    destruct s as [|c s]; [reflexivity|]. simpl in Hs.
    cbn [re_findall_fuel].
    destruct (rmatch r (c :: s) None (fun rest _ => Some rest)) as [rest|].
    + destruct (length rest <? length (c :: s))%nat eqn:E.
      * apply Nat.ltb_lt in E. simpl in E.
        f_equal. apply IH; lia.
      * apply IH; lia.
    + apply IH; lia.
Qed.

Lemma re_findall_total (r : regex) (s : str) (fuel : nat) :
  (length s <= fuel)%nat -> re_findall_fuel fuel r s = re_findall r s.
Proof.
  intros H. unfold re_findall. apply re_findall_fuel_enough; [lia|exact H].
Qed.

(** A loop keeps what each of its iterations keeps. *)
Lemma fold_left_invariant {S X : Type} (P : S -> Prop) (f : S -> X -> S)
    (l : list X) (s : S) :
  P s -> (forall s x, x ∈ l -> P s -> P (f s x)) -> P (fold_left f l s).
Proof.
  revert s. induction l as [|x l IH]; intros s Hs Hf; simpl; [exact Hs|].
  apply IH.
  - apply Hf; [left|exact Hs].
  - intros s' y Hy. apply Hf. right. exact Hy.
Qed.

(** ** ChatParser *)

Section ParserFacts.
Context {rt : PyRuntime}.

Lemma set_iter_nil : set_iter [] = [].
Proof.
  apply elem_of_nil_inv. intros x Hx.
  destruct (set_iter_elem_of [] x) as [H _].
  eapply elem_of_nil, H, Hx.
Qed.

Lemma truthy_true (s : str) : truthy s = true <-> s <> [].
Proof. destruct s; simpl; split; congruence. Qed.

Lemma truthy_false (s : str) : truthy s = false <-> s = [].
Proof. destruct s; simpl; split; congruence. Qed.

Lemma matches_metadata_false (txt : str) :
  matches_metadata txt = false ->
  re_search pat_sender txt = None /\ re_search pat_date txt = None
  /\ re_search pat_message_id txt = None /\ re_search pat_reply_to txt = None.
Proof.
  unfold matches_metadata. simpl. intros H.
  destruct (re_search pat_sender txt); [discriminate|].
  destruct (re_search pat_date txt); [discriminate|].
  destruct (re_search pat_message_id txt); [discriminate|].
  destruct (re_search pat_reply_to txt); [discriminate|].
  auto.
Qed.

(** A block without separator and without metadata goes to the body. *)
Lemma process_body (m : ChatMessage) (txt : str) :
  has_separator txt = false -> matches_metadata txt = false ->
  _process_message_content m txt = add_body m txt.
Proof.
  intros Hs Hm. unfold _process_message_content. rewrite Hs, Hm.
  destruct (matches_metadata_false txt Hm) as (-> & -> & -> & ->).
  simpl. rewrite !andb_false_r. reflexivity.
Qed.

(** A block with a separator or with metadata leaves the text alone. *)
Lemma process_keeps_text (m : ChatMessage) (txt : str) :
  has_separator txt || matches_metadata txt = true ->
  text (_process_message_content m txt) = text m
  /\ tags (_process_message_content m txt) = tags m.
Proof.
  intros H. unfold _process_message_content.
  destruct (has_separator txt); [auto|]. simpl in H. rewrite H. simpl.
  repeat match goal with
  | |- context [if ?b then _ else _] => destruct b
  end; auto.
Qed.

Lemma add_body_text (m : ChatMessage) (txt : str) :
  text (add_body m txt)
  = if truthy (text m) then text m ++ newline ++ txt else txt.
Proof.
  unfold add_body.
  destruct (re_findall pat_tags txt), (truthy (text m)); reflexivity.
Qed.

Lemma add_body_tags (m : ChatMessage) (txt : str) :
  tags (add_body m txt) = tags m ++ set_iter (re_findall pat_tags txt).
Proof.
  unfold add_body. destruct (re_findall pat_tags txt) eqn:E.
  - rewrite set_iter_nil, app_nil_r. destruct (truthy (text m)); reflexivity.
  - destruct (truthy (text m)); reflexivity.
Qed.

Lemma add_body_fields (m : ChatMessage) (txt : str) :
  message_number (add_body m txt) = message_number m
  /\ sender (add_body m txt) = sender m
  /\ date (add_body m txt) = date m
  /\ message_id (add_body m txt) = message_id m
  /\ reply_to (add_body m txt) = reply_to m.
Proof.
  unfold add_body.
  destruct (re_findall pat_tags txt), (truthy (text m)); simpl; auto.
Qed.

Lemma flush_truthy (messages : list ChatMessage) (cur : option ChatMessage) :
  Forall (fun m => truthy (text m) = true) messages ->
  Forall (fun m => truthy (text m) = true) (flush messages cur).
Proof.
  intros H. unfold flush. destruct cur as [m|]; [|exact H].
  destruct (truthy (text m)) eqn:E; [|exact H].
  apply Forall_app. split; [exact H|]. constructor; [exact E|constructor].
Qed.

Lemma parse_step_truthy (st : parser_state) (paragraph : str) :
  Forall (fun m => truthy (text m) = true) (fst st) ->
  Forall (fun m => truthy (text m) = true) (fst (parse_step st paragraph)).
Proof.
  intros H. unfold parse_step.
  destruct (negb (truthy (strip paragraph))); [exact H|].
  destruct (_is_message_start (strip paragraph)); simpl.
  - apply flush_truthy, H.
  - destruct (snd st); exact H.
Qed.

Lemma flush_empty_text (messages : list ChatMessage) (m : ChatMessage) :
  text m = [] -> flush messages (Some m) = messages.
Proof. intros H. unfold flush. rewrite H. reflexivity. Qed.

Lemma parse_loop_app (l1 l2 : list str) (st : parser_state) :
  parse_loop (l1 ++ l2) st = parse_loop l2 (parse_loop l1 st).
Proof. apply fold_left_app. Qed.

Lemma parse_loop_cons (p : str) (l : list str) (st : parser_state) :
  parse_loop (p :: l) st = parse_loop l (parse_step st p).
Proof. reflexivity. Qed.

(** While no body arrives, the accumulator stays without text. *)
Lemma parse_loop_no_body (mid : list str) (messages : list ChatMessage)
    (m : ChatMessage) :
  text m = [] -> Forall (fun p => adds_no_body p = true) mid ->
  exists m', parse_loop mid (messages, Some m) = (messages, Some m')
             /\ text m' = [].
Proof.
  intros Hm Hmid. revert m Hm.
  induction Hmid as [|p mid Hp _ IH]; intros m Hm.
  - exists m. auto.
  - rewrite parse_loop_cons. unfold parse_step. unfold adds_no_body in Hp.
    destruct (truthy (strip p)); simpl in *; [|apply IH, Hm].
    destruct (_is_message_start (strip p)); simpl in *; [discriminate|].
    apply IH. destruct (process_keeps_text m (strip p) Hp) as [-> _].
    exact Hm.
Qed.

(** Before the first start marker the loop does nothing. *)
Lemma parse_loop_before_start (pre : list str) :
  Forall (fun p => starts_message p = false) pre ->
  parse_loop pre ([], None) = ([], None).
Proof.
  induction 1 as [|p pre Hp _ IH]; [reflexivity|].
  rewrite parse_loop_cons. unfold parse_step. unfold starts_message in Hp.
  destruct (truthy (strip p)); simpl in *; [|exact IH].
  rewrite Hp. exact IH.
Qed.
End ParserFacts.

Section ParserClaims.
Context {rt : PyRuntime}.

Lemma parse_step_start (st : parser_state) (s : str) :
  starts_message s = true ->
  parse_step st s
  = (flush (fst st) (snd st), Some (_create_new_message (strip s))).
Proof.
  unfold starts_message, parse_step. intros H.
  apply andb_true_iff in H as [-> ->]. reflexivity.
Qed.

Lemma parse_step_content (messages : list ChatMessage) (m : ChatMessage)
    (paragraph : str) :
  truthy (strip paragraph) = true ->
  _is_message_start (strip paragraph) = false ->
  parse_step (messages, Some m) paragraph
  = (messages, Some (_process_message_content m (strip paragraph))).
Proof. unfold parse_step. intros -> ->. reflexivity. Qed.

(** C2 (as amended): while a message accumulator is active, a block that
    holds one of the separator glyphs is skipped and changes nothing; a
    block without separator glyph that matches none of the four metadata
    patterns is appended to the body, after a line break when the body is
    not empty, and the tags found in it, without duplicates, are appended
    to the tags of the message, the other fields staying as they are. *)
Theorem content_block_goes_to_body (messages : list ChatMessage)
    (m : ChatMessage) (paragraph : str) :
  truthy (strip paragraph) = true ->
  _is_message_start (strip paragraph) = false ->
  (has_separator (strip paragraph) = true ->
     parse_step (messages, Some m) paragraph = (messages, Some m))
  /\ (has_separator (strip paragraph) = false ->
      matches_metadata (strip paragraph) = false ->
      exists m',
        parse_step (messages, Some m) paragraph = (messages, Some m')
        /\ text m'
           = (if truthy (text m)
              then text m ++ newline ++ strip paragraph
              else strip paragraph)
        /\ tags m' = tags m ++ set_iter (re_findall pat_tags (strip paragraph))
        /\ (forall t, t ∈ tags m' <->
              t ∈ tags m \/ t ∈ re_findall pat_tags (strip paragraph))
        /\ message_number m' = message_number m
        /\ sender m' = sender m
        /\ date m' = date m
        /\ message_id m' = message_id m
        /\ reply_to m' = reply_to m).
Proof.
  intros Ht Hs. rewrite (parse_step_content _ _ _ Ht Hs). split.
  - intros Hsep. unfold _process_message_content. rewrite Hsep. reflexivity.
  - intros Hsep Hmeta. rewrite (process_body _ _ Hsep Hmeta).
    eexists. split; [reflexivity|].
    split; [apply add_body_text|].
    split; [apply add_body_tags|].
    split; [|apply add_body_fields].
    intros t. rewrite add_body_tags, elem_of_app, set_iter_elem_of.
    reflexivity.
Qed.

(** C9: every message of the parser's output has a body that is not
    empty; an accumulator opened by a start marker that receives no body
    before the next start marker, or before the end of the input, leaves
    no message: the output is that of the input without these blocks. *)
Theorem parser_keeps_only_messages_with_body :
  (forall (paragraphs : list str) (m : ChatMessage),
     m ∈ parse_word_document paragraphs -> text m <> [])
  /\ (forall (pre mid rest : list str) (s : str),
        starts_message s = true ->
        Forall (fun p => adds_no_body p = true) mid ->
        (rest = [] \/ exists s' rest',
            rest = s' :: rest' /\ starts_message s' = true) ->
        parse_word_document (pre ++ s :: mid ++ rest)
        = parse_word_document (pre ++ rest)).
Proof.
  split.
  - intros paragraphs m. unfold parse_word_document, _identify_violetta_answers.
    intros Hm. apply list_elem_of_fmap in Hm as (m0 & -> & Hm0). simpl.
    apply truthy_true.
    assert (H : Forall (fun m => truthy (text m) = true)
                  (fst (parse_loop paragraphs ([], None)))).
    { apply (fold_left_invariant
               (fun st => Forall (fun m => truthy (text m) = true) (fst st))).
      - constructor.
      - intros st p _. apply parse_step_truthy. }
    apply (flush_truthy _ (snd (parse_loop paragraphs ([], None)))) in H.
    rewrite Forall_forall in H. apply H, Hm0.
  - intros pre mid rest s Hs Hmid Hrest. unfold parse_word_document.
    rewrite !parse_loop_app, parse_loop_cons, parse_loop_app.
    rewrite (parse_step_start _ _ Hs).
    set (st := parse_loop pre ([], None)).
    destruct (parse_loop_no_body mid (flush (fst st) (snd st))
                (_create_new_message (strip s)) eq_refl Hmid)
      as (m' & -> & Hm').
    destruct Hrest as [->|(s' & rest' & -> & Hs')].
    + cbn [parse_loop fold_left fst snd].
      rewrite (flush_empty_text _ _ Hm'). reflexivity.
    + rewrite !parse_loop_cons, !(parse_step_start _ _ Hs').
      cbn [fst snd]. rewrite (flush_empty_text _ _ Hm'). reflexivity.
Qed.

(** C10: the text blocks before the first start marker or divider are
    ignored: alone they give no message, and the output of the parser is
    the same with and without them, so that they give no body text, no
    metadata and no tag to any message. *)
Theorem blocks_before_first_start_ignored (pre : list str) :
  Forall (fun p => starts_message p = false) pre ->
  parse_word_document pre = []
  /\ forall rest : list str,
       parse_word_document (pre ++ rest) = parse_word_document rest.
Proof.
  intros Hpre. unfold parse_word_document. split.
  - rewrite (parse_loop_before_start _ Hpre). reflexivity.
  - intros rest.
    rewrite parse_loop_app, (parse_loop_before_start _ Hpre). reflexivity.
Qed.
End ParserClaims.

(** ** QAGrouper *)

Section SequenceFacts.
Context {rt : PyRuntime}.

(** The loop of [int] over the digits computes their positional value. *)
Lemma horner_positional (s : str) (acc : Z) :
  fold_left (fun a c => (a * 10 + digit_value c)%Z) s acc
  = (acc * 10 ^ Z.of_nat (length s) + positional_value s)%Z.
Proof.
  revert acc. induction s as [|c s IH]; intros acc.
  - simpl. lia.
  - cbn [fold_left positional_value length]. rewrite IH.
    rewrite Nat2Z.inj_succ, Z.pow_succ_r by lia. ring.
Qed.

Lemma int_of_Some (s : str) (k : Z) :
  int_of s = Some k ->
  truthy s = true /\ forallb isdecimal s = true
  /\ within_int_limit (length s) = true /\ k = positional_value s.
Proof.
  unfold int_of.
  destruct (truthy s) eqn:E1; [|discriminate].
  destruct (forallb isdecimal s) eqn:E2; [|discriminate].
  destruct (within_int_limit (length s)) eqn:E3; [|discriminate].
  simpl. intros [= <-]. rewrite horner_positional.
  repeat split; lia.
Qed.

Lemma int_of_decimal (s : str) :
  truthy s = true -> forallb isdecimal s = true ->
  within_int_limit (length s) = true ->
  int_of s = Some (positional_value s).
Proof.
  intros E1 E2 E3. unfold int_of. rewrite E1, E2, E3. simpl.
  rewrite horner_positional. f_equal; lia.
Qed.

Lemma decimal_isdigit (s : str) :
  forallb isdecimal s = true -> forallb isdigit s = true.
Proof.
  rewrite !forallb_forall. intros H c Hc.
  apply isdecimal_isdigit, H, Hc.
Qed.

(** The key of the sort, when [int] returns, is the numeric sequence
    number. *)
Lemma sequence_key_Some (x : ChatMessage) (k : Z) :
  sequence_key x = Some k -> k = sequence_number x.
Proof.
  unfold sequence_key, sequence_number.
  destruct (str_isdigit (message_number x)) eqn:E.
  - intros (E1 & E2 & _ & ->)%int_of_Some. rewrite E1, E2. reflexivity.
  - intros [= <-].
    destruct (truthy (message_number x)) eqn:E1; [|reflexivity].
    destruct (forallb isdecimal (message_number x)) eqn:E2; [|reflexivity].
    unfold str_isdigit in E. rewrite E1, (decimal_isdigit _ E2) in E.
    discriminate.
Qed.

Lemma sequence_key_not_numeric (m : ChatMessage) :
  str_isdigit (message_number m) = false -> sequence_key m = Some 0%Z.
Proof. unfold sequence_key. intros ->. reflexivity. Qed.

Lemma sequence_key_decimal (m : ChatMessage) :
  message_number m <> [] -> forallb isdecimal (message_number m) = true ->
  within_int_limit (length (message_number m)) = true ->
  sequence_key m = Some (positional_value (message_number m)).
Proof.
  intros E1%truthy_true E2 E3. unfold sequence_key, str_isdigit.
  rewrite E1, (decimal_isdigit _ E2). simpl.
  apply int_of_decimal; assumption.
Qed.

(** [int] raises on a number that passes [isdigit] and has a character
    that is not a decimal digit, or more digits than the limit. *)
Lemma sequence_key_None (m : ChatMessage) :
  sequence_key m = None <->
  str_isdigit (message_number m) = true
  /\ (forallb isdecimal (message_number m) = false
      \/ within_int_limit (length (message_number m)) = false).
Proof.
  unfold sequence_key, int_of, str_isdigit.
  destruct (truthy (message_number m)); simpl; [|split; [discriminate|]].
  - destruct (forallb isdigit (message_number m)); simpl;
      [|split; [discriminate|intros [? _]; discriminate]].
    destruct (forallb isdecimal (message_number m)); simpl.
    + destruct (within_int_limit (length (message_number m)));
        split; try discriminate; auto.
      intros [_ [?|?]]; discriminate.
    + split; auto.
  - intros [? _]; discriminate.
Qed.

Lemma with_keys_Some (l : list ChatMessage) (keyed : list (Z * ChatMessage)) :
  with_keys l = Some keyed ->
  keyed = map (fun x => (sequence_number x, x)) l.
Proof.
  revert keyed. induction l as [|x l IH]; intros keyed; simpl.
  - intros [= <-]. reflexivity.
  - destruct (sequence_key x) as [k|] eqn:E; [|discriminate].
    destruct (with_keys l) as [keyed'|]; [|discriminate].
    intros [= <-]. rewrite (sequence_key_Some _ _ E), (IH _ eq_refl).
    reflexivity.
Qed.

Lemma with_keys_is_Some (l : list ChatMessage) :
  is_Some (with_keys l) <-> forall x, x ∈ l -> is_Some (sequence_key x).
Proof.
  induction l as [|x l IH]; simpl.
  - split; [|eauto]. intros _ x H. exfalso. eapply elem_of_nil, H.
  - destruct (sequence_key x) as [k|] eqn:E.
    + destruct (with_keys l) as [keyed|].
      * split; [|eauto]. intros _ y [->|Hy]%elem_of_cons; [eauto|].
        apply IH; [eauto|exact Hy].
      * split; [intros [? ?]; discriminate|]. intros H.
        assert (Hn : is_Some (@None (list (Z * ChatMessage)))).
        { apply IH. intros y Hy. apply H. right. exact Hy. }
        destruct Hn; discriminate.
    + split; [intros [? ?]; discriminate|]. intros H.
      destruct (H x) as [k Hk]; [left|]. congruence.
Qed.

(** Sorting the messages with their keys is sorting them by their key. *)
Lemma insert_by_decorated (f : ChatMessage -> Z) (x : ChatMessage)
    (l : list ChatMessage) :
  insert_by Z.leb fst (f x, x) (map (fun y => (f y, y)) l)
  = map (fun y => (f y, y)) (insert_by Z.leb f x l).
Proof.
  induction l as [|y l IH]; simpl; [reflexivity|].
  destruct (f x <=? f y)%Z; simpl; [reflexivity|]. rewrite IH. reflexivity.
Qed.

Lemma sort_by_decorated (f : ChatMessage -> Z) (l : list ChatMessage) :
  map snd (sort_by Z.leb fst (map (fun y => (f y, y)) l)) = sort_by Z.leb f l.
Proof.
  assert (H : sort_by Z.leb fst (map (fun y => (f y, y)) l)
              = map (fun y => (f y, y)) (sort_by Z.leb f l)).
  { induction l as [|x l IH]; simpl; [reflexivity|].
    rewrite IH. apply insert_by_decorated. }
  rewrite H, map_map. simpl. apply map_id.
Qed.

Lemma sort_by_sequence_Some (l q : list ChatMessage) :
  sort_by_sequence l = Some q -> q = sort_by Z.leb sequence_number l.
Proof.
  unfold sort_by_sequence.
  destruct (with_keys l) as [keyed|] eqn:E; [|discriminate].
  intros [= <-]. rewrite (with_keys_Some _ _ E). apply sort_by_decorated.
Qed.

Lemma sort_by_sequence_is_Some (l : list ChatMessage) :
  is_Some (sort_by_sequence l) <-> forall x, x ∈ l -> is_Some (sequence_key x).
Proof.
  rewrite <- with_keys_is_Some. unfold sort_by_sequence.
  destruct (with_keys l) as [keyed|].
  - split; intros _; eexists; reflexivity.
  - split; intros [? ?]; discriminate.
Qed.

Lemma sort_by_sequence_None (l : list ChatMessage) :
  sort_by_sequence l = None <-> exists x, x ∈ l /\ sequence_key x = None.
Proof.
  unfold sort_by_sequence. induction l as [|x l IH]; simpl.
  - split; [discriminate|]. intros (x & H & _). exfalso. eapply elem_of_nil, H.
  - destruct (sequence_key x) as [k|] eqn:E.
    + destruct (with_keys l) as [keyed|].
      * split; [discriminate|]. intros (y & [->|Hy]%elem_of_cons & Hk);
          [congruence|].
        assert (Hn : Some (map snd (sort_by Z.leb fst keyed)) = None)
          by (apply IH; eauto).
        discriminate.
      * split; [|reflexivity]. intros _.
        destruct (proj1 IH eq_refl) as (y & Hy & Hk).
        exists y. split; [right; exact Hy|exact Hk].
    + split; [|reflexivity]. intros _. exists x. split; [left|exact E].
Qed.

Lemma by_sequence_sorted (l : list ChatMessage) :
  StronglySorted by_sequence (sort_by Z.leb sequence_number l).
Proof.
  eapply StronglySorted_weaken;
    [|apply (sort_by_sorted Z.leb sequence_number Zleb_total Zleb_trans)].
  intros x y. unfold key_le, by_sequence. apply Z.leb_le.
Qed.

Lemma by_sequence_refl (m : ChatMessage) : by_sequence m m.
Proof. unfold by_sequence. lia. Qed.

Lemma StronglySorted_filter {A : Type} (R : A -> A -> Prop) (f : A -> bool)
    (l : list A) :
  StronglySorted R l -> StronglySorted R (List.filter f l).
Proof.
  induction 1 as [|x l Hl IH Hx]; simpl; [constructor|].
  destruct (f x); [|exact IH]. constructor; [exact IH|].
  rewrite Forall_forall in *. intros y Hy. apply Hx.
  apply list_elem_of_In. apply list_elem_of_In, filter_In in Hy. tauto.
Qed.
End SequenceFacts.

Section GrouperFacts.
Context {rt : PyRuntime}.

Lemma elem_of_filter_b {A} (f : A -> bool) (l : list A) (x : A) :
  x ∈ List.filter f l <-> x ∈ l /\ f x = true.
Proof. rewrite !list_elem_of_In. apply filter_In. Qed.

Lemma messages_by_id_Some (messages : list ChatMessage) (i : str)
    (m : ChatMessage) :
  messages_by_id messages !! i = Some m ->
  m ∈ messages /\ message_id m = i /\ i <> [].
Proof.
  unfold messages_by_id. revert i m.
  apply (fold_left_invariant
           (fun d : gmap str ChatMessage => forall i m, d !! i = Some m ->
              m ∈ messages /\ message_id m = i /\ i <> [])).
  - intros i m H. rewrite lookup_empty in H. discriminate.
  - intros d x Hx IH i m.
    destruct (truthy (message_id x)) eqn:E; [|apply IH].
    rewrite lookup_insert. case_decide as Hi.
    + intros [= <-]. subst i. split; [exact Hx|]. split; [reflexivity|].
      apply truthy_true, E.
    + apply IH.
Qed.

Lemma messages_by_id_is_Some (messages : list ChatMessage) (m : ChatMessage) :
  m ∈ messages -> message_id m <> [] ->
  is_Some (messages_by_id messages !! message_id m).
Proof.
  unfold messages_by_id. intros Hm Hid.
  induction messages as [|x l IH] using rev_ind.
  - exfalso. eapply elem_of_nil, Hm.
  - rewrite fold_left_app. simpl.
    apply elem_of_app in Hm as [Hm|Hm].
    + destruct (truthy (message_id x)); [|apply IH, Hm].
      rewrite lookup_insert. case_decide; [eauto|apply IH, Hm].
    + apply list_elem_of_singleton in Hm as ->.
      apply truthy_true in Hid. rewrite Hid.
      rewrite lookup_insert_eq. eauto.
Qed.

Lemma messages_by_id_None (messages : list ChatMessage) (i : str)
    (m : ChatMessage) :
  messages_by_id messages !! i = None -> m ∈ messages -> message_id m <> [] ->
  message_id m <> i.
Proof.
  intros Hn Hm Hid <-.
  destruct (messages_by_id_is_Some _ _ Hm Hid) as [x Hx]. congruence.
Qed.

Lemma elem_of_ids_of (thread : list ChatMessage) (i : str) :
  i ∈ ids_of thread <-> i <> [] /\ exists m, m ∈ thread /\ message_id m = i.
Proof.
  unfold ids_of. rewrite elem_of_filter_b, list_elem_of_fmap, truthy_true.
  split.
  - intros [(m & -> & Hm) Hi]. eauto.
  - intros [Hi (m & Hm & <-)]. eauto.
Qed.

(** The ids of a thread are the ids of its messages that have one, in the
    order of the thread. *)
Lemma ids_of_with_id (thread : list ChatMessage) :
  ids_of thread
  = map message_id (List.filter (fun m => truthy (message_id m)) thread).
Proof.
  unfold ids_of. induction thread as [|m l IH]; simpl; [reflexivity|].
  destruct (truthy (message_id m)); simpl; rewrite IH; reflexivity.
Qed.

Section Threads.
Variable messages : list ChatMessage.

Lemma find_question_thread_unresolved (i : str) :
  messages_by_id messages !! i = None ->
  _find_question_thread messages i = Some [].
Proof. unfold _find_question_thread. intros ->. reflexivity. Qed.

Lemma find_question_thread_root (i : str) (start : ChatMessage) :
  messages_by_id messages !! i = Some start -> reply_to start = [] ->
  _find_question_thread messages i = Some [start].
Proof. unfold _find_question_thread. intros -> ->. reflexivity. Qed.

Lemma find_question_thread_siblings (i : str) (start : ChatMessage) :
  messages_by_id messages !! i = Some start -> reply_to start <> [] ->
  _find_question_thread messages i
  = sort_by_sequence
      (List.filter (same_question (reply_to start) (sender start)) messages).
Proof.
  unfold _find_question_thread. intros -> H.
  apply truthy_true in H. rewrite H. reflexivity.
Qed.

(** The question thread, when the sort returns. *)
Lemma find_question_thread_sorted_siblings (i : str) (start : ChatMessage)
    (q : list ChatMessage) :
  messages_by_id messages !! i = Some start -> reply_to start <> [] ->
  _find_question_thread messages i = Some q ->
  q = sort_by Z.leb sequence_number
        (List.filter (same_question (reply_to start) (sender start)) messages).
Proof.
  intros Hs Hr. rewrite (find_question_thread_siblings _ _ Hs Hr).
  apply sort_by_sequence_Some.
Qed.

Lemma find_answer_thread_Some (q a : list ChatMessage) :
  _find_answer_thread messages q = Some a ->
  a = sort_by Z.leb sequence_number
        (List.filter (answers_question (ids_of q)) messages).
Proof. unfold _find_answer_thread. apply sort_by_sequence_Some. Qed.

Lemma same_question_spec (parent_id sender_ : str) (m : ChatMessage) :
  same_question parent_id sender_ m = true <->
  reply_to m = parent_id /\ sender m = sender_ /\ is_violetta_answer m = false.
Proof.
  unfold same_question.
  rewrite !andb_true_iff, !bool_decide_eq_true, negb_true_iff. tauto.
Qed.

Lemma answers_question_spec (ids : list str) (m : ChatMessage) :
  answers_question ids m = true <->
  is_violetta_answer m = true /\ reply_to m ∈ ids.
Proof.
  unfold answers_question. rewrite andb_true_iff, bool_decide_eq_true.
  tauto.
Qed.

(** The three shapes of a question thread. *)
Lemma find_question_thread_cases (i : str) (q : list ChatMessage) :
  _find_question_thread messages i = Some q ->
  (messages_by_id messages !! i = None /\ q = [])
  \/ (exists start, messages_by_id messages !! i = Some start
                    /\ reply_to start = [] /\ q = [start])
  \/ (exists start, messages_by_id messages !! i = Some start
                    /\ reply_to start <> []
                    /\ q = sort_by Z.leb sequence_number
                             (List.filter (same_question (reply_to start)
                                             (sender start)) messages)).
Proof.
  intros H. destruct (messages_by_id messages !! i) as [start|] eqn:E.
  - right. destruct (decide (reply_to start = [])) as [Hr|Hr].
    + left. rewrite (find_question_thread_root _ _ E Hr) in H.
      injection H as <-. eauto.
    + right. exists start. split; [reflexivity|]. split; [exact Hr|].
      apply (find_question_thread_sorted_siblings _ _ _ E Hr H).
  - left. rewrite (find_question_thread_unresolved _ E) in H.
    injection H as <-. auto.
Qed.

Lemma find_question_thread_sub (i : str) (q : list ChatMessage)
    (m : ChatMessage) :
  _find_question_thread messages i = Some q -> m ∈ q -> m ∈ messages.
Proof.
  intros [[_ ->]|[(start & E & _ & ->)|(start & _ & _ & ->)]]
    %find_question_thread_cases.
  - intros H. exfalso. eapply elem_of_nil, H.
  - intros ->%list_elem_of_singleton. apply (messages_by_id_Some _ _ _ E).
  - rewrite elem_of_sort_by, elem_of_filter_b. tauto.
Qed.

Lemma find_question_thread_sorted (i : str) (q : list ChatMessage) :
  _find_question_thread messages i = Some q -> StronglySorted by_sequence q.
Proof.
  intros [[_ ->]|[(start & _ & _ & ->)|(start & _ & _ & ->)]]
    %find_question_thread_cases.
  - constructor.
  - repeat constructor.
  - apply by_sequence_sorted.
Qed.

Lemma find_question_thread_found (i : str) (q : list ChatMessage) :
  _find_question_thread messages i = Some q -> q <> [] ->
  exists start, messages_by_id messages !! i = Some start.
Proof.
  intros [[_ ->]|[(start & E & _)|(start & E & _)]]%find_question_thread_cases;
    [contradiction|eauto|eauto].
Qed.

Lemma elem_of_find_answer_thread (q a : list ChatMessage) (m : ChatMessage) :
  _find_answer_thread messages q = Some a ->
  m ∈ a <->
  m ∈ messages /\ is_violetta_answer m = true /\ reply_to m ∈ ids_of q.
Proof.
  intros ->%find_answer_thread_Some.
  rewrite elem_of_sort_by, elem_of_filter_b, answers_question_spec.
  tauto.
Qed.

Lemma find_answer_thread_sorted (q a : list ChatMessage) :
  _find_answer_thread messages q = Some a -> StronglySorted by_sequence a.
Proof. intros ->%find_answer_thread_Some. apply by_sequence_sorted. Qed.
End Threads.
End GrouperFacts.

Section GrouperLoop.
Context {rt : PyRuntime}.
Variable messages : list ChatMessage.

(** What one iteration of the loop can do, when it returns. *)
Lemma group_step_cases (st st' : grouper_state) (answer : ChatMessage) :
  group_step messages st answer = Some st' ->
  st' = st
  \/ (reply_to answer <> []
      /\ exists q a,
           _find_question_thread messages (reply_to answer) = Some q
           /\ q <> []
           /\ (question_key_of (ids_of q) ∉ snd st)
           /\ _find_answer_thread messages q = Some a
           /\ st' = (fst st ++ [_create_qa_pair q a],
                     {[question_key_of (ids_of q)]} ∪ snd st)).
Proof.
  unfold group_step.
  destruct (truthy (reply_to answer)) eqn:Hr; simpl;
    [|intros [= <-]; left; reflexivity].
  destruct (_find_question_thread messages (reply_to answer))
    as [[|m q]|] eqn:Hq; [intros [= <-]; left; reflexivity| |discriminate].
  case_bool_decide as Hk; [intros [= <-]; left; reflexivity|].
  destruct (_find_answer_thread messages (m :: q)) as [a|] eqn:Ha;
    [|discriminate].
  intros [= <-]. right. split; [apply truthy_true, Hr|].
  exists (m :: q), a. split; [reflexivity|]. split; [discriminate|].
  split; [exact Hk|]. split; [exact Ha|reflexivity].
Qed.

Lemma group_step_no_target (st : grouper_state) (answer : ChatMessage) :
  reply_to answer = [] -> group_step messages st answer = Some st.
Proof. unfold group_step. intros ->. reflexivity. Qed.

Lemma group_step_unresolved (st : grouper_state) (answer : ChatMessage) :
  messages_by_id messages !! reply_to answer = None ->
  group_step messages st answer = Some st.
Proof.
  intros H. unfold group_step.
  rewrite (find_question_thread_unresolved _ _ H).
  destruct (negb (truthy (reply_to answer))); reflexivity.
Qed.

Lemma group_step_not_found (st : grouper_state) (answer : ChatMessage) :
  _find_question_thread messages (reply_to answer) = Some [] ->
  group_step messages st answer = Some st.
Proof.
  intros H. unfold group_step. rewrite H.
  destruct (negb (truthy (reply_to answer))); reflexivity.
Qed.

Lemma group_step_processed (st : grouper_state) (answer : ChatMessage)
    (q : list ChatMessage) :
  _find_question_thread messages (reply_to answer) = Some q ->
  question_key_of (ids_of q) ∈ snd st ->
  group_step messages st answer = Some st.
Proof.
  intros Hq Hk. unfold group_step. rewrite Hq.
  destruct (negb (truthy (reply_to answer))); [reflexivity|].
  destruct q as [|m q]; [reflexivity|].
  rewrite bool_decide_eq_true_2 by exact Hk. reflexivity.
Qed.

Lemma group_step_new (st : grouper_state) (answer : ChatMessage)
    (q a : list ChatMessage) :
  reply_to answer <> [] ->
  _find_question_thread messages (reply_to answer) = Some q -> q <> [] ->
  (question_key_of (ids_of q) ∉ snd st) ->
  _find_answer_thread messages q = Some a ->
  group_step messages st answer
  = Some (fst st ++ [_create_qa_pair q a],
          {[question_key_of (ids_of q)]} ∪ snd st).
Proof.
  intros Hr%truthy_true Hq Hne Hk Ha. unfold group_step. rewrite Hr, Hq.
  simpl. destruct q as [|m q]; [contradiction|].
  rewrite bool_decide_eq_false_2 by exact Hk. rewrite Ha. reflexivity.
Qed.

Lemma elem_of_violetta_answers (answer : ChatMessage) :
  answer ∈ violetta_answers messages <->
  answer ∈ messages /\ is_violetta_answer answer = true.
Proof. unfold violetta_answers. apply elem_of_filter_b. Qed.

Lemma group_loop_cons (answer : ChatMessage) (rest : list ChatMessage)
    (st : grouper_state) :
  group_loop messages (answer :: rest) st
  = match group_step messages st answer with
    | None => None
    | Some st' => group_loop messages rest st'
    end.
Proof. reflexivity. Qed.

(** A loop that returns keeps what each of its iterations keeps. *)
Lemma group_loop_invariant (P : grouper_state -> Prop)
    (answers : list ChatMessage) (st st' : grouper_state) :
  P st ->
  (forall s s' x, x ∈ answers -> P s ->
                  group_step messages s x = Some s' -> P s') ->
  group_loop messages answers st = Some st' -> P st'.
Proof.
  revert st. induction answers as [|x l IH]; intros st Hs Hf.
  - intros [= <-]. exact Hs.
  - rewrite group_loop_cons.
    destruct (group_step messages st x) as [s1|] eqn:E; [|discriminate].
    apply IH.
    + apply (Hf st s1 x); [left|exact Hs|exact E].
    + intros s s' y Hy. apply Hf. right. exact Hy.
Qed.

Lemma group_questions_answers_Some (qa_pairs : list QAPair) :
  group_questions_answers messages = Some qa_pairs ->
  exists st, group_loop messages (violetta_answers messages) ([], ∅) = Some st
             /\ qa_pairs = fst st.
Proof.
  unfold group_questions_answers.
  destruct (group_loop messages (violetta_answers messages) ([], ∅))
    as [st|]; [|discriminate].
  intros [= <-]. eauto.
Qed.

(** Every pair of the output was built for some answer of the list. *)
Lemma group_emitted (qa_pairs : list QAPair) (p : QAPair) :
  group_questions_answers messages = Some qa_pairs -> p ∈ qa_pairs ->
  exists answer, emitted_from messages answer p.
Proof.
  intros (st & Hst & ->)%group_questions_answers_Some. revert p.
  refine (group_loop_invariant
            (fun st : grouper_state => forall p, p ∈ fst st ->
               exists answer, emitted_from messages answer p)
            (violetta_answers messages) ([], ∅) st _ _ Hst).
  { intros p H. exfalso. eapply elem_of_nil, H. }
  intros s s' answer Ha IH Hstep p.
  apply elem_of_violetta_answers in Ha as [Ha1 Ha2].
  destruct (group_step_cases _ _ _ Hstep)
    as [->|(Hr & q & a & Hq & Hne & _ & Hat & ->)]; [apply IH|].
  simpl. intros [Hp|Hp]%elem_of_app; [apply IH, Hp|].
  apply list_elem_of_singleton in Hp as ->.
  exists answer. unfold emitted_from.
  split; [exact Ha1|]. split; [exact Ha2|]. split; [exact Hr|].
  exists q, a. auto.
Qed.

(** The keys of the emitted pairs are all different, and all recorded in
    [processed_questions]. *)
Lemma group_loop_keys (answers : list ChatMessage) (st : grouper_state) :
  group_loop messages answers ([], ∅) = Some st ->
  NoDup (map canonical_key (fst st))
  /\ forall p, p ∈ fst st -> canonical_key p ∈ snd st.
Proof.
  apply (group_loop_invariant
           (fun st : grouper_state =>
              NoDup (map canonical_key (fst st))
              /\ forall p, p ∈ fst st -> canonical_key p ∈ snd st)).
  - split; [constructor|]. intros p H. exfalso. eapply elem_of_nil, H.
  - intros s s' answer _ [IH1 IH2] Hstep.
    destruct (group_step_cases _ _ _ Hstep)
      as [->|(_ & q & a & _ & _ & Hk & _ & ->)]; [split; assumption|].
    simpl. split.
    + rewrite map_app. apply NoDup_app. split; [exact IH1|].
      split; [|repeat constructor; apply not_elem_of_nil].
      intros k Hk1 Hk2. simpl in Hk2.
      apply list_elem_of_singleton in Hk2 as ->.
      apply Hk. apply (list_elem_of_fmap canonical_key) in Hk1
        as (p & Hp1 & Hp2).
      unfold canonical_key in Hp1 at 1. simpl in Hp1. rewrite Hp1.
      apply IH2, Hp2.
    + intros p [Hp|Hp]%elem_of_app.
      * apply elem_of_union_r, IH2, Hp.
      * apply list_elem_of_singleton in Hp as ->.
        apply elem_of_union_l, elem_of_singleton. reflexivity.
Qed.

Lemma group_loop_app (l1 l2 : list ChatMessage) (st : grouper_state) :
  group_loop messages (l1 ++ l2) st
  = match group_loop messages l1 st with
    | None => None
    | Some st1 => group_loop messages l2 st1
    end.
Proof.
  revert st. induction l1 as [|x l1 IH]; intros st; [reflexivity|].
  rewrite <- app_comm_cons, !group_loop_cons.
  destruct (group_step messages st x); [apply IH|reflexivity].
Qed.

(** The answer that drives an emitted pair resolves to a message. *)
Lemma emitted_from_resolved (answer : ChatMessage) (p : QAPair) :
  emitted_from messages answer p ->
  exists start, messages_by_id messages !! reply_to answer = Some start.
Proof.
  intros (_ & _ & _ & q & a & Hq & Hne & _).
  apply (find_question_thread_found _ _ _ Hq Hne).
Qed.
End GrouperLoop.

Section GrouperClaims.
Context {rt : PyRuntime}.
Variable messages : list ChatMessage.

(** C1 (as amended): every emitted pair is built for an official answer
    whose reply target resolves to a known message, and its question
    thread is never empty; its answer thread holds the driving answer,
    and so is not empty, whenever the resolved message is not itself an
    official answer or has no reply target of its own. *)
Theorem emitted_pair_has_question_and_answer (qa_pairs : list QAPair)
    (p : QAPair) :
  group_questions_answers messages = Some qa_pairs -> p ∈ qa_pairs ->
  exists (answer start : ChatMessage) (q a : list ChatMessage),
    answer ∈ messages
    /\ is_violetta_answer answer = true
    /\ messages_by_id messages !! reply_to answer = Some start
    /\ _find_question_thread messages (reply_to answer) = Some q
    /\ _find_answer_thread messages q = Some a
    /\ p = _create_qa_pair q a
    /\ q <> []
    /\ (is_violetta_answer start = false \/ reply_to start = [] ->
        answer ∈ a /\ a <> []).
Proof.
  intros Hout Hp. destruct (group_emitted _ _ _ Hout Hp) as (answer & He).
  destruct (emitted_from_resolved _ _ _ He) as (start & Hs).
  destruct He as (Ha & Hv & Hr & q & a & Hq & Hne & Hat & ->).
  exists answer, start, q, a.
  do 6 (split; [first [eassumption|reflexivity]|]).
  split; [exact Hne|]. intros Hstart.
  assert (Hin : answer ∈ a).
  { apply (elem_of_find_answer_thread _ _ _ _ Hat). split; [exact Ha|].
    split; [exact Hv|]. apply elem_of_ids_of. split; [exact Hr|].
    exists start. destruct (messages_by_id_Some _ _ _ Hs) as (Hm & Hid & _).
    split; [|exact Hid].
    destruct (find_question_thread_cases _ _ _ Hq)
      as [[E _]|[(s & E & _ & ->)|(s & E & Hrs & ->)]].
    - congruence.
    - replace s with start by congruence. left.
    - replace s with start in * by congruence.
      apply elem_of_sort_by, elem_of_filter_b. split; [exact Hm|].
      apply same_question_spec. destruct Hstart; [auto|contradiction]. }
  split; [exact Hin|]. intros E. rewrite E in Hin.
  eapply elem_of_nil, Hin.
Qed.

(** C4: for every emitted pair, the answer thread is made of exactly the
    official answers of the full list whose reply target is one of the
    non-empty ids of the question thread; [question_ids] and [answer_ids]
    are the ids of the messages of the two threads that have an id, in
    the order of the threads, and both threads are in ascending order of
    the numeric sequence number of their messages, where a sequence
    number that is not numeric counts as 0. *)
Theorem emitted_pair_threads_in_sequence (qa_pairs : list QAPair)
    (p : QAPair) :
  group_questions_answers messages = Some qa_pairs -> p ∈ qa_pairs ->
  exists (answer : ChatMessage) (q a : list ChatMessage),
    answer ∈ messages
    /\ is_violetta_answer answer = true
    /\ _find_question_thread messages (reply_to answer) = Some q
    /\ _find_answer_thread messages q = Some a
    /\ p = _create_qa_pair q a
    /\ a ≡ₚ List.filter (answers_question (question_ids p)) messages
    /\ (forall m, m ∈ a <->
          m ∈ messages /\ is_violetta_answer m = true
          /\ reply_to m ∈ question_ids p)
    /\ (forall i, i ∈ question_ids p <->
          i <> [] /\ exists m, m ∈ q /\ message_id m = i)
    /\ question_ids p
       = map message_id (List.filter (fun m => truthy (message_id m)) q)
    /\ answer_ids p
       = map message_id (List.filter (fun m => truthy (message_id m)) a)
    /\ StronglySorted by_sequence q
    /\ StronglySorted by_sequence a
    /\ StronglySorted by_sequence
         (List.filter (fun m => truthy (message_id m)) q)
    /\ StronglySorted by_sequence
         (List.filter (fun m => truthy (message_id m)) a).
Proof.
  intros Hout Hp. destruct (group_emitted _ _ _ Hout Hp) as (answer & He).
  destruct He as (Ha & Hv & _ & q & a & Hq & _ & Hat & ->).
  exists answer, q, a.
  split; [exact Ha|]. split; [exact Hv|].
  split; [exact Hq|]. split; [exact Hat|]. split; [reflexivity|].
  pose proof (find_question_thread_sorted _ _ _ Hq) as Sq.
  pose proof (find_answer_thread_sorted _ _ _ Hat) as Sa.
  cbn [question_ids answer_ids _create_qa_pair].
  split.
  { rewrite (find_answer_thread_Some _ _ _ Hat) at 1.
    apply sort_by_Permutation. }
  split; [intros m; apply (elem_of_find_answer_thread _ _ _ _ Hat)|].
  split; [intros i; apply elem_of_ids_of|].
  split; [apply ids_of_with_id|]. split; [apply ids_of_with_id|].
  split; [exact Sq|]. split; [exact Sa|].
  split; apply StronglySorted_filter; assumption.
Qed.

(** C5: in one run of the grouper no two emitted pairs have the same
    canonical key, the sorted tuple of the non-empty ids of the question
    thread; an answer whose question thread has a key that is already
    recorded is skipped and leaves the state of the loop as it is. *)
Theorem emitted_keys_are_unique :
  (forall qa_pairs : list QAPair,
     group_questions_answers messages = Some qa_pairs ->
     NoDup (map canonical_key qa_pairs))
  /\ forall (st : grouper_state) (answer : ChatMessage)
            (q : list ChatMessage),
       _find_question_thread messages (reply_to answer) = Some q ->
       question_key_of (ids_of q) ∈ snd st ->
       group_step messages st answer = Some st.
Proof.
  split.
  - intros qa_pairs (st & Hst & ->)%group_questions_answers_Some.
    apply (group_loop_keys messages _ _ Hst).
  - intros st answer q. apply group_step_processed.
Qed.

(** C6: an official answer whose reply target is not in the id index
    produces no pair and does not stop the batch: its iteration returns
    and leaves the state of the loop as it is, the answers before and
    after it are processed as if it were absent, and no emitted pair has
    its reply target among its question ids. *)
Theorem unresolved_answer_is_skipped (answer : ChatMessage) :
  messages_by_id messages !! reply_to answer = None ->
  (forall st, group_step messages st answer = Some st)
  /\ (forall pre post st,
        group_loop messages (pre ++ answer :: post) st
        = group_loop messages (pre ++ post) st)
  /\ (forall qa_pairs p,
        group_questions_answers messages = Some qa_pairs -> p ∈ qa_pairs ->
        reply_to answer ∉ question_ids p).
Proof.
  intros Hn. split; [intros st; apply group_step_unresolved, Hn|].
  split.
  - intros pre post st. rewrite !group_loop_app.
    destruct (group_loop messages pre st) as [st1|]; [|reflexivity].
    rewrite group_loop_cons, (group_step_unresolved _ _ _ Hn). reflexivity.
  - intros qa_pairs p Hout Hp Hin.
    destruct (group_emitted _ _ _ Hout Hp) as (a & He).
    destruct He as (_ & _ & _ & q & at_ & Hq & _ & _ & ->). simpl in Hin.
    apply elem_of_ids_of in Hin as (Hr & m & Hm & Hid).
    apply (find_question_thread_sub _ _ _ _ Hq) in Hm.
    apply (messages_by_id_None _ _ _ Hn Hm); [|exact Hid].
    rewrite Hid. exact Hr.
Qed.

(** C7: the tags of an emitted pair are the tags of the messages of its
    answer thread, each of them once: a tag is in the pair exactly when
    some message of the answer thread has it, so that a tag that only
    messages of the question thread have is not in the pair.  The tags of
    one message can repeat: two body blocks with the same tags leave
    them twice in the message. *)
Theorem pair_tags_are_answer_thread_tags :
  (forall (qa_pairs : list QAPair) (p : QAPair),
     group_questions_answers messages = Some qa_pairs -> p ∈ qa_pairs ->
     exists (answer : ChatMessage) (q a : list ChatMessage),
       answer ∈ messages
       /\ is_violetta_answer answer = true
       /\ _find_question_thread messages (reply_to answer) = Some q
       /\ _find_answer_thread messages q = Some a
       /\ p = _create_qa_pair q a
       /\ NoDup (qa_tags p)
       /\ (forall t, t ∈ qa_tags p <-> exists m, m ∈ a /\ t ∈ tags m)
       /\ (forall t, (forall m, m ∈ a -> t ∉ tags m) -> t ∉ qa_tags p))
  /\ (forall (m : ChatMessage) (txt : str),
        has_separator txt = false -> matches_metadata txt = false ->
        re_findall pat_tags txt <> [] ->
        ~ NoDup (tags (_process_message_content
                         (_process_message_content m txt) txt))).
Proof.
  split.
  - intros qa_pairs p Hout Hp.
    destruct (group_emitted _ _ _ Hout Hp) as (answer & He).
    destruct He as (Ha & Hv & _ & q & a & Hq & _ & Hat & ->).
    exists answer, q, a.
    split; [exact Ha|]. split; [exact Hv|].
    split; [exact Hq|]. split; [exact Hat|]. split; [reflexivity|].
    assert (Ht : forall t, t ∈ set_iter (concat (map tags a)) <->
                   exists m, m ∈ a /\ t ∈ tags m).
    { intros t. rewrite set_iter_elem_of, list_elem_of_In, in_concat. split.
      - intros (l & Hl & Hx). apply in_map_iff in Hl as (m & <- & Hm).
        exists m. rewrite !list_elem_of_In. auto.
      - intros (m & Hm & Hx). exists (tags m).
        rewrite <- !list_elem_of_In. split; [|exact Hx].
        apply list_elem_of_fmap. eauto. }
    simpl. split; [apply set_iter_NoDup|]. split; [exact Ht|].
    intros t Hnone Hin. apply Ht in Hin as (m & Hm & Hx).
    exact (Hnone m Hm Hx).
  - intros m txt Hs Hm Hf.
    rewrite !(process_body _ _ Hs Hm), !add_body_tags.
    destruct (re_findall pat_tags txt) as [|t found] eqn:E; [congruence|].
    assert (Ht : t ∈ set_iter (t :: found))
      by (apply set_iter_elem_of; left).
    intros Hnd. apply NoDup_app in Hnd as (_ & Hdisj & _).
    apply (Hdisj t); [|exact Ht].
    apply elem_of_app. right. exact Ht.
Qed.
End GrouperClaims.

(** ** DatabaseManager *)

Section DatabaseClaims.
Context {rt : PyRuntime}.

Lemma list_remove_Permutation (x : str) (l : list str) :
  x ∈ l -> l ≡ₚ x :: list_remove x l.
Proof.
  induction l as [|y l IH]; intros H.
  - exfalso. eapply elem_of_nil, H.
  - simpl. case_bool_decide as E.
    + subst y. reflexivity.
    + apply elem_of_cons in H as [H|H]; [congruence|].
      rewrite (IH H) at 1. apply perm_swap.
Qed.

Lemma is_answer_tag_truthy (t : str) :
  is_answer_tag t = true -> truthy t = true.
Proof.
  destruct t as [|c t]; [|reflexivity].
  unfold is_answer_tag. rewrite lower_nil. vm_compute. congruence.
Qed.

Lemma lower_le_sorted (l : list str) :
  StronglySorted lower_le (sort_by str_leb lower l).
Proof. apply (sort_by_sorted str_leb lower str_leb_total str_leb_trans). Qed.

(** The result of [_sort_tags_alphabetical]: the tags of the set, with the
    first answer tag of the iteration in front and the others sorted. *)
Lemma sort_tags_spec (tags_ : list str) :
  _sort_tags_alphabetical tags_ ≡ₚ set_iter tags_
  /\ ((exists a rest,
         _sort_tags_alphabetical tags_ = a :: rest
         /\ is_answer_tag a = true /\ StronglySorted lower_le rest)
      \/ ((forall t, t ∈ tags_ -> is_answer_tag t = false)
          /\ StronglySorted lower_le (_sort_tags_alphabetical tags_))).
Proof.
  unfold _sort_tags_alphabetical.
  destruct (find is_answer_tag (set_iter tags_)) as [t|] eqn:E.
  - apply find_some in E as [Hin Ht]. apply list_elem_of_In in Hin.
    rewrite (is_answer_tag_truthy _ Ht). simpl. split.
    + rewrite sort_by_Permutation. symmetry.
      apply list_remove_Permutation, Hin.
    + left. do 2 eexists. split; [reflexivity|].
      split; [exact Ht|apply lower_le_sorted].
  - split; [apply sort_by_Permutation|]. right.
    split; [|apply lower_le_sorted].
    intros t Hin. apply (find_none _ _ E).
    apply list_elem_of_In, set_iter_elem_of, Hin.
Qed.

Lemma elem_of_collected_tags (qa_pairs : list QAPair) (t : str) :
  t ∈ collected_tags qa_pairs <-> exists p, p ∈ qa_pairs /\ t ∈ qa_tags p.
Proof.
  unfold collected_tags. rewrite list_elem_of_In, in_concat. split.
  - intros (l & Hl & Hx). apply in_map_iff in Hl as (p & <- & Hp).
    exists p. rewrite !list_elem_of_In. auto.
  - intros (p & Hp & Hx). exists (qa_tags p).
    rewrite <- !list_elem_of_In. split; [|exact Hx].
    apply list_elem_of_fmap. eauto.
Qed.

End DatabaseClaims.

(** * The transcripts, run *)

Ltac decide_by_computation :=
  match goal with
  | |- ?P => apply (proj1 (bool_decide_eq_true P)); vm_compute; reflexivity
  end.

Example thread_transcript_parsed :
  parse_word_document thread_transcript = thread_messages.
Proof. vm_compute. reflexivity. Qed.

Lemma thread_messages_grouped :
  group_questions_answers thread_messages
  = Some [question_pair; follow_up_pair].
Proof. vm_compute. reflexivity. Defined.

(** The tags of a message may repeat across its blocks, while those of the
    pair it belongs to do not. *)
Example message_tags_may_repeat :
  second_answer ∈ parse_word_document thread_transcript
  /\ tags second_answer = [u "#ответвиолетты"; u "#мотивация"; u "#мотивация"]
  /\ qa_tags question_pair = [u "#ответвиолетты"; u "#мотивация"].
Proof.
  rewrite thread_transcript_parsed. split; [|split; reflexivity].
  unfold thread_messages. do 5 right. left.
Qed.

(** The question in several parts: both threads come out in the order of
    the numbers, 9 before 10 and 11 before 12, the parts without number
    first and in the order of the list. *)
Example parts_transcript_parsed :
  parse_word_document parts_transcript = parts_messages.
Proof. vm_compute. reflexivity. Qed.

Lemma parts_question_thread_found :
  _find_question_thread parts_messages (u "31") = Some parts_question_thread.
Proof. vm_compute. reflexivity. Defined.

Lemma parts_answer_thread_found :
  _find_answer_thread parts_messages parts_question_thread
  = Some parts_answer_thread.
Proof. vm_compute. reflexivity. Defined.

Lemma parts_messages_grouped :
  group_questions_answers parts_messages = Some [parts_pair].
Proof. vm_compute. reflexivity. Defined.

Example parts_sequence_numbers :
  map sequence_number parts_messages = [10; 12; 0; 9; 0; 11]%Z
  /\ map sequence_number parts_question_thread = [0; 0; 9; 10]%Z
  /\ map sequence_number parts_answer_thread = [11; 12]%Z.
Proof. vm_compute. repeat split. Qed.

(** C1, as stated, fails: the follow-up answer replies to an official
    answer, its reply target resolves, and the pair emitted for it has the
    first reply of the expert as question thread and no answer at all. *)
Lemma follow_up_pair_has_no_answer :
  follow_up ∈ thread_messages
  /\ is_violetta_answer follow_up = true
  /\ messages_by_id thread_messages !! reply_to follow_up = Some official_answer
  /\ _find_question_thread thread_messages (reply_to follow_up)
     = Some [first_reply]
  /\ _find_answer_thread thread_messages [first_reply] = Some []
  /\ follow_up_pair = _create_qa_pair [first_reply] []
  /\ (exists qa_pairs,
        group_questions_answers thread_messages = Some qa_pairs
        /\ follow_up_pair ∈ qa_pairs)
  /\ answer_ids follow_up_pair = [].
Proof.
  split; [unfold thread_messages; do 3 right; left|].
  split; [reflexivity|].
  split; [vm_compute; reflexivity|].
  split; [vm_compute; reflexivity|].
  split; [vm_compute; reflexivity|].
  split; [vm_compute; reflexivity|].
  split; [|reflexivity].
  exists [question_pair; follow_up_pair].
  split; [exact thread_messages_grouped|]. right. left.
Qed.

(** C2, as stated, fails: a block of plain text with one horizontal bar
    matches no metadata pattern and is not made of divider glyphs, yet it
    is not appended to the body; being the only body block of its message,
    the message is lost. *)
Lemma dash_block_is_dropped :
  strip dash_block = dash_block
  /\ _is_message_start dash_block = false
  /\ matches_metadata dash_block = false
  /\ purely_decorative dash_block = false
  /\ text (_create_new_message (u "Сообщение #7")) = []
  /\ parse_step ([], Some (_create_new_message (u "Сообщение #7"))) dash_block
     = ([], Some (_create_new_message (u "Сообщение #7")))
  /\ parse_word_document [u "Сообщение #7"; dash_block] = [].
Proof. vm_compute. repeat split. Qed.

(** C3, on the code, fails: the sort of the question thread calls [int] on
    every sequence number that passes [isdigit], and [int] raises
    [ValueError] on a number of more digits than its limit and on a digit
    that is not decimal; no question thread is returned then, and the
    whole grouping ends with the exception.  The first transcript is
    parsed into a part of a question whose number has 4301 decimal
    digits, and an official answer to it: the reply target resolves, the
    resolved message replies to the message 20, it is the only sibling,
    its number is numeric, and [_find_question_thread] raises.  The same
    happens with the number made of the superscript two, which is a digit
    for [isdigit] and not a number for [int]. *)
Theorem question_thread_sort_raises :
  (parse_word_document long_number_transcript = long_number_messages
   /\ answer_thirteen ∈ long_number_messages
   /\ is_violetta_answer answer_thirteen = true
   /\ messages_by_id long_number_messages !! reply_to answer_thirteen
      = Some part_long_number
   /\ reply_to part_long_number <> []
   /\ List.filter (same_question (reply_to part_long_number)
                     (sender part_long_number)) long_number_messages
      = [part_long_number]
   /\ message_number part_long_number <> []
   /\ forallb isdecimal (message_number part_long_number) = true
   /\ length (message_number part_long_number) = 4301%nat
   /\ sequence_key part_long_number = None
   /\ _find_question_thread long_number_messages (reply_to answer_thirteen)
      = None
   /\ group_questions_answers long_number_messages = None)
  /\ (answer_thirteen ∈ squared_messages
      /\ messages_by_id squared_messages !! reply_to answer_thirteen
         = Some part_squared
      /\ reply_to part_squared <> []
      /\ List.filter (same_question (reply_to part_squared)
                        (sender part_squared)) squared_messages
         = [part_squared]
      /\ str_isdigit (message_number part_squared) = true
      /\ forallb isdecimal (message_number part_squared) = false
      /\ sequence_key part_squared = None
      /\ _find_question_thread squared_messages (reply_to answer_thirteen)
         = None
      /\ group_questions_answers squared_messages = None).
Proof.
  split.
  - split; [vm_compute; reflexivity|].
    split; [right; left|].
    split; [reflexivity|].
    split; [vm_compute; reflexivity|].
    split; [discriminate|].
    split; [vm_compute; reflexivity|].
    split; [discriminate|].
    split; [vm_compute; reflexivity|].
    split; [vm_compute; reflexivity|].
    split; [vm_compute; reflexivity|].
    split; vm_compute; reflexivity.
  - split; [right; left|].
    split; [vm_compute; reflexivity|].
    split; [discriminate|].
    split; [vm_compute; reflexivity|].
    split; [vm_compute; reflexivity|].
    split; [vm_compute; reflexivity|].
    split; [vm_compute; reflexivity|].
    split; vm_compute; reflexivity.
Qed.

(** * The theorems, at the transcripts *)

Lemma question_pair_emitted : question_pair ∈ [question_pair; follow_up_pair].
Proof. left. Defined.

Lemma parts_pair_emitted : parts_pair ∈ [parts_pair].
Proof. left. Defined.

Lemma emitted_pair_has_question_and_answer_witness :
  group_questions_answers thread_messages
  = Some [question_pair; follow_up_pair]
  /\ question_pair ∈ [question_pair; follow_up_pair]
  /\ exists (answer start : ChatMessage) (q a : list ChatMessage),
       answer ∈ thread_messages
       /\ is_violetta_answer answer = true
       /\ messages_by_id thread_messages !! reply_to answer = Some start
       /\ _find_question_thread thread_messages (reply_to answer) = Some q
       /\ _find_answer_thread thread_messages q = Some a
       /\ question_pair = _create_qa_pair q a
       /\ q <> []
       /\ (is_violetta_answer start = false \/ reply_to start = [] ->
           answer ∈ a /\ a <> []).
Proof.
  split; [exact thread_messages_grouped|].
  split; [exact question_pair_emitted|].
  exact (emitted_pair_has_question_and_answer thread_messages _ question_pair
           thread_messages_grouped question_pair_emitted).
Defined.

(** A body block with white space around it and the same tag twice. *)
Lemma content_block_goes_to_body_witness :
  truthy (strip (u "  Шаг первый #привычки #привычки ")) = true
  /\ _is_message_start (strip (u "  Шаг первый #привычки #привычки ")) = false
  /\ has_separator (strip (u "  Шаг первый #привычки #привычки ")) = false
  /\ matches_metadata (strip (u "  Шаг первый #привычки #привычки ")) = false
  /\ has_separator (strip dash_block) = true
  /\ parse_step ([], Some first_reply) dash_block = ([], Some first_reply)
  /\ exists m',
       parse_step ([], Some first_reply) (u "  Шаг первый #привычки #привычки ")
       = ([], Some m')
       /\ text m' = u "Сейчас отвечу" ++ newline ++ u "Шаг первый #привычки #привычки"
       /\ tags m' = [u "#привычки"].
Proof.
  assert (H1 : truthy (strip (u "  Шаг первый #привычки #привычки ")) = true)
    by (vm_compute; reflexivity).
  assert (H2 : _is_message_start (strip (u "  Шаг первый #привычки #привычки "))
               = false) by (vm_compute; reflexivity).
  assert (H3 : has_separator (strip (u "  Шаг первый #привычки #привычки "))
               = false) by (vm_compute; reflexivity).
  assert (H4 : matches_metadata (strip (u "  Шаг первый #привычки #привычки "))
               = false) by (vm_compute; reflexivity).
  assert (H5 : has_separator (strip dash_block) = true)
    by (vm_compute; reflexivity).
  do 5 (split; [assumption|]). split.
  - apply (content_block_goes_to_body [] first_reply dash_block);
      [vm_compute; reflexivity|vm_compute; reflexivity|exact H5].
  - destruct (proj2 (content_block_goes_to_body [] first_reply _ H1 H2) H3 H4)
      as (m' & E & Ht & Hg & _).
    exists m'. split; [exact E|]. split.
    + rewrite Ht. vm_compute. reflexivity.
    + rewrite Hg. vm_compute. reflexivity.
Defined.

(** The pair of the question in several parts: both threads are reordered
    by the sort, the question thread from the numbers 10, none, 9, none of
    the list to none, none, 9, 10, the answer thread from 12, 11 to 11,
    12. *)
Lemma emitted_pair_threads_in_sequence_witness :
  group_questions_answers parts_messages = Some [parts_pair]
  /\ parts_pair ∈ [parts_pair]
  /\ List.filter (same_question (u "20") (u "Олег")) parts_messages
     = [part_ten; part_unnumbered; part_nine; part_postscript]
  /\ _find_question_thread parts_messages (u "31")
     = Some [part_unnumbered; part_postscript; part_nine; part_ten]
  /\ List.filter (answers_question (question_ids parts_pair)) parts_messages
     = [answer_twelve; answer_eleven]
  /\ _find_answer_thread parts_messages parts_question_thread
     = Some [answer_eleven; answer_twelve]
  /\ exists (answer : ChatMessage) (q a : list ChatMessage),
       answer ∈ parts_messages
       /\ is_violetta_answer answer = true
       /\ _find_question_thread parts_messages (reply_to answer) = Some q
       /\ _find_answer_thread parts_messages q = Some a
       /\ parts_pair = _create_qa_pair q a
       /\ a ≡ₚ List.filter (answers_question (question_ids parts_pair))
                 parts_messages
       /\ (forall m, m ∈ a <->
             m ∈ parts_messages /\ is_violetta_answer m = true
             /\ reply_to m ∈ question_ids parts_pair)
       /\ (forall i, i ∈ question_ids parts_pair <->
             i <> [] /\ exists m, m ∈ q /\ message_id m = i)
       /\ question_ids parts_pair
          = map message_id (List.filter (fun m => truthy (message_id m)) q)
       /\ answer_ids parts_pair
          = map message_id (List.filter (fun m => truthy (message_id m)) a)
       /\ StronglySorted by_sequence q
       /\ StronglySorted by_sequence a
       /\ StronglySorted by_sequence
            (List.filter (fun m => truthy (message_id m)) q)
       /\ StronglySorted by_sequence
            (List.filter (fun m => truthy (message_id m)) a).
Proof.
  split; [exact parts_messages_grouped|].
  split; [exact parts_pair_emitted|].
  split; [vm_compute; reflexivity|].
  split; [exact parts_question_thread_found|].
  split; [vm_compute; reflexivity|].
  split; [exact parts_answer_thread_found|].
  exact (emitted_pair_threads_in_sequence parts_messages _ parts_pair
           parts_messages_grouped parts_pair_emitted).
Defined.

(** The second answer to the question comes when the key of the question
    is already recorded. *)
Lemma emitted_keys_are_unique_witness :
  group_questions_answers thread_messages
  = Some [question_pair; follow_up_pair]
  /\ NoDup (map canonical_key [question_pair; follow_up_pair])
  /\ group_loop thread_messages [official_answer] ([], ∅)
     = Some ([question_pair], {[ [u "9"] ]})
  /\ _find_question_thread thread_messages (reply_to second_answer)
     = Some [question_msg]
  /\ question_key_of (ids_of [question_msg])
     ∈ snd ([question_pair], ({[ [u "9"] ]} : gset (list str)))
  /\ group_step thread_messages ([question_pair], {[ [u "9"] ]}) second_answer
     = Some ([question_pair], {[ [u "9"] ]}).
Proof.
  assert (Hq : _find_question_thread thread_messages (reply_to second_answer)
               = Some [question_msg]) by (vm_compute; reflexivity).
  assert (Hk : question_key_of (ids_of [question_msg])
               ∈ snd ([question_pair], ({[ [u "9"] ]} : gset (list str)))).
  { decide_by_computation. }
  split; [exact thread_messages_grouped|].
  split; [exact (proj1 (emitted_keys_are_unique thread_messages) _
                   thread_messages_grouped)|].
  split; [vm_compute; reflexivity|].
  split; [exact Hq|]. split; [exact Hk|].
  exact (proj2 (emitted_keys_are_unique thread_messages) _ second_answer _
           Hq Hk).
Defined.

Lemma unresolved_answer_is_skipped_witness :
  messages_by_id thread_messages !! reply_to orphan_answer = None
  /\ (forall st, group_step thread_messages st orphan_answer = Some st)
  /\ (forall pre post st,
        group_loop thread_messages (pre ++ orphan_answer :: post) st
        = group_loop thread_messages (pre ++ post) st)
  /\ (forall qa_pairs p,
        group_questions_answers thread_messages = Some qa_pairs ->
        p ∈ qa_pairs -> reply_to orphan_answer ∉ question_ids p).
Proof.
  assert (H : messages_by_id thread_messages !! reply_to orphan_answer = None)
    by (vm_compute; reflexivity).
  split; [exact H|].
  exact (unresolved_answer_is_skipped thread_messages orphan_answer H).
Defined.

Lemma pair_tags_are_answer_thread_tags_witness :
  group_questions_answers thread_messages
  = Some [question_pair; follow_up_pair]
  /\ question_pair ∈ [question_pair; follow_up_pair]
  /\ (exists (answer : ChatMessage) (q a : list ChatMessage),
        answer ∈ thread_messages
        /\ is_violetta_answer answer = true
        /\ _find_question_thread thread_messages (reply_to answer) = Some q
        /\ _find_answer_thread thread_messages q = Some a
        /\ question_pair = _create_qa_pair q a
        /\ NoDup (qa_tags question_pair)
        /\ (forall t, t ∈ qa_tags question_pair <->
              exists m, m ∈ a /\ t ∈ tags m)
        /\ (forall t, (forall m, m ∈ a -> t ∉ tags m) ->
              t ∉ qa_tags question_pair))
  /\ has_separator (u "Подробнее завтра #мотивация") = false
  /\ matches_metadata (u "Подробнее завтра #мотивация") = false
  /\ re_findall pat_tags (u "Подробнее завтра #мотивация") <> []
  /\ ~ NoDup (tags (_process_message_content
                      (_process_message_content question_msg
                         (u "Подробнее завтра #мотивация"))
                      (u "Подробнее завтра #мотивация"))).
Proof.
  assert (H1 : has_separator (u "Подробнее завтра #мотивация") = false)
    by (vm_compute; reflexivity).
  assert (H2 : matches_metadata (u "Подробнее завтра #мотивация") = false)
    by (vm_compute; reflexivity).
  assert (H3 : re_findall pat_tags (u "Подробнее завтра #мотивация") <> [])
    by (vm_compute; discriminate).
  split; [exact thread_messages_grouped|].
  split; [exact question_pair_emitted|].
  split; [exact (proj1 (pair_tags_are_answer_thread_tags thread_messages)
                   _ question_pair thread_messages_grouped
                   question_pair_emitted)|].
  split; [exact H1|]. split; [exact H2|]. split; [exact H3|].
  exact (proj2 (pair_tags_are_answer_thread_tags thread_messages)
           question_msg _ H1 H2 H3).
Defined.


(** A start marker followed by metadata and a short divider only. *)
Lemma parser_keeps_only_messages_with_body_witness :
  question_msg ∈ parse_word_document thread_transcript
  /\ text question_msg <> []
  /\ starts_message (u "Сообщение #1") = true
  /\ Forall (fun p => adds_no_body p = true) [u "От: Анна • ID: 9"; u "――"]
  /\ starts_message (u "Сообщение #2") = true
  /\ parse_word_document
       ([] ++ u "Сообщение #1" :: [u "От: Анна • ID: 9"; u "――"]
           ++ [u "Сообщение #2"; u "Как начать?"])
     = parse_word_document ([] ++ [u "Сообщение #2"; u "Как начать?"])
  /\ parse_word_document
       ([] ++ u "Сообщение #1" :: [u "От: Анна • ID: 9"; u "――"] ++ [])
     = parse_word_document ([] ++ []).
Proof.
  assert (H0 : question_msg ∈ parse_word_document thread_transcript)
    by (rewrite thread_transcript_parsed; left).
  assert (H1 : starts_message (u "Сообщение #1") = true)
    by (vm_compute; reflexivity).
  assert (H2 : Forall (fun p => adds_no_body p = true)
                 [u "От: Анна • ID: 9"; u "――"])
    by (repeat constructor).
  assert (H3 : starts_message (u "Сообщение #2") = true)
    by (vm_compute; reflexivity).
  split; [exact H0|].
  split; [exact (proj1 parser_keeps_only_messages_with_body _ _ H0)|].
  split; [exact H1|]. split; [exact H2|]. split; [exact H3|]. split.
  - apply (proj2 parser_keeps_only_messages_with_body [] _ _ _ H1 H2).
    right. exists (u "Сообщение #2"), [u "Как начать?"]. split; [reflexivity|exact H3].
  - apply (proj2 parser_keeps_only_messages_with_body [] _ [] _ H1 H2).
    left. reflexivity.
Defined.

(** A preamble with text, an id line and a tag, before the first marker. *)
Lemma blocks_before_first_start_ignored_witness :
  Forall (fun p => starts_message p = false)
    [u "Экспорт чата"; u "ID: 5"; u "#тег"]
  /\ parse_word_document [u "Экспорт чата"; u "ID: 5"; u "#тег"] = []
  /\ forall rest : list str,
       parse_word_document ([u "Экспорт чата"; u "ID: 5"; u "#тег"] ++ rest)
       = parse_word_document rest.
Proof.
  assert (H : Forall (fun p => starts_message p = false)
                [u "Экспорт чата"; u "ID: 5"; u "#тег"])
    by (repeat constructor).
  split; [exact H|].
  exact (blocks_before_first_start_ignored _ H).
Defined.
(** * Further properties of the program *)

(** ** The matcher *)

Section MatcherFacts.
Context {R : Type}.

Lemma star_greedy_inv (cls : N -> bool) (s : str) (k : str -> option R) (x : R) :
  star_greedy cls s k = Some x ->
  exists pre rest, s = pre ++ rest
    /\ Forall (fun c => cls c = true) pre /\ k rest = Some x.
Proof.
  induction s as [|c s IH]; simpl; intros H.
  - exists [], []. auto.
  - destruct (cls c) eqn:Ec; [|exists [], (c :: s); auto].
    destruct (star_greedy cls s k) as [r|] eqn:E.
    + injection H as ->. destruct (IH eq_refl) as (pre & rest & -> & Hp & Hk).
      exists (c :: pre), rest. auto.
    + exists [], (c :: s). auto.
Qed.

Lemma plus_lazy_inv (cls : N -> bool) (s : str) (k : str -> option R) (x : R) :
  plus_lazy cls s k = Some x ->
  exists pre rest, s = pre ++ rest /\ pre <> []
    /\ Forall (fun c => cls c = true) pre /\ k rest = Some x.
Proof.
  induction s as [|c s IH]; simpl; intros H; [discriminate|].
  destruct (cls c) eqn:Ec; [|discriminate].
  destruct (k s) as [r|] eqn:E.
  - injection H as ->. exists [c], s. repeat split; auto; discriminate.
  - destruct (IH H) as (pre & rest & -> & _ & Hp & Hk).
    exists (c :: pre), rest. repeat split; auto; discriminate.
Qed.

Lemma strip_prefix_inv (p s rest : str) :
  strip_prefix p s = Some rest -> s = p ++ rest.
Proof.
  revert s. induction p as [|c p IH]; intros s; simpl.
  - intros [= ->]. reflexivity.
  - destruct s as [|d s]; [discriminate|].
    destruct (N.eqb_spec c d) as [->|]; [|discriminate].
    intros H. rewrite (IH _ H). reflexivity.
Qed.

(** A match consumes a prefix of the text and hands the rest over. *)
Lemma rmatch_inv (r : regex) :
  forall (s : str) (g : option str) (k : str -> option str -> option R) (x : R),
    rmatch r s g k = Some x ->
    exists pre rest g', s = pre ++ rest /\ k rest g' = Some x.
Proof.
  induction r as [l|cls|cls|cls|r IH|r1 IH1 r2 IH2]; intros s g k x; simpl.
  - destruct (strip_prefix l s) as [s'|] eqn:E; [|discriminate].
    intros H. exists l, s', g. split; [apply strip_prefix_inv, E|exact H].
  - intros H. apply star_greedy_inv in H as (pre & rest & -> & _ & H). eauto.
  - destruct s as [|c s]; [discriminate|].
    destruct (cls c); [|discriminate].
    intros H. apply star_greedy_inv in H as (pre & rest & -> & _ & H).
    exists (c :: pre), rest, g. auto.
  - intros H. apply plus_lazy_inv in H as (pre & rest & -> & _ & _ & H). eauto.
  - intros H. apply IH in H as (pre & rest & g' & -> & H). eauto.
  - intros H. apply IH1 in H as (pre1 & rest1 & g1 & -> & H).
    apply IH2 in H as (pre2 & rest2 & g2 & -> & H).
    exists (pre1 ++ pre2), rest2, g2. rewrite <- app_assoc. auto.
Qed.

(** A pattern without group leaves the capture as it is. *)
Lemma rmatch_group_free (r : regex) :
  group_free r = true ->
  forall (s : str) (g : option str) (k : str -> option str -> option R) (x : R),
    rmatch r s g k = Some x ->
    exists pre rest, s = pre ++ rest /\ k rest g = Some x.
Proof.
  induction r as [l|cls|cls|cls|r IH|r1 IH1 r2 IH2]; simpl; intros Hf s g k x.
  - destruct (strip_prefix l s) as [s'|] eqn:E; [|discriminate].
    intros H. exists l, s'. split; [apply strip_prefix_inv, E|exact H].
  - intros H. apply star_greedy_inv in H as (pre & rest & -> & _ & H). eauto.
  - destruct s as [|c s]; [discriminate|].
    destruct (cls c); [|discriminate].
    intros H. apply star_greedy_inv in H as (pre & rest & -> & _ & H).
    exists (c :: pre), rest. auto.
  - intros H. apply plus_lazy_inv in H as (pre & rest & -> & _ & _ & H). eauto.
  - discriminate.
  - apply andb_true_iff in Hf as [Hf1 Hf2].
    intros H. apply (IH1 Hf1) in H as (pre1 & rest1 & -> & H).
    apply (IH2 Hf2) in H as (pre2 & rest2 & -> & H).
    exists (pre1 ++ pre2), rest2. rewrite <- app_assoc. auto.
Qed.

Lemma taken_prefix (pre rest : str) :
  take (length (pre ++ rest) - length rest) (pre ++ rest) = pre.
Proof. apply take_app_length'. rewrite length_app. lia. Qed.

(** The group [(c+)] captures a text of the class that is not empty. *)
Lemma rmatch_group_plus (cls : N -> bool) (s : str) (g : option str)
    (k : str -> option str -> option R) (x : R) :
  rmatch (Group (Plus cls)) s g k = Some x ->
  exists pre rest, s = pre ++ rest /\ pre <> []
    /\ Forall (fun c => cls c = true) pre /\ k rest (Some pre) = Some x.
Proof.
  simpl. destruct s as [|c s]; [discriminate|].
  destruct (cls c) eqn:Ec; [|discriminate].
  intros H. apply star_greedy_inv in H as (pre & rest & -> & Hp & H).
  exists (c :: pre), rest. split; [reflexivity|]. split; [discriminate|].
  split; [constructor; assumption|].
  rewrite <- H. do 2 f_equal. symmetry. apply (taken_prefix (c :: pre) rest).
Qed.

(** The group [(c+?)] as well. *)
Lemma rmatch_group_plus_lazy (cls : N -> bool) (s : str) (g : option str)
    (k : str -> option str -> option R) (x : R) :
  rmatch (Group (PlusLazy cls)) s g k = Some x ->
  exists pre rest, s = pre ++ rest /\ pre <> []
    /\ Forall (fun c => cls c = true) pre /\ k rest (Some pre) = Some x.
Proof.
  simpl. intros H. apply plus_lazy_inv in H as (pre & rest & -> & Hn & Hp & H).
  exists pre, rest. repeat split; auto.
  rewrite <- H. do 2 f_equal. symmetry. apply taken_prefix.
Qed.
End MatcherFacts.

(** A successful search is a match at some position of the text. *)
Lemma re_search_inv (r : regex) (s : str) (x : str) :
  re_search r s = Some x ->
  exists front s', s = front ++ s'
    /\ rmatch r s' None (fun _ g => Some (default [] g)) = Some x.
Proof.
  induction s as [|c s IH]; simpl.
  - destruct (rmatch r [] None _) as [g|] eqn:E; [|discriminate].
    intros [= ->]. exists [], []. auto.
  - destruct (rmatch r (c :: s) None _) as [g|] eqn:E.
    + intros [= ->]. exists [], (c :: s). auto.
    + intros H. destruct (IH H) as (front & s' & -> & Hm).
      exists (c :: front), s'. auto.
Qed.

(** ** What the patterns capture *)

Section CaptureFacts.
Context {rt : PyRuntime}.

Lemma rmatch_cat_inv {R : Type} (r1 r2 : regex) (s : str) (g : option str)
    (k : str -> option str -> option R) (x : R) :
  rmatch (Cat r1 r2) s g k = Some x ->
  exists s' g', rmatch r2 s' g' k = Some x.
Proof.
  simpl. intros H. apply rmatch_inv in H as (pre & rest & g' & _ & H). eauto.
Qed.

Lemma capture_found (r : regex) (P : str -> Prop) :
  (forall s g, rmatch r s None (fun _ g => Some (default [] g)) = Some g -> P g) ->
  forall txt g, re_search r txt = Some g -> P g.
Proof.
  intros Hr txt g H. apply re_search_inv in H as (front & s' & _ & H).
  exact (Hr _ _ H).
Qed.

Lemma search_message_start_capture (txt g : str) :
  re_search pat_message_start txt = Some g -> g <> [] /\ decimal_string g.
Proof.
  revert txt g. apply (capture_found _ (fun g => g <> [] /\ decimal_string g)).
  intros s g H. unfold pat_message_start in H.
  do 3 apply rmatch_cat_inv in H as (? & ? & H).
  apply rmatch_group_plus in H as (pre & rest & _ & Hn & Hp & [= <-]).
  auto.
Qed.

Lemma search_message_id_capture (txt g : str) :
  re_search pat_message_id txt = Some g -> g <> [] /\ decimal_string g.
Proof.
  revert txt g. apply (capture_found _ (fun g => g <> [] /\ decimal_string g)).
  intros s g H. unfold pat_message_id in H.
  do 2 apply rmatch_cat_inv in H as (? & ? & H).
  apply rmatch_group_plus in H as (pre & rest & _ & Hn & Hp & [= <-]).
  auto.
Qed.

Lemma search_reply_to_capture (txt g : str) :
  re_search pat_reply_to txt = Some g -> g <> [] /\ decimal_string g.
Proof.
  revert txt g. apply (capture_found _ (fun g => g <> [] /\ decimal_string g)).
  intros s g H. unfold pat_reply_to in H.
  do 2 apply rmatch_cat_inv in H as (? & ? & H).
  apply rmatch_group_plus in H as (pre & rest & _ & Hn & Hp & [= <-]).
  auto.
Qed.

Lemma not_bullet_true (c : N) : not_bullet c = true <-> c <> bullet.
Proof.
  unfold not_bullet. rewrite negb_true_iff. destruct (N.eqb_spec c bullet);
    split; congruence.
Qed.

(** The tail of the sender and date patterns: [\s*] and the bullet. *)
Lemma bullet_capture (s : str) (g : option str) (x : str) :
  rmatch (Cat (Group (PlusLazy not_bullet)) (Cat (Star isspace) (Lit [bullet])))
    s g (fun _ g => Some (default [] g)) = Some x ->
  x <> [] /\ Forall (fun c => c <> bullet) x.
Proof.
  intros H. change (rmatch (Cat ?a ?b) s g ?k)
    with (rmatch a s g (fun s' g' => rmatch b s' g' k)) in H.
  apply rmatch_group_plus_lazy in H as (pre & rest & _ & Hn & Hp & H).
  apply rmatch_group_free in H as (? & ? & _ & [= <-]); [|reflexivity].
  split; [exact Hn|]. eapply Forall_impl; [exact Hp|].
  intros c. apply not_bullet_true.
Qed.

Lemma search_sender_capture (txt g : str) :
  re_search pat_sender txt = Some g -> g <> [] /\ Forall (fun c => c <> bullet) g.
Proof.
  revert txt g.
  apply (capture_found _ (fun g => g <> [] /\ Forall (fun c => c <> bullet) g)).
  intros s g H. unfold pat_sender in H.
  do 2 apply rmatch_cat_inv in H as (? & ? & H).
  apply bullet_capture in H. exact H.
Qed.

Lemma search_date_capture (txt g : str) :
  re_search pat_date txt = Some g -> g <> [] /\ Forall (fun c => c <> bullet) g.
Proof.
  revert txt g.
  apply (capture_found _ (fun g => g <> [] /\ Forall (fun c => c <> bullet) g)).
  intros s g H. unfold pat_date in H.
  do 2 apply rmatch_cat_inv in H as (? & ? & H).
  apply bullet_capture in H. exact H.
Qed.

(** The texts that [findall] returns for the tag pattern. *)
Lemma findall_tags_shaped (fuel : nat) :
  forall s t, t ∈ re_findall_fuel fuel pat_tags s -> tag_shaped t.
Proof.
  induction fuel as [|fuel IH]; intros s t; cbn [re_findall_fuel].
  - intros H. exfalso. eapply elem_of_nil, H.
  - destruct s as [|c s]; [intros H; exfalso; eapply elem_of_nil, H|].
    destruct (rmatch pat_tags (c :: s) None (fun rest _ => Some rest))
      as [rest|] eqn:E; [|apply IH].
    destruct (length rest <? length (c :: s))%nat; [|apply IH].
    intros [->|H]%elem_of_cons; [|exact (IH _ _ H)].
    unfold pat_tags in E.
    change (rmatch (Cat ?a ?b) ?s0 ?g ?k)
      with (rmatch a s0 g (fun s' g' => rmatch b s' g' k)) in E.
    cbn [rmatch] in E.
    destruct (strip_prefix [hash_sign] (c :: s)) as [s1|] eqn:E1;
      [|discriminate].
    apply strip_prefix_inv in E1. rewrite E1. clear E1.
    destruct s1 as [|d s1]; [discriminate|].
    destruct (tag_class d) eqn:Ed; [|discriminate].
    apply star_greedy_inv in E as (pre & rest' & -> & Hp & [= ->]).
    exists (d :: pre). split.
    + apply (taken_prefix (hash_sign :: d :: pre) rest).
    + split; [discriminate|]. constructor; assumption.
Qed.
End CaptureFacts.

(** ** [strip] *)

Section StripFacts.
Context {rt : PyRuntime}.

Lemma drop_while_suffix (p : N -> bool) (s : str) :
  exists front, s = front ++ drop_while p s.
Proof.
  induction s as [|c s [front IH]]; simpl; [exists []; reflexivity|].
  destruct (p c); [|exists []; reflexivity].
  exists (c :: front). simpl. rewrite <- IH. reflexivity.
Qed.

Lemma drop_while_head (p : N -> bool) (s : str) (c : N) (rest : str) :
  drop_while p s = c :: rest -> p c = false.
Proof.
  induction s as [|d s IH]; simpl; [discriminate|].
  destruct (p d) eqn:E; [exact IH|]. intros [= <- _]. exact E.
Qed.

Lemma drop_while_Forall (P : N -> Prop) (p : N -> bool) (s : str) :
  Forall P s -> Forall P (drop_while p s).
Proof.
  induction 1 as [|c s Hc Hs IH]; simpl; [constructor|].
  destruct (p c); [exact IH|constructor; assumption].
Qed.

Lemma strip_Forall (P : N -> Prop) (s : str) : Forall P s -> Forall P (strip s).
Proof.
  intros H. unfold strip.
  rewrite Forall_forall in *. intros c Hc. apply H.
  apply list_elem_of_In, in_rev, list_elem_of_In in Hc.
  assert (Hsub : forall p (l : str) x, x ∈ drop_while p l -> x ∈ l).
  { intros p l x Hx. destruct (drop_while_suffix p l) as [front E].
    rewrite E. apply elem_of_app. right. exact Hx. }
  apply Hsub in Hc. apply list_elem_of_In, in_rev, list_elem_of_In in Hc.
  apply Hsub in Hc. exact Hc.
Qed.

Lemma strip_stripped (s : str) : stripped (strip s).
Proof.
  unfold stripped, strip. split.
  - intros c rest E.
    destruct (drop_while_suffix isspace (rev (drop_while isspace s)))
      as [front Ef].
    apply (f_equal (@rev N)) in E. rewrite rev_involutive in E. simpl in E.
    rewrite E in Ef. apply (f_equal (@rev N)) in Ef.
    rewrite rev_involutive, !rev_app_distr, rev_involutive in Ef.
    simpl in Ef. eapply drop_while_head. exact Ef.
  - intros c front E.
    apply (f_equal (@rev N)) in E.
    rewrite rev_involutive, rev_app_distr in E. simpl in E.
    eapply drop_while_head. exact E.
Qed.

Lemma stripped_nil : stripped [].
Proof.
  split; [discriminate|]. intros c front E. destruct front; discriminate.
Qed.
End StripFacts.

(** ** The shape of the parsed messages *)

Section ShapeFacts.
Context {rt : PyRuntime}.

Lemma new_message_shape (txt : str) : parsed_shape (_create_new_message txt).
Proof.
  unfold parsed_shape, _create_new_message. simpl.
  split; [|repeat match goal with |- _ /\ _ => split end;
           first [apply stripped_nil | constructor]].
  destruct (re_search pat_message_start txt) as [g|] eqn:E; simpl;
    [|constructor].
  apply (search_message_start_capture _ _ E).
Qed.

Lemma is_some_group1 {P : str -> Prop} (o : option str) :
  (forall g, o = Some g -> P g) -> is_some o = true -> P (group1 o).
Proof. destruct o as [g|]; simpl; [auto|discriminate]. Qed.

Lemma add_body_shape (m : ChatMessage) (txt : str) :
  parsed_shape m -> parsed_shape (add_body m txt).
Proof.
  unfold parsed_shape.
  destruct (add_body_fields m txt) as (-> & -> & -> & -> & ->).
  rewrite add_body_tags.
  intros (H1 & H2 & H3 & H4 & H5 & H6 & H7 & H8).
  repeat (split; [assumption|]).
  apply Forall_app. split; [exact H8|].
  rewrite Forall_forall. intros t Ht.
  destruct (set_iter_elem_of (re_findall pat_tags txt) t) as [Hin _].
  exact (findall_tags_shaped _ _ _ (Hin Ht)).
Qed.

Ltac split_shape :=
  repeat match goal with |- _ /\ _ => split end;
  try first [assumption | apply strip_stripped].

Lemma process_shape (m : ChatMessage) (txt : str) :
  parsed_shape m -> parsed_shape (_process_message_content m txt).
Proof.
  intros Hm. unfold _process_message_content.
  destruct (has_separator txt); [exact Hm|].
  cbv zeta.
  set (m1 := if negb (truthy (sender m)) && is_some (re_search pat_sender txt)
             then set_sender m (strip (group1 (re_search pat_sender txt)))
             else m).
  assert (H1 : parsed_shape m1).
  { subst m1. destruct (negb (truthy (sender m))); simpl; [|exact Hm].
    destruct (re_search pat_sender txt) as [g|] eqn:E; simpl; [|exact Hm].
    destruct (search_sender_capture _ _ E) as [_ Hg].
    destruct Hm as (? & ? & ? & ? & ? & ? & ? & ?).
    unfold parsed_shape. simpl. split_shape.
    apply strip_Forall, Hg. }
  clearbody m1. clear Hm.
  set (m2 := if negb (truthy (date m1)) && is_some (re_search pat_date txt)
             then set_date m1 (strip (group1 (re_search pat_date txt)))
             else m1).
  assert (H2 : parsed_shape m2).
  { subst m2. destruct (negb (truthy (date m1))); simpl; [|exact H1].
    destruct (re_search pat_date txt) as [g|] eqn:E; simpl; [|exact H1].
    destruct (search_date_capture _ _ E) as [_ Hg].
    destruct H1 as (? & ? & ? & ? & ? & ? & ? & ?).
    unfold parsed_shape. simpl. split_shape.
    apply strip_Forall, Hg. }
  clearbody m2. clear H1.
  set (m3 := if negb (truthy (message_id m2))
                && is_some (re_search pat_message_id txt)
             then set_message_id m2 (group1 (re_search pat_message_id txt))
             else m2).
  assert (H3 : parsed_shape m3).
  { subst m3. destruct (negb (truthy (message_id m2))); simpl; [|exact H2].
    destruct (re_search pat_message_id txt) as [g|] eqn:E; simpl; [|exact H2].
    destruct (search_message_id_capture _ _ E) as [_ Hg].
    destruct H2 as (? & ? & ? & ? & ? & ? & ? & ?).
    unfold parsed_shape. simpl. split_shape. }
  clearbody m3. clear H2.
  set (m4 := if negb (truthy (reply_to m3))
                && is_some (re_search pat_reply_to txt)
             then set_reply_to m3 (group1 (re_search pat_reply_to txt))
             else m3).
  assert (H4 : parsed_shape m4).
  { subst m4. destruct (negb (truthy (reply_to m3))); simpl; [|exact H3].
    destruct (re_search pat_reply_to txt) as [g|] eqn:E; simpl; [|exact H3].
    destruct (search_reply_to_capture _ _ E) as [_ Hg].
    destruct H3 as (? & ? & ? & ? & ? & ? & ? & ?).
    unfold parsed_shape. simpl. split_shape. }
  clearbody m4. clear H3.
  destruct (negb (matches_metadata txt)); [apply add_body_shape, H4|exact H4].
Qed.

Lemma parse_step_shape (st : parser_state) (paragraph : str) :
  shape_invariant st -> shape_invariant (parse_step st paragraph).
Proof.
  intros [Hm Hc]. unfold parse_step.
  destruct (negb (truthy (strip paragraph))); [split; assumption|].
  destruct (_is_message_start (strip paragraph)).
  - split; simpl.
    + unfold flush. destruct (snd st) as [m|]; [|exact Hm].
      destruct (truthy (text m)); [|exact Hm].
      apply Forall_app. split; [exact Hm|]. constructor; [|constructor].
      apply Hc. reflexivity.
    + intros m [= <-]. apply new_message_shape.
  - destruct (snd st) as [m|] eqn:E; [|split; [exact Hm|]; rewrite E; exact Hc].
    split; [exact Hm|]. simpl. intros m' [= <-].
    apply process_shape, Hc. reflexivity.
Qed.

Lemma parsed_messages_shape (paragraphs : list str) (m : ChatMessage) :
  m ∈ parse_word_document paragraphs -> parsed_shape m.
Proof.
  unfold parse_word_document, _identify_violetta_answers.
  intros Hm. apply list_elem_of_fmap in Hm as (m0 & -> & Hm0).
  assert (H : shape_invariant (parse_loop paragraphs ([], None))).
  { apply (fold_left_invariant shape_invariant).
    - split; [constructor|discriminate].
    - intros st p _. apply parse_step_shape. }
  destruct H as [H1 H2].
  assert (H0 : parsed_shape m0).
  { unfold flush in Hm0.
    destruct (snd (parse_loop paragraphs ([], None))) as [c|] eqn:E.
    - destruct (truthy (text c)).
      + apply elem_of_app in Hm0 as [Hm0|Hm0].
        * rewrite Forall_forall in H1. apply H1, Hm0.
        * apply list_elem_of_singleton in Hm0 as ->. apply H2. reflexivity.
      + rewrite Forall_forall in H1. apply H1, Hm0.
    - rewrite Forall_forall in H1. apply H1, Hm0. }
  exact H0.
Qed.
End ShapeFacts.

(** ** ChatParser, further *)

Section ParserExtras.
Context {rt : PyRuntime}.

(** X1: the message number, the id and the reply target of every parsed
    message are strings of decimal digits (possibly empty): they are
    captures of [(\d+)] or were never filled.  So the sort key of a parsed
    message is its numeric sequence number, 0 when it has no number,
    unless the number has more digits than [int] converts, in which case
    the key raises. *)
Theorem parsed_numbers_are_decimal (paragraphs : list str) (m : ChatMessage) :
  m ∈ parse_word_document paragraphs ->
  decimal_string (message_number m)
  /\ decimal_string (message_id m)
  /\ decimal_string (reply_to m)
  /\ (within_int_limit (length (message_number m)) = true ->
      sequence_key m = Some (sequence_number m))
  /\ (within_int_limit (length (message_number m)) = false ->
      sequence_key m = None)
  /\ (message_number m = [] -> sequence_number m = 0%Z).
Proof.
  intros Hm. destruct (parsed_messages_shape _ _ Hm) as (H1 & H2 & H3 & _).
  split; [exact H1|]. split; [exact H2|]. split; [exact H3|].
  assert (Hd : forallb isdecimal (message_number m) = true).
  { apply forallb_forall. intros c Hc. unfold decimal_string in H1.
    rewrite Forall_forall in H1. apply H1, list_elem_of_In, Hc. }
  split; [|split].
  - intros Hl. destruct (message_number m) as [|c s] eqn:E.
    + unfold sequence_key, sequence_number. rewrite E. reflexivity.
    + unfold sequence_number. rewrite <- E in *.
      assert (Hn : message_number m <> []) by (rewrite E; discriminate).
      rewrite (sequence_key_decimal _ Hn Hd Hl).
      apply truthy_true in Hn. rewrite Hn, Hd. reflexivity.
  - intros Hl. apply sequence_key_None. split; [|right; exact Hl].
    unfold str_isdigit. rewrite (decimal_isdigit _ Hd).
    destruct (message_number m); [|reflexivity].
    unfold within_int_limit in Hl. simpl in Hl.
    rewrite orb_true_r in Hl. discriminate.
  - intros E. unfold sequence_number. rewrite E. reflexivity.
Qed.

(** X2: every tag of a parsed message is a hash sign followed by at least
    one character of the tag class; no tag is empty or a lone hash sign. *)
Theorem parsed_tags_are_hashtags (paragraphs : list str) (m : ChatMessage)
    (t : str) :
  m ∈ parse_word_document paragraphs -> t ∈ tags m ->
  tag_shaped t /\ (2 <= length t)%nat.
Proof.
  intros Hm Ht.
  destruct (parsed_messages_shape _ _ Hm) as (_ & _ & _ & _ & _ & _ & _ & H).
  rewrite Forall_forall in H. specialize (H t Ht). split; [exact H|].
  destruct H as (body & -> & Hb & _). destruct body; [congruence|simpl; lia].
Qed.

(** X3: the sender and the date of every parsed message hold no bullet and
    have no white space at either end. *)
Theorem parsed_sender_and_date_are_trimmed (paragraphs : list str)
    (m : ChatMessage) :
  m ∈ parse_word_document paragraphs ->
  Forall (fun c => c <> bullet) (sender m) /\ stripped (sender m)
  /\ Forall (fun c => c <> bullet) (date m) /\ stripped (date m).
Proof.
  intros Hm.
  destruct (parsed_messages_shape _ _ Hm) as (_ & _ & _ & H1 & H2 & H3 & H4 & _).
  auto.
Qed.

Lemma extends_refl (m : ChatMessage) : extends m m.
Proof.
  unfold extends. repeat split; auto; exists []; rewrite app_nil_r; reflexivity.
Qed.

Lemma extends_trans (m1 m2 m3 : ChatMessage) :
  extends m1 m2 -> extends m2 m3 -> extends m1 m3.
Proof.
  intros (A1 & A2 & A3 & A4 & A5 & [t1 A6] & [g1 A7])
         (B1 & B2 & B3 & B4 & B5 & [t2 B6] & [g2 B7]).
  unfold extends. split; [congruence|].
  split; [intros H; rewrite B2, A2; [reflexivity|exact H|rewrite A2; exact H]|].
  split; [intros H; rewrite B3, A3; [reflexivity|exact H|rewrite A3; exact H]|].
  split; [intros H; rewrite B4, A4; [reflexivity|exact H|rewrite A4; exact H]|].
  split; [intros H; rewrite B5, A5; [reflexivity|exact H|rewrite A5; exact H]|].
  split.
  - exists (t1 ++ t2). rewrite B6, A6, app_assoc. reflexivity.
  - exists (g1 ++ g2). rewrite B7, A7, app_assoc. reflexivity.
Qed.

Lemma guarded_set_extends (m : ChatMessage) (field : ChatMessage -> str)
    (set : ChatMessage -> str -> ChatMessage) (b : bool) (v : str) :
  (forall v', extends m (set m v') \/ field m <> []) ->
  extends m (if negb (truthy (field m)) && b then set m v else m).
Proof.
  intros H. destruct (truthy (field m)) eqn:E; simpl; [apply extends_refl|].
  destruct b; [|apply extends_refl].
  destruct (H v) as [Hx|Hx]; [exact Hx|].
  apply truthy_false in E. contradiction.
Qed.

Lemma set_sender_extends (m : ChatMessage) (v : str) :
  extends m (set_sender m v) \/ sender m <> [].
Proof.
  destruct (sender m) eqn:E; [left|right; discriminate].
  unfold extends. simpl. rewrite E.
  repeat split; auto; try congruence; exists []; rewrite app_nil_r; reflexivity.
Qed.

Lemma set_date_extends (m : ChatMessage) (v : str) :
  extends m (set_date m v) \/ date m <> [].
Proof.
  destruct (date m) eqn:E; [left|right; discriminate].
  unfold extends. simpl. rewrite E.
  repeat split; auto; try congruence; exists []; rewrite app_nil_r; reflexivity.
Qed.

Lemma set_message_id_extends (m : ChatMessage) (v : str) :
  extends m (set_message_id m v) \/ message_id m <> [].
Proof.
  destruct (message_id m) eqn:E; [left|right; discriminate].
  unfold extends. simpl. rewrite E.
  repeat split; auto; try congruence; exists []; rewrite app_nil_r; reflexivity.
Qed.

Lemma set_reply_to_extends (m : ChatMessage) (v : str) :
  extends m (set_reply_to m v) \/ reply_to m <> [].
Proof.
  destruct (reply_to m) eqn:E; [left|right; discriminate].
  unfold extends. simpl. rewrite E.
  repeat split; auto; try congruence; exists []; rewrite app_nil_r; reflexivity.
Qed.

Lemma add_body_extends (m : ChatMessage) (txt : str) : extends m (add_body m txt).
Proof.
  unfold extends.
  destruct (add_body_fields m txt) as (-> & -> & -> & -> & ->).
  rewrite add_body_text, add_body_tags.
  repeat split; auto; [|eauto].
  destruct (truthy (text m)) eqn:E; [eauto|].
  apply truthy_false in E. rewrite E. exists txt. reflexivity.
Qed.

Lemma process_extends (m : ChatMessage) (txt : str) :
  extends m (_process_message_content m txt).
Proof.
  unfold _process_message_content.
  destruct (has_separator txt); [apply extends_refl|]. cbv zeta.
  eapply extends_trans;
    [apply (guarded_set_extends m sender set_sender), set_sender_extends|].
  eapply extends_trans;
    [apply (guarded_set_extends _ date set_date), set_date_extends|].
  eapply extends_trans;
    [apply (guarded_set_extends _ message_id set_message_id),
       set_message_id_extends|].
  eapply extends_trans;
    [apply (guarded_set_extends _ reply_to set_reply_to),
       set_reply_to_extends|].
  destruct (negb (matches_metadata txt));
    [apply add_body_extends|apply extends_refl].
Qed.

(** X4: over the content blocks of one message (no start marker among
    them) the accumulator only grows: its number stays, a metadata field
    that is filled is never overwritten (the first match wins), and body
    text and tags are only extended at their end. *)
Theorem accumulator_only_grows (blocks : list str)
    (messages : list ChatMessage) (m : ChatMessage) :
  Forall (fun p => starts_message p = false) blocks ->
  exists m', parse_loop blocks (messages, Some m) = (messages, Some m')
             /\ extends m m'.
Proof.
  intros H. revert m. induction H as [|p blocks Hp _ IH]; intros m.
  - exists m. split; [reflexivity|apply extends_refl].
  - rewrite parse_loop_cons. unfold parse_step. unfold starts_message in Hp.
    cbn [fst snd].
    destruct (truthy (strip p)); simpl in *.
    + rewrite Hp. destruct (IH (_process_message_content m (strip p)))
        as (m' & E & Hx).
      exists m'. split; [exact E|].
      eapply extends_trans; [apply process_extends|exact Hx].
    + apply IH.
Qed.

(** X5: a block that matches one of the four metadata patterns never
    reaches the body or the tags; when the four fields are filled already,
    the block changes nothing at all and its text is lost. *)
Theorem metadata_block_adds_no_body (m : ChatMessage) (txt : str) :
  matches_metadata txt = true ->
  text (_process_message_content m txt) = text m
  /\ tags (_process_message_content m txt) = tags m
  /\ (sender m <> [] -> date m <> [] -> message_id m <> [] ->
      reply_to m <> [] -> _process_message_content m txt = m).
Proof.
  intros H.
  destruct (process_keeps_text m txt) as [Ht Hg];
    [rewrite H; apply orb_true_r|].
  split; [exact Ht|]. split; [exact Hg|].
  intros H1 H2 H3 H4. unfold _process_message_content.
  apply truthy_true in H1, H2, H3, H4.
  destruct (has_separator txt); [reflexivity|]. cbv zeta.
  rewrite H1. cbn [negb andb]. rewrite H2. cbn [negb andb].
  rewrite H3. cbn [negb andb]. rewrite H4. cbn [negb andb].
  rewrite H. reflexivity.
Qed.

Lemma flush_length (messages : list ChatMessage) (cur : option ChatMessage) :
  (length (flush messages cur) <= length messages + pending cur)%nat.
Proof.
  unfold flush, pending. destruct cur as [m|]; simpl; [|lia].
  destruct (truthy (text m)); [rewrite length_app; simpl; lia|lia].
Qed.

Lemma parse_step_length (st : parser_state) (p : str) :
  (length (fst (parse_step st p)) + pending (snd (parse_step st p))
   <= length (fst st) + pending (snd st)
      + (if starts_message p then 1 else 0))%nat.
Proof.
  destruct st as [messages cur]. unfold parse_step, starts_message.
  destruct (truthy (strip p)); cbn [negb andb fst snd]; [|lia].
  destruct (_is_message_start (strip p)); cbn [fst snd].
  - pose proof (flush_length messages cur).
    cbn [pending is_some]. lia.
  - destruct cur; cbn [fst snd pending is_some]; lia.
Qed.

Lemma count_starts_cons (p : str) (l : list str) :
  count_starts (p :: l)
  = ((if starts_message p then 1 else 0) + count_starts l)%nat.
Proof. unfold count_starts. simpl. destruct (starts_message p); reflexivity. Qed.

Lemma parse_loop_length (paragraphs : list str) :
  forall st : parser_state,
    (length (fst (parse_loop paragraphs st))
     + pending (snd (parse_loop paragraphs st))
     <= length (fst st) + pending (snd st) + count_starts paragraphs)%nat.
Proof.
  induction paragraphs as [|p l IH]; intros st; [simpl; lia|].
  rewrite parse_loop_cons, count_starts_cons.
  pose proof (IH (parse_step st p)). pose proof (parse_step_length st p). lia.
Qed.

(** X6: the parser never gives more messages than the transcript has start
    markers; a transcript without start marker gives none. *)
Theorem parsed_count_bounded_by_starts (paragraphs : list str) :
  (length (parse_word_document paragraphs) <= count_starts paragraphs)%nat.
Proof.
  unfold parse_word_document, _identify_violetta_answers.
  rewrite length_map.
  pose proof (parse_loop_length paragraphs ([], None)) as H.
  pose proof (flush_length (fst (parse_loop paragraphs ([], None)))
                (snd (parse_loop paragraphs ([], None)))) as H'.
  cbn [fst snd length pending is_some] in H. lia.
Qed.

Lemma flush_app (front messages : list ChatMessage)
    (cur : option ChatMessage) :
  flush (front ++ messages) cur = front ++ flush messages cur.
Proof.
  unfold flush. destruct cur as [m|]; [|reflexivity].
  destruct (truthy (text m)); [rewrite app_assoc|]; reflexivity.
Qed.

(** The messages that are already in the list play no part in the loop. *)
Lemma parse_loop_frame (paragraphs : list str) (front : list ChatMessage) :
  forall (messages : list ChatMessage) (cur : option ChatMessage),
    parse_loop paragraphs (front ++ messages, cur)
    = (front ++ fst (parse_loop paragraphs (messages, cur)),
       snd (parse_loop paragraphs (messages, cur))).
Proof.
  induction paragraphs as [|p l IH]; intros messages cur; [reflexivity|].
  rewrite !parse_loop_cons. unfold parse_step. cbn [fst snd].
  destruct (negb (truthy (strip p))); [apply IH|].
  destruct (_is_message_start (strip p)).
  - rewrite flush_app. apply IH.
  - destruct cur; apply IH.
Qed.

(** X7: a transcript can be cut before any start marker: the messages of
    the whole are the messages of the first part followed by those of the
    second part. *)
Theorem parse_splits_at_start (before : list str) (s : str) (after : list str) :
  starts_message s = true ->
  parse_word_document (before ++ s :: after)
  = parse_word_document before ++ parse_word_document (s :: after).
Proof.
  intros Hs. unfold parse_word_document, _identify_violetta_answers.
  rewrite <- map_app. f_equal.
  rewrite parse_loop_app, !parse_loop_cons, !(parse_step_start _ _ Hs).
  cbn [fst snd flush].
  set (st := parse_loop before ([], None)).
  rewrite <- (app_nil_r (flush (fst st) (snd st))) at 1 2.
  rewrite parse_loop_frame. cbn [fst snd]. apply flush_app.
Qed.
End ParserExtras.

(** ** QAGrouper, further *)

Section GrouperExtras.
Context {rt : PyRuntime}.
Variable messages : list ChatMessage.

Lemma index_step_other (l : list ChatMessage) :
  forall (d : gmap str ChatMessage) (k : str) (v : ChatMessage),
    d !! k = Some v ->
    (forall m', m' ∈ l -> message_id m' <> k) ->
    fold_left
      (fun d msg =>
         if truthy (message_id msg) then <[message_id msg := msg]> d else d)
      l d !! k = Some v.
Proof.
  induction l as [|x l IH]; intros d k v Hd Hl; [exact Hd|].
  simpl. apply IH.
  - destruct (truthy (message_id x)); [|exact Hd].
    rewrite lookup_insert_ne; [exact Hd|]. apply Hl. left.
  - intros m' Hm'. apply Hl. right. exact Hm'.
Qed.

(** X8: the id index never has the empty id as a key; of several messages
    with the same id it keeps the last one of the list; and a message
    whose id is not empty and is the id of no other message is found under
    its id. *)
Theorem index_keeps_last_message :
  messages_by_id messages !! [] = None
  /\ (forall (before after : list ChatMessage) (m : ChatMessage),
        messages = before ++ m :: after ->
        message_id m <> [] ->
        (forall m', m' ∈ after -> message_id m' <> message_id m) ->
        messages_by_id messages !! message_id m = Some m)
  /\ (forall m : ChatMessage,
        m ∈ messages -> message_id m <> [] ->
        (forall m', m' ∈ messages -> message_id m' = message_id m -> m' = m) ->
        messages_by_id messages !! message_id m = Some m).
Proof.
  assert (Hlast : forall (before after : list ChatMessage) (m : ChatMessage),
             messages = before ++ m :: after ->
             message_id m <> [] ->
             (forall m', m' ∈ after -> message_id m' <> message_id m) ->
             messages_by_id messages !! message_id m = Some m).
  { intros before after m -> Hid Hafter. unfold messages_by_id.
    rewrite fold_left_app. simpl.
    apply index_step_other; [|exact Hafter].
    apply truthy_true in Hid. rewrite Hid. apply lookup_insert_eq. }
  split; [|split; [exact Hlast|]].
  - destruct (messages_by_id messages !! []) as [m|] eqn:E;
      [|first [reflexivity|exact E]].
    destruct (messages_by_id_Some _ _ _ E) as (_ & _ & H). congruence.
  - intros m Hm Hid Huniq.
    destruct (list_elem_of_split_r _ _ Hm) as (before & after & E & Hnot).
    apply (Hlast before after m E Hid).
    intros m' Hm' Heq. apply Hnot.
    rewrite <- (Huniq m'); [exact Hm'| |exact Heq].
    rewrite E. apply elem_of_app. right. right. exact Hm'.
Qed.

Lemma group_step_length (st st' : grouper_state) (answer : ChatMessage) :
  group_step messages st answer = Some st' ->
  (length (fst st')
   <= length (fst st) + (if resolves messages answer then 1 else 0))%nat.
Proof.
  unfold resolves. intros Hstep.
  destruct (messages_by_id messages !! reply_to answer) as [start|] eqn:E.
  - destruct (group_step_cases messages _ _ _ Hstep)
      as [->|(_ & q & a & _ & _ & _ & _ & ->)]; simpl; [lia|].
    rewrite length_app. simpl. lia.
  - rewrite (group_step_unresolved _ _ _ E) in Hstep.
    injection Hstep as <-. simpl. lia.
Qed.

Lemma group_loop_length (answers : list ChatMessage) :
  forall st st' : grouper_state,
    group_loop messages answers st = Some st' ->
    (length (fst st')
     <= length (fst st) + length (List.filter (resolves messages) answers))%nat.
Proof.
  induction answers as [|a l IH]; intros st st'.
  - intros [= <-]. simpl. lia.
  - rewrite group_loop_cons.
    destruct (group_step messages st a) as [s1|] eqn:E; [|discriminate].
    intros Hl. pose proof (IH _ _ Hl). pose proof (group_step_length _ _ _ E).
    simpl. destruct (resolves messages a); simpl; lia.
Qed.

Lemma group_loop_unresolved (answers : list ChatMessage)
    (st : grouper_state) :
  (forall a, a ∈ answers -> resolves messages a = false) ->
  group_loop messages answers st = Some st.
Proof.
  induction answers as [|a l IH]; intros H; [reflexivity|].
  rewrite group_loop_cons, group_step_unresolved.
  - apply IH. intros b Hb. apply H. right. exact Hb.
  - specialize (H a ltac:(left)). unfold resolves in H.
    destruct (messages_by_id messages !! reply_to a); [discriminate|].
    reflexivity.
Qed.

(** X9: the grouper never emits more pairs than there are official answers
    whose reply target is in the id index; without such an answer the
    grouper returns, and the output is empty. *)
Theorem pairs_bounded_by_resolved_answers :
  (forall qa_pairs : list QAPair,
     group_questions_answers messages = Some qa_pairs ->
     (length qa_pairs
      <= length (List.filter (resolves messages) (violetta_answers messages)))%nat)
  /\ ((forall m, m ∈ messages -> is_violetta_answer m = true ->
         resolves messages m = false) ->
      group_questions_answers messages = Some []).
Proof.
  split.
  - intros qa_pairs (st & Hst & ->)%group_questions_answers_Some.
    pose proof (group_loop_length _ _ _ Hst) as H. simpl in H. exact H.
  - intros Hnone. unfold group_questions_answers.
    rewrite group_loop_unresolved; [reflexivity|].
    intros a [Ha Hv]%elem_of_violetta_answers. apply Hnone; assumption.
Qed.

(** X10: the ids of an emitted pair are ids of the list: every question id
    is a key of the id index, and every answer id is the id of an official
    answer of the list that replies to one of the question ids. *)
Theorem pair_ids_are_known (qa_pairs : list QAPair) (p : QAPair) :
  group_questions_answers messages = Some qa_pairs -> p ∈ qa_pairs ->
  (forall i, i ∈ question_ids p -> is_Some (messages_by_id messages !! i))
  /\ (forall i, i ∈ answer_ids p ->
        exists m, m ∈ messages /\ message_id m = i
                  /\ is_violetta_answer m = true
                  /\ reply_to m ∈ question_ids p).
Proof.
  intros Hout Hp. destruct (group_emitted _ _ _ Hout Hp) as (answer & He).
  destruct He as (_ & _ & _ & q & a & Hq & _ & Hat & ->). simpl. split.
  - intros i Hi. apply elem_of_ids_of in Hi as (Hn & m & Hm & <-).
    apply messages_by_id_is_Some; [|exact Hn].
    eapply find_question_thread_sub; eassumption.
  - intros i Hi. apply elem_of_ids_of in Hi as (Hn & m & Hm & <-).
    apply (elem_of_find_answer_thread _ _ _ _ Hat) in Hm as (Hm & Hv & Hr).
    exists m. auto.
Qed.

Lemma question_thread_members (i : str) (start m : ChatMessage)
    (q : list ChatMessage) :
  messages_by_id messages !! i = Some start ->
  _find_question_thread messages i = Some q -> m ∈ q ->
  sender m = sender start /\ reply_to m = reply_to start.
Proof.
  intros Hs Hq.
  destruct (find_question_thread_cases _ _ _ Hq)
    as [[E _]|[(s & E & _ & ->)|(s & E & _ & ->)]].
  - congruence.
  - intros ->%list_elem_of_singleton. split; congruence.
  - replace s with start by congruence.
    rewrite elem_of_sort_by, elem_of_filter_b, same_question_spec.
    intros (_ & H1 & H2 & _). auto.
Qed.

Lemma question_thread_one_sender (i : str) (q : list ChatMessage)
    (m1 m2 : ChatMessage) :
  _find_question_thread messages i = Some q -> m1 ∈ q -> m2 ∈ q ->
  sender m1 = sender m2 /\ reply_to m1 = reply_to m2.
Proof.
  intros Hq H1 H2.
  destruct (messages_by_id messages !! i) as [start|] eqn:E.
  - destruct (question_thread_members _ _ _ _ E Hq H1) as [-> ->].
    destruct (question_thread_members _ _ _ _ E Hq H2) as [-> ->]. auto.
  - rewrite (find_question_thread_unresolved _ _ E) in Hq.
    injection Hq as <-. exfalso. eapply elem_of_nil, H1.
Qed.

(** X11: the messages of one question thread have the same sender and the
    same reply target, and [question_sender] of an emitted pair is the
    sender of every message of its question thread. *)
Theorem question_thread_has_one_sender :
  (forall i q m1 m2,
     _find_question_thread messages i = Some q -> m1 ∈ q -> m2 ∈ q ->
     sender m1 = sender m2 /\ reply_to m1 = reply_to m2)
  /\ (forall qa_pairs p,
        group_questions_answers messages = Some qa_pairs -> p ∈ qa_pairs ->
        exists answer q,
          emitted_from messages answer p
          /\ _find_question_thread messages (reply_to answer) = Some q
          /\ forall m, m ∈ q -> sender m = question_sender p).
Proof.
  split; [exact question_thread_one_sender|].
  intros qa_pairs p Hout Hp.
  destruct (group_emitted _ _ _ Hout Hp) as (answer & He).
  pose proof He as (_ & _ & _ & q & a & Hq & Hne & _ & ->).
  exists answer, q. split; [exact He|]. split; [exact Hq|].
  simpl. intros m Hm. destruct q as [|m0 q]; [contradiction|].
  apply (question_thread_one_sender _ _ _ _ Hq Hm). left.
Qed.

(** Two question threads that share a message are the same list. *)
Lemma question_threads_share (i j : str) (qi qj : list ChatMessage)
    (m : ChatMessage) :
  _find_question_thread messages i = Some qi ->
  _find_question_thread messages j = Some qj ->
  m ∈ qi -> m ∈ qj -> qi = qj.
Proof.
  intros Hi Hj Hmi Hmj.
  destruct (find_question_thread_cases _ _ _ Hi)
    as [[_ Qi]|[(si & Ei & Ri & Qi)|(si & Ei & Ri & Qi)]];
    [rewrite Qi in Hmi; exfalso; eapply elem_of_nil, Hmi| |];
    (destruct (find_question_thread_cases _ _ _ Hj)
       as [[_ Qj]|[(sj & Ej & Rj & Qj)|(sj & Ej & Rj & Qj)]];
     [rewrite Qj in Hmj; exfalso; eapply elem_of_nil, Hmj| |]).
  - subst qi qj. apply list_elem_of_singleton in Hmi, Hmj. congruence.
  - exfalso.
    destruct (question_thread_members _ _ _ _ Ei Hi Hmi) as [_ Hri].
    destruct (question_thread_members _ _ _ _ Ej Hj Hmj) as [_ Hrj].
    congruence.
  - exfalso.
    destruct (question_thread_members _ _ _ _ Ei Hi Hmi) as [_ Hri].
    destruct (question_thread_members _ _ _ _ Ej Hj Hmj) as [_ Hrj].
    congruence.
  - destruct (question_thread_members _ _ _ _ Ei Hi Hmi) as [Hsi Hri].
    destruct (question_thread_members _ _ _ _ Ej Hj Hmj) as [Hsj Hrj].
    rewrite Qi, Qj, <- Hsi, <- Hri, Hsj, Hrj. reflexivity.
Qed.

(** X12: two question threads are the same list or have no message in
    common: a message is in the question thread of one pair at most. *)
Theorem question_threads_equal_or_disjoint (i j : str)
    (qi qj : list ChatMessage) :
  _find_question_thread messages i = Some qi ->
  _find_question_thread messages j = Some qj ->
  qi = qj \/ forall m, m ∈ qi -> m ∉ qj.
Proof.
  intros Hi Hj. destruct (decide (qi = qj)) as [E|Hne]; [left; exact E|].
  right. intros m Hmi Hmj. apply Hne.
  exact (question_threads_share _ _ _ _ _ Hi Hj Hmi Hmj).
Qed.
End GrouperExtras.

Lemma StronglySorted_head {A : Type} (R : A -> A -> Prop) (x : A) (l : list A) :
  StronglySorted R (x :: l) -> forall y, y ∈ l -> R x y.
Proof.
  intros H y Hy. apply StronglySorted_inv in H as [_ H].
  rewrite Forall_forall in H. apply H, Hy.
Qed.

Lemma StronglySorted_last {A : Type} (R : A -> A -> Prop) (x : A) (l : list A) :
  StronglySorted R (l ++ [x]) -> forall y, y ∈ l -> R y x.
Proof.
  induction l as [|z l IH]; intros H y Hy.
  - exfalso. eapply elem_of_nil, Hy.
  - simpl in H. apply elem_of_cons in Hy as [->|Hy].
    + apply (StronglySorted_head R z (l ++ [x]) H).
      apply elem_of_app. right. left.
    + apply IH; [|exact Hy]. apply StronglySorted_inv in H as [H _]. exact H.
Qed.

Section GrouperOrder.
Context {rt : PyRuntime}.
Variable messages : list ChatMessage.

(** X13: [question_sender] and [question_date] of an emitted pair are those
    of a message of the question thread with the lowest sequence number,
    and [answer_date] is the date of a message of the answer thread with
    the highest sequence number, or empty when the answer thread is
    empty. *)
Theorem pair_dates_follow_sequence (qa_pairs : list QAPair) (p : QAPair) :
  group_questions_answers messages = Some qa_pairs -> p ∈ qa_pairs ->
  exists (answer : ChatMessage) (q a : list ChatMessage),
    emitted_from messages answer p
    /\ _find_question_thread messages (reply_to answer) = Some q
    /\ _find_answer_thread messages q = Some a
    /\ (exists m, m ∈ q /\ question_sender p = sender m
                  /\ question_date p = date m
                  /\ forall m', m' ∈ q -> by_sequence m m')
    /\ (a = [] -> answer_date p = [])
    /\ (a <> [] ->
        exists m, m ∈ a /\ answer_date p = date m
                  /\ forall m', m' ∈ a -> by_sequence m' m).
Proof.
  intros Hout Hp. destruct (group_emitted _ _ _ Hout Hp) as (answer & He).
  pose proof He as (_ & _ & _ & q & a & Hq & Hne & Hat & ->).
  exists answer, q, a. split; [exact He|].
  split; [exact Hq|]. split; [exact Hat|].
  pose proof (find_question_thread_sorted _ _ _ Hq) as Sq.
  pose proof (find_answer_thread_sorted _ _ _ Hat) as Sa.
  simpl. split; [|split].
  - destruct q as [|m q']; [contradiction|].
    exists m. split; [left|]. split; [reflexivity|]. split; [reflexivity|].
    intros m' [->|Hm']%elem_of_cons; [apply by_sequence_refl|].
    exact (StronglySorted_head _ _ _ Sq _ Hm').
  - intros ->. reflexivity.
  - intros Ha. destruct (last a) as [m|] eqn:E;
      [|apply last_None in E; contradiction].
    apply last_Some in E as [front E]. exists m. rewrite E in *.
    split; [apply elem_of_app; right; left|]. split; [reflexivity|].
    intros m' [Hm'|Hm']%elem_of_app.
    + exact (StronglySorted_last _ _ _ Sa _ Hm').
    + apply list_elem_of_singleton in Hm' as ->. apply by_sequence_refl.
Qed.

Lemma group_step_appends (st st' : grouper_state) (answer : ChatMessage) :
  group_step messages st answer = Some st' ->
  exists more, fst st' = fst st ++ more.
Proof.
  intros [->|(_ & q & a & _ & _ & _ & _ & ->)]%group_step_cases.
  - exists []. rewrite app_nil_r. reflexivity.
  - simpl. eauto.
Qed.

Lemma group_loop_appends (answers : list ChatMessage) :
  forall st st' : grouper_state,
    group_loop messages answers st = Some st' ->
    exists more, fst st' = fst st ++ more.
Proof.
  induction answers as [|a l IH]; intros st st'.
  - intros [= <-]. exists []. rewrite app_nil_r. reflexivity.
  - rewrite group_loop_cons.
    destruct (group_step messages st a) as [s1|] eqn:E; [|discriminate].
    intros Hl. destruct (IH _ _ Hl) as [more2 ->].
    destruct (group_step_appends _ _ _ E) as [more1 ->].
    exists (more1 ++ more2). rewrite app_assoc. reflexivity.
Qed.

(** X14: the loop only appends: when the loop over a list of answers
    returns, the loop over the first of them returns too, and the pairs
    emitted for these stay, unchanged and in place, at the front of the
    pairs emitted for the longer list, so that the output follows the
    order of the answers that drive it. *)
Theorem group_loop_only_appends (first later : list ChatMessage)
    (st st2 : grouper_state) :
  group_loop messages (first ++ later) st = Some st2 ->
  exists st1 more,
    group_loop messages first st = Some st1
    /\ fst st2 = fst st1 ++ more.
Proof.
  rewrite group_loop_app.
  destruct (group_loop messages first st) as [st1|]; [|discriminate].
  intros Hl. destruct (group_loop_appends _ _ _ Hl) as [more E].
  exists st1, more. auto.
Qed.
End GrouperOrder.
(** ** From the transcript to the export *)

Section Pipeline.
Context {rt : PyRuntime}.

Lemma parsed_flags_identified (paragraphs : list str) :
  flags_identified (parse_word_document paragraphs).
Proof.
  intros m Hm. unfold parse_word_document, _identify_violetta_answers in Hm.
  apply list_elem_of_fmap in Hm as (m0 & -> & _). reflexivity.
Qed.

Lemma parsed_text_not_empty (paragraphs : list str) (m : ChatMessage) :
  m ∈ parse_word_document paragraphs -> text m <> [].
Proof.
  unfold parse_word_document, _identify_violetta_answers.
  intros Hm. apply list_elem_of_fmap in Hm as (m0 & -> & Hm0). simpl.
  apply truthy_true.
  assert (H : Forall (fun m => truthy (text m) = true)
                (fst (parse_loop paragraphs ([], None)))).
  { apply (fold_left_invariant
             (fun st => Forall (fun m => truthy (text m) = true) (fst st))).
    - constructor.
    - intros st p _. apply parse_step_truthy. }
  apply (flush_truthy _ (snd (parse_loop paragraphs ([], None)))) in H.
  rewrite Forall_forall in H. apply H, Hm0.
Qed.

Lemma has_answer_tag_elem (m : ChatMessage) :
  has_answer_tag m = true -> exists t, t ∈ tags m /\ is_answer_tag t = true.
Proof.
  unfold has_answer_tag. intros H. apply existsb_exists in H as (t & Ht & H).
  exists t. split; [apply list_elem_of_In, Ht|exact H].
Qed.

Lemma elem_of_pair_tags (a : list ChatMessage) (m : ChatMessage) (t : str) :
  m ∈ a -> t ∈ tags m -> t ∈ set_iter (concat (map tags a)).
Proof.
  intros Hm Ht. apply set_iter_elem_of, list_elem_of_In, in_concat.
  exists (tags m). split; [|apply list_elem_of_In, Ht].
  apply in_map, list_elem_of_In, Hm.
Qed.

(** X15: when the flags of the messages come from their tags, as after
    parsing, an emitted pair without answer thread has no tag, and an
    emitted pair with an answer thread has an official-answer tag among
    its tags. *)
Theorem answered_pair_has_answer_tag (messages : list ChatMessage)
    (qa_pairs : list QAPair) (p : QAPair) :
  flags_identified messages ->
  group_questions_answers messages = Some qa_pairs -> p ∈ qa_pairs ->
  exists (answer : ChatMessage) (q a : list ChatMessage),
    emitted_from messages answer p
    /\ _find_question_thread messages (reply_to answer) = Some q
    /\ _find_answer_thread messages q = Some a
    /\ (a = [] -> qa_tags p = [])
    /\ (a <> [] -> exists t, t ∈ qa_tags p /\ is_answer_tag t = true).
Proof.
  intros Hf Hout Hp. destruct (group_emitted _ _ _ Hout Hp) as (answer & He).
  pose proof He as (_ & _ & _ & q & a & Hq & _ & Hat & ->).
  exists answer, q, a. split; [exact He|].
  split; [exact Hq|]. split; [exact Hat|]. simpl. split.
  - intros ->. apply set_iter_nil.
  - intros Ha. destruct a as [|m a'] eqn:E; [contradiction|].
    assert (Hm : m ∈ m :: a') by left.
    apply (elem_of_find_answer_thread _ _ _ _ Hat) in Hm as (Hm & Hv & _).
    rewrite (Hf m Hm) in Hv.
    destruct (has_answer_tag_elem _ Hv) as (t & Ht & Hmark).
    exists t. split; [|exact Hmark].
    apply (elem_of_pair_tags (m :: a') m t); [left|exact Ht].
Qed.

Lemma pair_tags_marked (messages : list ChatMessage) (qa_pairs : list QAPair)
    (p : QAPair) (t : str) :
  flags_identified messages ->
  group_questions_answers messages = Some qa_pairs -> p ∈ qa_pairs ->
  t ∈ qa_tags p ->
  exists t', t' ∈ qa_tags p /\ is_answer_tag t' = true.
Proof.
  intros Hf Hout Hp Ht.
  destruct (group_emitted _ _ _ Hout Hp) as (answer & He).
  destruct He as (_ & _ & _ & q & a & Hq & _ & Hat & ->). simpl in *.
  destruct (set_iter_elem_of (concat (map tags a)) t) as [Hin _].
  specialize (Hin Ht). apply list_elem_of_In, in_concat in Hin as (l & Hl & _).
  apply in_map_iff in Hl as (m & _ & Hm). apply list_elem_of_In in Hm.
  pose proof Hm as Hm'.
  apply (elem_of_find_answer_thread _ _ _ _ Hat) in Hm' as (Hm' & Hv & _).
  rewrite (Hf m Hm') in Hv.
  destruct (has_answer_tag_elem _ Hv) as (t' & Ht' & Hmark).
  exists t'. split; [|exact Hmark]. exact (elem_of_pair_tags a m t' Hm Ht').
Qed.

(** X16: for every transcript, the sorted tag list of the export of its
    pairs is empty or starts with an official-answer tag: the export never
    lists tags without such a tag in front. *)
Theorem export_of_transcript_starts_with_answer_tag (paragraphs : list str)
    (qa_pairs : list QAPair) :
  group_questions_answers (parse_word_document paragraphs) = Some qa_pairs ->
  let sorted_tags := all_tags (fst (create_json_database qa_pairs)) in
  sorted_tags = []
  \/ exists t rest, sorted_tags = t :: rest /\ is_answer_tag t = true.
Proof.
  intros Hout. simpl. set (messages := parse_word_document paragraphs) in *.
  destruct (sort_tags_spec (collected_tags qa_pairs))
    as [Hperm [(t & rest & E & Ht & _)|[Hnone _]]]; [right; eauto|].
  left. apply elem_of_nil_inv. intros t Ht.
  rewrite Hperm, set_iter_elem_of in Ht.
  pose proof Ht as Hc. apply elem_of_collected_tags in Hc as (p & Hp & Htp).
  destruct (pair_tags_marked messages qa_pairs p t
              (parsed_flags_identified paragraphs) Hout Hp Htp)
    as (t' & Ht' & Hm).
  rewrite (Hnone t') in Hm; [discriminate|].
  apply elem_of_collected_tags. eauto.
Qed.

Lemma join_not_empty (sep x : str) (l : list str) :
  x <> [] -> join sep (x :: l) <> [].
Proof. destruct x; [congruence|]. destruct l; discriminate. Qed.

Lemma texts_of_parsed (paragraphs : list str) (l : list ChatMessage) :
  (forall m, m ∈ l -> m ∈ parse_word_document paragraphs) ->
  List.filter truthy (map text l) = map text l.
Proof.
  induction l as [|m l IH]; intros H; [reflexivity|]. simpl.
  assert (Hm : truthy (text m) = true).
  { apply truthy_true, (parsed_text_not_empty paragraphs). apply H. left. }
  rewrite Hm, IH; [reflexivity|]. intros m' Hm'. apply H. right. exact Hm'.
Qed.

(** X17: for every transcript, the question text of every emitted pair is
    not empty, and its answer text is empty exactly when its answer thread
    is empty. *)
Theorem pair_texts_of_transcript (paragraphs : list str)
    (qa_pairs : list QAPair) (p : QAPair) :
  group_questions_answers (parse_word_document paragraphs) = Some qa_pairs ->
  p ∈ qa_pairs ->
  exists (answer : ChatMessage) (q a : list ChatMessage),
    emitted_from (parse_word_document paragraphs) answer p
    /\ _find_question_thread (parse_word_document paragraphs)
         (reply_to answer) = Some q
    /\ _find_answer_thread (parse_word_document paragraphs) q = Some a
    /\ question_text p <> []
    /\ (answer_text p = [] <-> a = []).
Proof.
  set (messages := parse_word_document paragraphs).
  intros Hout Hp. destruct (group_emitted _ _ _ Hout Hp) as (answer & He).
  pose proof He as (_ & _ & _ & q & a & Hq & Hne & Hat & ->).
  exists answer, q, a. split; [exact He|].
  split; [exact Hq|]. split; [exact Hat|]. simpl.
  assert (Eq : List.filter truthy (map text q) = map text q).
  { apply (texts_of_parsed paragraphs). intros m Hm.
    eapply find_question_thread_sub; eassumption. }
  assert (Ea : List.filter truthy (map text a) = map text a).
  { apply (texts_of_parsed paragraphs). intros m Hm.
    apply (elem_of_find_answer_thread _ _ _ _ Hat) in Hm as [Hm _].
    exact Hm. }
  rewrite Eq, Ea. split.
  - destruct q as [|m q'] eqn:E; [contradiction|]. simpl map.
    apply join_not_empty, (parsed_text_not_empty paragraphs).
    apply (find_question_thread_sub messages _ _ _ Hq). left.
  - split; [|intros ->; reflexivity].
    destruct a as [|m a'] eqn:E; [reflexivity|]. simpl map. intros H.
    exfalso. revert H. apply join_not_empty, (parsed_text_not_empty paragraphs).
    assert (Hm : m ∈ m :: a') by left.
    apply (elem_of_find_answer_thread _ _ _ _ Hat) in Hm as [Hm _]. exact Hm.
Qed.
End Pipeline.

(** ** The tag list of the page *)

Section PageFacts.
Context {rt : PyRuntime} {js : JsRuntime}.

Lemma sortTags_loop (tags_ : list str) :
  forall st : option str * list str,
    fold_left sortTags_step tags_ st
    = (match last (List.filter includes_marker tags_) with
       | Some t => Some t
       | None => fst st
       end,
       snd st ++ List.filter (fun t => negb (includes_marker t)) tags_).
Proof.
  induction tags_ as [|x l IH]; intros [answerTag otherTags].
  - simpl. rewrite app_nil_r. reflexivity.
  - cbn [fold_left List.filter]. rewrite IH. unfold sortTags_step.
    destruct (includes_marker x); cbn [fst snd negb].
    + rewrite last_cons.
      destruct (last (List.filter includes_marker l)); reflexivity.
    + rewrite <- app_assoc. reflexivity.
Qed.

Lemma includes_marker_truthy (t : str) :
  includes_marker t = true -> truthy t = true.
Proof.
  destruct t as [|c t]; [|reflexivity].
  unfold includes_marker. rewrite toLowerCase_nil. vm_compute. congruence.
Qed.

Lemma last_filter_true {A : Type} (f : A -> bool) (l : list A) (x : A) :
  last (List.filter f l) = Some x -> f x = true /\ x ∈ l.
Proof.
  intros H. apply last_Some_elem_of, elem_of_filter_b in H. tauto.
Qed.

(** X19: the tag list of the page is made of the tags without marker and
    of one tag with the marker at most, the last one of the set, placed
    first: when two different tags hold the marker, the page drops one of
    them, while the tag list of the export keeps every tag. *)
Theorem page_tag_list_keeps_one_answer_tag (tags_ : list str) :
  sortTags tags_
    ≡ₚ match last (List.filter includes_marker tags_) with
       | Some t => [t]
       | None => []
       end ++ List.filter (fun t => negb (includes_marker t)) tags_
  /\ (forall t, last (List.filter includes_marker tags_) = Some t ->
        exists rest, sortTags tags_ = t :: rest)
  /\ (forall t1 t2,
        t1 ∈ tags_ -> t2 ∈ tags_ -> t1 <> t2 ->
        includes_marker t1 = true -> includes_marker t2 = true ->
        exists t, t ∈ tags_ /\ (t ∉ sortTags tags_)
                  /\ t ∈ _sort_tags_alphabetical tags_).
Proof.
  assert (E : sortTags tags_
              = match last (List.filter includes_marker tags_) with
                | Some t => t :: locale_sort
                              (List.filter (fun t => negb (includes_marker t)) tags_)
                | None => locale_sort
                            (List.filter (fun t => negb (includes_marker t)) tags_)
                end).
  { unfold sortTags. rewrite sortTags_loop. cbn [fst snd app].
    destruct (last (List.filter includes_marker tags_)) as [t|] eqn:El;
      [|reflexivity].
    apply last_filter_true in El as [Ht _].
    rewrite (includes_marker_truthy _ Ht). reflexivity. }
  split; [|split].
  - rewrite E. destruct (last (List.filter includes_marker tags_));
      simpl; rewrite locale_sort_Permutation; reflexivity.
  - intros t Ht. rewrite E, Ht. eauto.
  - intros t1 t2 H1 H2 Hne M1 M2.
    assert (Hl : exists tl, last (List.filter includes_marker tags_) = Some tl).
    { destruct (last (List.filter includes_marker tags_)) as [tl|] eqn:El;
        [eauto|].
      apply last_None in El.
      assert (Hin : t1 ∈ List.filter includes_marker tags_)
        by (apply elem_of_filter_b; auto).
      rewrite El in Hin. exfalso. eapply elem_of_nil, Hin. }
    destruct Hl as [tl El].
    assert (Hdrop : forall t, t ∈ tags_ -> includes_marker t = true ->
                      t <> tl -> exists t, t ∈ tags_ /\ (t ∉ sortTags tags_)
                                  /\ t ∈ _sort_tags_alphabetical tags_).
    { intros t Ht Mt Hn. exists t. split; [exact Ht|]. split.
      - rewrite E, El. intros [Heq|Hin]%elem_of_cons; [contradiction|].
        rewrite locale_sort_Permutation in Hin.
        apply elem_of_filter_b in Hin as [_ Hin]. rewrite Mt in Hin.
        discriminate.
      - destruct (sort_tags_spec tags_) as [Hperm _].
        rewrite Hperm. apply set_iter_elem_of, Ht. }
    destruct (decide (t1 = tl)) as [->|Hn1].
    + apply (Hdrop t2 H2 M2). congruence.
    + apply (Hdrop t1 H1 M1 Hn1).
Qed.
End PageFacts.

(** ** The body of a message *)

Section BodyFacts.
Context {rt : PyRuntime}.

Lemma join_cons (sep x : str) (l : list str) :
  join sep (x :: l) = x ++ concat (map (fun p => sep ++ p) l).
Proof.
  revert x. induction l as [|y l IH]; intros x.
  - simpl. rewrite app_nil_r. reflexivity.
  - change (join sep (x :: y :: l)) with (x ++ sep ++ join sep (y :: l)).
    rewrite IH. simpl. rewrite <- app_assoc. reflexivity.
Qed.

Lemma body_block_step (messages : list ChatMessage) (m : ChatMessage)
    (p : str) :
  body_block p = true ->
  parse_step (messages, Some m) p = (messages, Some (add_body m (strip p)))
  /\ strip p <> [].
Proof.
  unfold body_block. rewrite !andb_true_iff, !negb_true_iff.
  intros [[[H1 H2] H3] H4]. split; [|apply truthy_true, H1].
  rewrite (parse_step_content _ _ _ H1 H2), (process_body _ _ H3 H4).
  reflexivity.
Qed.

(** The loop over body blocks, from an accumulator that has text. *)
Lemma parse_loop_body (blocks : list str) :
  forall (messages : list ChatMessage) (m : ChatMessage),
    text m <> [] -> Forall (fun p => body_block p = true) blocks ->
    exists m',
      parse_loop blocks (messages, Some m) = (messages, Some m')
      /\ text m' = text m ++ concat (map (fun p => newline ++ strip p) blocks)
      /\ tags m' = tags m ++ concat (map block_tags blocks)
      /\ message_number m' = message_number m
      /\ sender m' = sender m /\ date m' = date m
      /\ message_id m' = message_id m /\ reply_to m' = reply_to m.
Proof.
  induction blocks as [|p l IH]; intros messages m Hm Hb.
  - exists m. simpl. rewrite !app_nil_r. repeat split; reflexivity.
  - apply Forall_cons in Hb as [Hp Hl].
    destruct (body_block_step messages m p Hp) as [E _].
    rewrite parse_loop_cons, E.
    assert (Ht : text (add_body m (strip p)) = text m ++ newline ++ strip p).
    { rewrite add_body_text. apply truthy_true in Hm. rewrite Hm. reflexivity. }
    destruct (IH messages (add_body m (strip p))) as (m' & E' & H1 & H2 & H3);
      [rewrite Ht; destruct (text m); [congruence|discriminate]|exact Hl|].
    exists m'. split; [exact E'|].
    destruct (add_body_fields m (strip p)) as (F1 & F2 & F3 & F4 & F5).
    rewrite H1, H2, Ht, add_body_tags. simpl.
    rewrite <- !app_assoc.
    destruct H3 as (-> & -> & -> & -> & ->).
    repeat split; auto.
Qed.

(** X21: a start marker followed by body blocks only gives one message:
    its text is the blocks, stripped, joined by line breaks, its tags are
    the tags of the blocks in order, each block without duplicates, its
    number is the capture of the start marker, and its other fields are
    empty. *)
Theorem message_body_is_joined_blocks (s b : str) (blocks : list str) :
  starts_message s = true ->
  Forall (fun p => body_block p = true) (b :: blocks) ->
  exists m,
    parse_word_document (s :: b :: blocks) = [m]
    /\ text m = join newline (map strip (b :: blocks))
    /\ tags m = concat (map block_tags (b :: blocks))
    /\ message_number m = message_number (_create_new_message (strip s))
    /\ sender m = [] /\ date m = [] /\ message_id m = [] /\ reply_to m = [].
Proof.
  intros Hs Hb. apply Forall_cons in Hb as [Hb Hl].
  unfold parse_word_document.
  rewrite !parse_loop_cons, (parse_step_start _ _ Hs). cbn [fst snd flush].
  destruct (body_block_step [] (_create_new_message (strip s)) b Hb) as [E Hn].
  rewrite E.
  set (m0 := add_body (_create_new_message (strip s)) (strip b)).
  assert (Ht0 : text m0 = strip b) by (unfold m0; apply add_body_text).
  destruct (parse_loop_body blocks [] m0) as (m' & E' & H1 & H2 & H3 & H4);
    [rewrite Ht0; exact Hn|exact Hl|].
  rewrite E'. cbn [fst snd flush].
  assert (Hm' : truthy (text m') = true).
  { apply truthy_true. rewrite H1, Ht0. destruct (strip b); [congruence|].
    discriminate. }
  rewrite Hm'. cbn [app _identify_violetta_answers map].
  eexists. split; [reflexivity|]. cbn [text tags message_number sender date
    message_id reply_to set_is_violetta_answer].
  destruct (add_body_fields (_create_new_message (strip s)) (strip b))
    as (F1 & F2 & F3 & F4 & F5). fold m0 in F1, F2, F3, F4, F5.
  destruct H4 as (G2 & G3 & G4 & G5).
  split; [rewrite H1, Ht0; cbn [map]; rewrite join_cons, map_map; reflexivity|].
  split; [rewrite H2; unfold m0; rewrite add_body_tags; reflexivity|].
  split; [rewrite H3; exact F1|].
  split; [rewrite G2, F2; reflexivity|].
  split; [rewrite G3, F3; reflexivity|].
  split; [rewrite G4, F4; reflexivity|].
  rewrite G5, F5. reflexivity.
Qed.
End BodyFacts.

(** ** No answered question is lost *)

Lemma NoDup_map_eq {A B : Type} (f : A -> B) (l : list A) (x y : A) :
  NoDup (map f l) -> x ∈ l -> y ∈ l -> f x = f y -> x = y.
Proof.
  induction l as [|z l IH]; intros Hnd Hx Hy E.
  - exfalso. eapply elem_of_nil, Hx.
  - simpl in Hnd. apply NoDup_cons in Hnd as [Hz Hnd].
    apply elem_of_cons in Hx as [->|Hx]; apply elem_of_cons in Hy as [->|Hy].
    + reflexivity.
    + exfalso. apply Hz. rewrite E. apply (list_elem_of_fmap f). eauto.
    + exfalso. apply Hz. rewrite <- E. apply (list_elem_of_fmap f). eauto.
    + apply IH; assumption.
Qed.

Section Completeness.
Context {rt : PyRuntime}.
Variable messages : list ChatMessage.

Lemma find_question_thread_no_target (q : list ChatMessage) :
  _find_question_thread messages [] = Some q -> q = [].
Proof.
  destruct (messages_by_id messages !! []) as [m|] eqn:El.
  - destruct (messages_by_id_Some _ _ _ El) as (_ & _ & H). congruence.
  - rewrite (find_question_thread_unresolved _ _ El). congruence.
Qed.

Lemma group_step_records (st st' : grouper_state) (answer : ChatMessage)
    (q : list ChatMessage) :
  _find_question_thread messages (reply_to answer) = Some q -> q <> [] ->
  group_step messages st answer = Some st' ->
  question_key_of (ids_of q) ∈ snd st'.
Proof.
  intros Hq Hne Hstep.
  destruct (decide (question_key_of (ids_of q) ∈ snd st)) as [Hk|Hk].
  - rewrite (group_step_processed _ _ _ _ Hq Hk) in Hstep.
    injection Hstep as <-. exact Hk.
  - destruct (group_step_cases _ _ _ _ Hstep)
      as [->|(_ & q' & a & Hq' & _ & _ & _ & ->)].
    + exfalso. revert Hstep. unfold group_step. rewrite Hq.
      destruct (reply_to answer) eqn:E.
      { apply find_question_thread_no_target in Hq. contradiction. }
      cbn [truthy negb]. destruct q as [|m q]; [contradiction|].
      rewrite bool_decide_eq_false_2 by exact Hk.
      destruct (_find_answer_thread messages (m :: q)); [|discriminate].
      intros [= E1]. apply Hk. rewrite <- E1. cbn [snd].
      apply elem_of_union_l, elem_of_singleton. reflexivity.
    + replace q' with q by congruence. cbn [snd].
      apply elem_of_union_l, elem_of_singleton. reflexivity.
Qed.

Lemma group_step_keeps_keys (st st' : grouper_state) (answer : ChatMessage)
    (k : list str) :
  group_step messages st answer = Some st' -> k ∈ snd st -> k ∈ snd st'.
Proof.
  intros [->|(_ & q & a & _ & _ & _ & _ & ->)]%group_step_cases Hk;
    [exact Hk|].
  cbn [snd]. apply elem_of_union_r, Hk.
Qed.

Lemma group_loop_keeps_keys (answers : list ChatMessage) :
  forall (st st' : grouper_state) (k : list str),
    group_loop messages answers st = Some st' -> k ∈ snd st -> k ∈ snd st'.
Proof.
  induction answers as [|a l IH]; intros st st' k.
  - intros [= <-] Hk. exact Hk.
  - rewrite group_loop_cons.
    destruct (group_step messages st a) as [s1|] eqn:E; [|discriminate].
    intros Hl Hk. apply (IH _ _ _ Hl), (group_step_keeps_keys _ _ _ _ E), Hk.
Qed.

(** Every recorded key is the key of a question thread whose pair is
    emitted. *)
Lemma group_loop_recorded (answers : list ChatMessage) (st : grouper_state)
    (k : list str) :
  group_loop messages answers ([], ∅) = Some st -> k ∈ snd st ->
  exists x q a,
    _find_question_thread messages (reply_to x) = Some q
    /\ q <> []
    /\ _find_answer_thread messages q = Some a
    /\ k = question_key_of (ids_of q)
    /\ _create_qa_pair q a ∈ fst st.
Proof.
  intros Hst. revert k.
  refine (group_loop_invariant messages
            (fun st : grouper_state => forall k, k ∈ snd st ->
               exists x q a,
                 _find_question_thread messages (reply_to x) = Some q
                 /\ q <> []
                 /\ _find_answer_thread messages q = Some a
                 /\ k = question_key_of (ids_of q)
                 /\ _create_qa_pair q a ∈ fst st)
            answers ([], ∅) st _ _ Hst).
  - intros k Hk. cbn [snd] in Hk. set_solver.
  - intros s s' answer _ IH Hstep k.
    destruct (group_step_cases _ _ _ _ Hstep)
      as [->|(_ & q & a & Hq & Hne & _ & Hat & ->)]; [apply IH|].
    cbn [fst snd]. intros [Hk|Hk]%elem_of_union.
    + apply elem_of_singleton in Hk as ->.
      exists answer, q, a. do 4 (split; [first [assumption|reflexivity]|]).
      apply elem_of_app. right. apply list_elem_of_singleton. reflexivity.
    + destruct (IH k Hk) as (x & q' & a' & H1 & H2 & H3 & H4 & H5).
      exists x, q', a'. do 4 (split; [assumption|]).
      apply elem_of_app. left. exact H5.
Qed.


(** When every message has an id of its own, two question threads with
    the same key are the same thread. *)
Lemma question_thread_of_key (i j : str) (q1 q2 : list ChatMessage) :
  (forall m, m ∈ messages -> message_id m <> []) ->
  (forall m1 m2, m1 ∈ messages -> m2 ∈ messages ->
                 message_id m1 = message_id m2 -> m1 = m2) ->
  _find_question_thread messages i = Some q1 ->
  _find_question_thread messages j = Some q2 ->
  q1 <> [] ->
  question_key_of (ids_of q1) = question_key_of (ids_of q2) ->
  q1 = q2.
Proof.
  intros Hid Huniq H1 H2 Hne Hk.
  destruct q1 as [|m q1]; [contradiction|].
  assert (Hm : m ∈ m :: q1) by left.
  pose proof (find_question_thread_sub _ _ _ _ H1 Hm) as Hmm.
  assert (Hin : message_id m ∈ question_key_of (ids_of (m :: q1))).
  { apply elem_of_sort_by, elem_of_ids_of. split; [apply Hid, Hmm|]. eauto. }
  rewrite Hk in Hin.
  apply elem_of_sort_by, elem_of_ids_of in Hin as (_ & m' & Hm' & E).
  pose proof (find_question_thread_sub _ _ _ _ H2 Hm') as Hmm'.
  rewrite (Huniq m' m Hmm' Hmm E) in Hm'.
  exact (question_threads_share messages _ _ _ _ _ H1 H2 Hm Hm').
Qed.

(** X20: no answered question is lost, when every message has an id and
    no two messages have the same id: for every official answer whose
    question thread is found, the answer thread of that question thread
    is found too and the pair of the two threads is in the output, even
    when it was emitted for another answer; and no other pair of the
    output has its key. *)
Theorem every_found_thread_is_emitted (qa_pairs : list QAPair)
    (answer : ChatMessage) (q : list ChatMessage) :
  (forall m, m ∈ messages -> message_id m <> []) ->
  (forall m1 m2, m1 ∈ messages -> m2 ∈ messages ->
                 message_id m1 = message_id m2 -> m1 = m2) ->
  group_questions_answers messages = Some qa_pairs ->
  answer ∈ messages -> is_violetta_answer answer = true ->
  _find_question_thread messages (reply_to answer) = Some q -> q <> [] ->
  exists a,
    _find_answer_thread messages q = Some a
    /\ _create_qa_pair q a ∈ qa_pairs
    /\ (forall p, p ∈ qa_pairs ->
          canonical_key p = question_key_of (ids_of q) ->
          p = _create_qa_pair q a).
Proof.
  intros Hid Huniq Hout Ha Hv Hq Hne.
  pose proof Hout as (st & Hst & ->)%group_questions_answers_Some.
  assert (Hk : question_key_of (ids_of q) ∈ snd st).
  { assert (Hin : answer ∈ violetta_answers messages)
      by (apply elem_of_violetta_answers; auto).
    apply list_elem_of_split in Hin as (l1 & l2 & E).
    rewrite E, group_loop_app in Hst.
    destruct (group_loop messages l1 ([], ∅)) as [st1|]; [|discriminate].
    rewrite group_loop_cons in Hst.
    destruct (group_step messages st1 answer) as [st2|] eqn:Hstep;
      [|discriminate].
    apply (group_loop_keeps_keys _ _ _ _ Hst).
    apply (group_step_records _ _ _ _ Hq Hne Hstep). }
  destruct (group_loop_recorded _ _ _ Hst Hk)
    as (x & q' & a & Hq' & Hne' & Hat & Ek & Hp).
  assert (E : q = q').
  { apply (question_thread_of_key _ _ _ _ Hid Huniq Hq Hq' Hne Ek). }
  subst q'. exists a. split; [exact Hat|]. split; [exact Hp|].
  intros p Hp' Ekp.
  destruct (group_loop_keys _ _ _ Hst) as [Hnd _].
  apply (NoDup_map_eq canonical_key _ _ _ Hnd Hp' Hp).
  rewrite Ekp. reflexivity.
Qed.
End Completeness.

(** ** Order of threads and pairs *)

Section OrderFacts.
Context {rt : PyRuntime} {js : JsRuntime}.
Variable messages : list ChatMessage.

Lemma sequence_tie (k : Z) (a b : ChatMessage) :
  (sequence_number a =? k)%Z = true -> (sequence_number b =? k)%Z = true ->
  (sequence_number a <=? sequence_number b)%Z = true.
Proof. rewrite !Z.eqb_eq, Z.leb_le. lia. Qed.

(** X22: the sort of the threads is stable: in a question thread and in an
    answer thread, the messages with the same numeric sequence number
    (those without numeric sequence number among them, at 0) stay in the
    order of the message list. *)
Theorem threads_keep_list_order_on_ties (k : Z) :
  (forall (i : str) (start : ChatMessage) (q : list ChatMessage),
     messages_by_id messages !! i = Some start -> reply_to start <> [] ->
     _find_question_thread messages i = Some q ->
     List.filter (fun m => (sequence_number m =? k)%Z) q
     = List.filter (fun m => (sequence_number m =? k)%Z)
         (List.filter (same_question (reply_to start) (sender start)) messages))
  /\ (forall q a : list ChatMessage,
        _find_answer_thread messages q = Some a ->
        List.filter (fun m => (sequence_number m =? k)%Z) a
        = List.filter (fun m => (sequence_number m =? k)%Z)
            (List.filter (answers_question (ids_of q)) messages)).
Proof.
  split.
  - intros i start q Hs Hr Hq.
    rewrite (find_question_thread_sorted_siblings _ _ _ _ Hs Hr Hq).
    apply sort_by_stable, sequence_tie.
  - intros q a ->%find_answer_thread_Some.
    apply sort_by_stable, sequence_tie.
Qed.

(** X23: the first pair of the output is the pair of the first official
    answer whose question thread is found: the official answers before it,
    for which no question thread is found, leave nothing. *)
Theorem first_pair_is_of_first_found_answer (skipped rest : list ChatMessage)
    (answer : ChatMessage) (q : list ChatMessage) (qa_pairs : list QAPair) :
  violetta_answers messages = skipped ++ answer :: rest ->
  (forall x, x ∈ skipped ->
     _find_question_thread messages (reply_to x) = Some []) ->
  _find_question_thread messages (reply_to answer) = Some q -> q <> [] ->
  group_questions_answers messages = Some qa_pairs ->
  exists a more,
    _find_answer_thread messages q = Some a
    /\ qa_pairs = _create_qa_pair q a :: more.
Proof.
  intros E Hskip Hq Hne (st & Hst & ->)%group_questions_answers_Some.
  rewrite E, group_loop_app in Hst.
  assert (Hs : group_loop messages skipped ([], ∅) = Some ([], ∅)).
  { clear E Hst. induction skipped as [|x l IH]; [reflexivity|].
    rewrite group_loop_cons, group_step_not_found; [|apply Hskip; left].
    apply IH. intros y Hy. apply Hskip. right. exact Hy. }
  rewrite Hs, group_loop_cons in Hst.
  destruct (group_step messages ([], ∅) answer) as [st1|] eqn:Hstep;
    [|discriminate].
  pose proof (group_step_records messages _ _ _ _ Hq Hne Hstep) as Hk.
  destruct (group_step_cases _ _ _ _ Hstep)
    as [->|(_ & q' & a & Hq' & _ & _ & Hat & ->)].
  - exfalso. cbn [snd] in Hk. set_solver.
  - replace q' with q in * by congruence.
    destruct (group_loop_appends messages _ _ _ Hst) as [more ->].
    exists a, more. split; [exact Hat|reflexivity].
Qed.

(** X24: the page and the export collect the same tags from the pairs,
    each of them once. *)
Theorem page_collects_the_tags_of_the_export (qa_pairs : list QAPair) :
  NoDup (getAllTags qa_pairs)
  /\ (forall t, t ∈ getAllTags qa_pairs <->
        t ∈ all_tags (fst (create_json_database qa_pairs)))
  /\ length (getAllTags qa_pairs)
     = total_unique_tags (fst (create_json_database qa_pairs)).
Proof.
  assert (Hn : NoDup (getAllTags qa_pairs)).
  { unfold getAllTags, first_seen.
    rewrite reverse_Permutation. apply NoDup_remove_dups. }
  assert (He : forall t, t ∈ getAllTags qa_pairs <->
                 t ∈ set_iter (collected_tags qa_pairs)).
  { intros t. unfold getAllTags, first_seen, collected_tags.
    rewrite elem_of_reverse, elem_of_remove_dups, elem_of_reverse,
      set_iter_elem_of. reflexivity. }
  destruct (sort_tags_spec (collected_tags qa_pairs)) as [Hperm _].
  split; [exact Hn|]. split.
  - intros t. simpl. rewrite Hperm. apply He.
  - simpl. apply Permutation_length, NoDup_Permutation;
      [exact Hn|apply set_iter_NoDup|exact He].
Qed.
End OrderFacts.


(** ** The question thread of a resolved target *)

Section QuestionThread.
Context {rt : PyRuntime}.
Variable messages : list ChatMessage.

(** X25: when the reply target of an official answer resolves to a
    message, a resolved message that replies to nothing is the whole
    question thread.  Otherwise the siblings are the messages of the full
    list that reply to the same parent, have the same sender and are not
    official answers: [_find_question_thread] raises exactly when the
    number of a sibling passes [isdigit] and is not converted by [int],
    having a digit that is not decimal or more digits than the limit; and
    when it returns, the question thread is made of exactly the siblings,
    sorted, stably, in ascending order of their numeric sequence number,
    where a number that is missing or not numeric counts as 0; the sort
    key of each of them is this number. *)
Theorem question_thread_of_resolved_target (answer start : ChatMessage) :
  messages_by_id messages !! reply_to answer = Some start ->
  (reply_to start = [] ->
     _find_question_thread messages (reply_to answer) = Some [start])
  /\ (reply_to start <> [] ->
      (_find_question_thread messages (reply_to answer) = None <->
         exists m,
           m ∈ List.filter (same_question (reply_to start) (sender start))
                 messages
           /\ str_isdigit (message_number m) = true
           /\ (forallb isdecimal (message_number m) = false
               \/ within_int_limit (length (message_number m)) = false))
      /\ forall q,
           _find_question_thread messages (reply_to answer) = Some q ->
           q ≡ₚ List.filter (same_question (reply_to start) (sender start))
                  messages
           /\ (forall m, m ∈ q <->
                 m ∈ messages /\ reply_to m = reply_to start
                 /\ sender m = sender start /\ is_violetta_answer m = false)
           /\ StronglySorted by_sequence q
           /\ q = sort_by Z.leb sequence_number
                    (List.filter
                       (same_question (reply_to start) (sender start))
                       messages)
           /\ (forall m, m ∈ q -> sequence_key m = Some (sequence_number m))
           /\ (forall m, m ∈ q -> message_number m = [] ->
                 sequence_number m = 0%Z)).
Proof.
  intros Hs. split; [apply find_question_thread_root, Hs|].
  intros Hr. rewrite (find_question_thread_siblings _ _ _ Hs Hr). split.
  - rewrite sort_by_sequence_None. split.
    + intros (m & Hm & Hk). exists m. split; [exact Hm|].
      apply sequence_key_None, Hk.
    + intros (m & Hm & Hk). exists m. split; [exact Hm|].
      apply sequence_key_None, Hk.
  - intros q Hq. pose proof Hq as ->%sort_by_sequence_Some.
    split; [apply sort_by_Permutation|]. split.
    { intros m. rewrite elem_of_sort_by, elem_of_filter_b, same_question_spec.
      reflexivity. }
    split; [apply by_sequence_sorted|]. split; [reflexivity|]. split.
    + intros m Hm. apply elem_of_sort_by in Hm.
      assert (Hsome : is_Some (sort_by_sequence
                 (List.filter (same_question (reply_to start) (sender start))
                    messages))) by (rewrite Hq; eauto).
      rewrite sort_by_sequence_is_Some in Hsome.
      destruct (Hsome m Hm) as [k Hk].
      rewrite Hk, (sequence_key_Some _ _ Hk). reflexivity.
    + intros m _ E. unfold sequence_number. rewrite E. reflexivity.
Qed.
End QuestionThread.
(** * The further properties, at the transcript *)

Lemma question_msg_parsed :
  question_msg ∈ parse_word_document thread_transcript.
Proof. rewrite thread_transcript_parsed. left. Defined.

Lemma second_answer_parsed :
  second_answer ∈ parse_word_document thread_transcript.
Proof.
  rewrite thread_transcript_parsed. unfold thread_messages. do 5 right. left.
Defined.

Lemma thread_transcript_grouped :
  group_questions_answers (parse_word_document thread_transcript)
  = Some [question_pair; follow_up_pair].
Proof. rewrite thread_transcript_parsed. exact thread_messages_grouped. Defined.

Lemma part_long_number_parsed :
  part_long_number ∈ parse_word_document long_number_transcript.
Proof.
  assert (E : parse_word_document long_number_transcript
              = long_number_messages) by (vm_compute; reflexivity).
  rewrite E. left.
Defined.

(** The question, numbered 1, and the part of a question whose number has
    4301 digits. *)
Lemma parsed_numbers_are_decimal_witness :
  question_msg ∈ parse_word_document thread_transcript
  /\ decimal_string (message_number question_msg)
  /\ decimal_string (message_id question_msg)
  /\ decimal_string (reply_to question_msg)
  /\ within_int_limit (length (message_number question_msg)) = true
  /\ sequence_key question_msg = Some (sequence_number question_msg)
  /\ sequence_number question_msg = 1%Z
  /\ part_long_number ∈ parse_word_document long_number_transcript
  /\ decimal_string (message_number part_long_number)
  /\ within_int_limit (length (message_number part_long_number)) = false
  /\ sequence_key part_long_number = None.
Proof.
  assert (H1 : within_int_limit (length (message_number question_msg)) = true)
    by (vm_compute; reflexivity).
  assert (H2 : within_int_limit (length (message_number part_long_number))
               = false) by (vm_compute; reflexivity).
  destruct (parsed_numbers_are_decimal thread_transcript question_msg
              question_msg_parsed) as (D1 & D2 & D3 & K1 & _).
  destruct (parsed_numbers_are_decimal long_number_transcript part_long_number
              part_long_number_parsed) as (L1 & _ & _ & _ & K2 & _).
  split; [exact question_msg_parsed|].
  split; [exact D1|]. split; [exact D2|]. split; [exact D3|].
  split; [exact H1|]. split; [exact (K1 H1)|].
  split; [vm_compute; reflexivity|].
  split; [exact part_long_number_parsed|].
  split; [exact L1|]. split; [exact H2|]. exact (K2 H2).
Defined.

Lemma parsed_tags_are_hashtags_witness :
  second_answer ∈ parse_word_document thread_transcript
  /\ u "#мотивация" ∈ tags second_answer
  /\ tag_shaped (u "#мотивация")
  /\ (2 <= length (u "#мотивация"))%nat.
Proof.
  assert (H : u "#мотивация" ∈ tags second_answer) by (right; left).
  split; [exact second_answer_parsed|]. split; [exact H|].
  exact (parsed_tags_are_hashtags thread_transcript second_answer _
           second_answer_parsed H).
Defined.

Lemma parsed_sender_and_date_are_trimmed_witness :
  question_msg ∈ parse_word_document thread_transcript
  /\ Forall (fun c => c <> bullet) (sender question_msg)
  /\ stripped (sender question_msg)
  /\ Forall (fun c => c <> bullet) (date question_msg)
  /\ stripped (date question_msg).
Proof.
  split; [exact question_msg_parsed|].
  exact (parsed_sender_and_date_are_trimmed thread_transcript question_msg
           question_msg_parsed).
Defined.

(** A second id line and a body block, after the id is filled. *)
Lemma accumulator_only_grows_witness :
  Forall (fun p => starts_message p = false)
    [u "ID: 777"; u "Продолжение #тег"]
  /\ exists m',
       parse_loop [u "ID: 777"; u "Продолжение #тег"] ([], Some first_reply)
       = ([], Some m')
       /\ extends first_reply m'.
Proof.
  assert (H : Forall (fun p => starts_message p = false)
                [u "ID: 777"; u "Продолжение #тег"])
    by (repeat constructor).
  split; [exact H|].
  exact (accumulator_only_grows _ [] first_reply H).
Defined.

(** A line of text that holds [ID: 5], when the four fields are filled. *)
Lemma metadata_block_adds_no_body_witness :
  matches_metadata (u "Мой ID: 5 запишите") = true
  /\ sender first_reply <> [] /\ date first_reply <> []
  /\ message_id first_reply <> [] /\ reply_to first_reply <> []
  /\ text (_process_message_content first_reply (u "Мой ID: 5 запишите"))
     = text first_reply
  /\ tags (_process_message_content first_reply (u "Мой ID: 5 запишите"))
     = tags first_reply
  /\ _process_message_content first_reply (u "Мой ID: 5 запишите")
     = first_reply.
Proof.
  assert (H : matches_metadata (u "Мой ID: 5 запишите") = true)
    by (vm_compute; reflexivity).
  assert (H1 : sender first_reply <> []) by discriminate.
  assert (H2 : date first_reply <> []) by discriminate.
  assert (H3 : message_id first_reply <> []) by discriminate.
  assert (H4 : reply_to first_reply <> []) by discriminate.
  do 5 (split; [assumption|]).
  destruct (metadata_block_adds_no_body first_reply _ H) as (Ht & Hg & Hall).
  split; [exact Ht|]. split; [exact Hg|]. exact (Hall H1 H2 H3 H4).
Defined.

Lemma parse_splits_at_start_witness :
  starts_message (u "Сообщение #2") = true
  /\ parse_word_document
       ([u "Сообщение #1"; u "Как начать?"]
          ++ u "Сообщение #2" :: [u "С малого #ответвиолетты"])
     = parse_word_document [u "Сообщение #1"; u "Как начать?"]
       ++ parse_word_document
            (u "Сообщение #2" :: [u "С малого #ответвиолетты"]).
Proof.
  assert (H : starts_message (u "Сообщение #2") = true)
    by (vm_compute; reflexivity).
  split; [exact H|]. exact (parse_splits_at_start _ _ _ H).
Defined.

(** The question and its corrected copy, under the same id; and the first
    reply, alone with its id in the transcript. *)
Lemma index_keeps_last_message_witness :
  [question_msg; first_reply; corrected_question]
  = [question_msg; first_reply] ++ corrected_question :: []
  /\ message_id corrected_question <> []
  /\ (forall m', m' ∈ [] -> message_id m' <> message_id corrected_question)
  /\ messages_by_id [question_msg; first_reply; corrected_question]
       !! message_id corrected_question = Some corrected_question
  /\ first_reply ∈ thread_messages
  /\ message_id first_reply <> []
  /\ (forall m', m' ∈ thread_messages ->
        message_id m' = message_id first_reply -> m' = first_reply)
  /\ messages_by_id thread_messages !! message_id first_reply
     = Some first_reply.
Proof.
  assert (H1 : [question_msg; first_reply; corrected_question]
               = [question_msg; first_reply] ++ corrected_question :: [])
    by reflexivity.
  assert (H2 : message_id corrected_question <> []) by discriminate.
  assert (H3 : forall m' : ChatMessage,
             m' ∈ [] -> message_id m' <> message_id corrected_question).
  { intros m' Hm'. exfalso. eapply elem_of_nil, Hm'. }
  assert (H4 : first_reply ∈ thread_messages) by (right; left).
  assert (H5 : message_id first_reply <> []) by discriminate.
  assert (H6 : forall m', m' ∈ thread_messages ->
                 message_id m' = message_id first_reply -> m' = first_reply).
  { intros m' Hm' E. unfold thread_messages in Hm'.
    repeat (apply elem_of_cons in Hm' as [->|Hm'];
            [first [vm_compute in E; discriminate E|reflexivity]|]).
    exfalso. eapply elem_of_nil, Hm'. }
  split; [exact H1|]. split; [exact H2|]. split; [exact H3|].
  split; [exact (proj1 (proj2 (index_keeps_last_message _)) _ _ _ H1 H2 H3)|].
  split; [exact H4|]. split; [exact H5|]. split; [exact H6|].
  exact (proj2 (proj2 (index_keeps_last_message thread_messages)) _ H4 H5 H6).
Defined.

(** The transcript, with three official answers that resolve; and a list
    whose only official answer replies to an unknown id. *)
Lemma pairs_bounded_by_resolved_answers_witness :
  group_questions_answers thread_messages
  = Some [question_pair; follow_up_pair]
  /\ (length [question_pair; follow_up_pair]
      <= length (List.filter (resolves thread_messages)
                   (violetta_answers thread_messages)))%nat
  /\ (forall m, m ∈ [question_msg; orphan_answer] ->
        is_violetta_answer m = true ->
        resolves [question_msg; orphan_answer] m = false)
  /\ group_questions_answers [question_msg; orphan_answer] = Some [].
Proof.
  assert (H : forall m, m ∈ [question_msg; orphan_answer] ->
                is_violetta_answer m = true ->
                resolves [question_msg; orphan_answer] m = false).
  { intros m Hm Hv. apply elem_of_cons in Hm as [->|Hm]; [discriminate|].
    apply list_elem_of_singleton in Hm as ->. vm_compute. reflexivity. }
  split; [exact thread_messages_grouped|].
  split; [exact (proj1 (pairs_bounded_by_resolved_answers thread_messages) _
                   thread_messages_grouped)|].
  split; [exact H|].
  exact (proj2 (pairs_bounded_by_resolved_answers _) H).
Defined.

Lemma pair_ids_are_known_witness :
  group_questions_answers thread_messages
  = Some [question_pair; follow_up_pair]
  /\ question_pair ∈ [question_pair; follow_up_pair]
  /\ (forall i, i ∈ question_ids question_pair ->
        is_Some (messages_by_id thread_messages !! i))
  /\ (forall i, i ∈ answer_ids question_pair ->
        exists m, m ∈ thread_messages /\ message_id m = i
                  /\ is_violetta_answer m = true
                  /\ reply_to m ∈ question_ids question_pair).
Proof.
  split; [exact thread_messages_grouped|].
  split; [exact question_pair_emitted|].
  exact (pair_ids_are_known thread_messages _ question_pair
           thread_messages_grouped question_pair_emitted).
Defined.

(** The question in four parts: the parts 10 and 9 and the two parts
    without number have the same sender and the same reply target. *)
Lemma question_thread_has_one_sender_witness :
  _find_question_thread parts_messages (u "31")
  = Some [part_unnumbered; part_postscript; part_nine; part_ten]
  /\ part_ten ∈ [part_unnumbered; part_postscript; part_nine; part_ten]
  /\ part_unnumbered ∈ [part_unnumbered; part_postscript; part_nine; part_ten]
  /\ part_ten <> part_unnumbered
  /\ (sender part_ten = sender part_unnumbered
      /\ reply_to part_ten = reply_to part_unnumbered)
  /\ group_questions_answers parts_messages = Some [parts_pair]
  /\ parts_pair ∈ [parts_pair]
  /\ exists answer q,
       emitted_from parts_messages answer parts_pair
       /\ _find_question_thread parts_messages (reply_to answer) = Some q
       /\ forall m, m ∈ q -> sender m = question_sender parts_pair.
Proof.
  assert (H1 : part_ten
               ∈ [part_unnumbered; part_postscript; part_nine; part_ten])
    by (do 3 right; left).
  assert (H2 : part_unnumbered
               ∈ [part_unnumbered; part_postscript; part_nine; part_ten])
    by left.
  split; [exact parts_question_thread_found|].
  split; [exact H1|]. split; [exact H2|]. split; [discriminate|].
  split; [exact (proj1 (question_thread_has_one_sender parts_messages)
                   _ _ _ _ parts_question_thread_found H1 H2)|].
  split; [exact parts_messages_grouped|].
  split; [exact parts_pair_emitted|].
  exact (proj2 (question_thread_has_one_sender parts_messages)
           _ parts_pair parts_messages_grouped parts_pair_emitted).
Defined.

Lemma first_reply_thread_found :
  _find_question_thread thread_messages (u "2") = Some [first_reply].
Proof. vm_compute. reflexivity. Defined.

Lemma question_msg_thread_found :
  _find_question_thread thread_messages (u "9") = Some [question_msg].
Proof. vm_compute. reflexivity. Defined.

Lemma parts_question_thread_found_again :
  _find_question_thread parts_messages (u "32") = Some parts_question_thread.
Proof. vm_compute. reflexivity. Defined.

(** The parts 10 and 9 of one question give the same thread; the threads
    of the first reply and of the question are apart. *)
Lemma question_threads_equal_or_disjoint_witness :
  _find_question_thread parts_messages (u "31") = Some parts_question_thread
  /\ _find_question_thread parts_messages (u "32") = Some parts_question_thread
  /\ (parts_question_thread = parts_question_thread
      \/ forall m, m ∈ parts_question_thread -> m ∉ parts_question_thread)
  /\ _find_question_thread thread_messages (u "2") = Some [first_reply]
  /\ _find_question_thread thread_messages (u "9") = Some [question_msg]
  /\ ([first_reply] = [question_msg]
      \/ forall m, m ∈ [first_reply] -> m ∉ [question_msg]).
Proof.
  split; [exact parts_question_thread_found|].
  split; [exact parts_question_thread_found_again|].
  split; [exact (question_threads_equal_or_disjoint parts_messages _ _ _ _
                   parts_question_thread_found
                   parts_question_thread_found_again)|].
  split; [exact first_reply_thread_found|].
  split; [exact question_msg_thread_found|].
  exact (question_threads_equal_or_disjoint thread_messages _ _ _ _
           first_reply_thread_found question_msg_thread_found).
Defined.

(** The pair of the question in four parts: its sender and date are those
    of the first part without number, its answer date that of the answer
    12. *)
Lemma pair_dates_follow_sequence_witness :
  group_questions_answers parts_messages = Some [parts_pair]
  /\ parts_pair ∈ [parts_pair]
  /\ question_date parts_pair = date part_unnumbered
  /\ answer_date parts_pair = date answer_twelve
  /\ exists (answer : ChatMessage) (q a : list ChatMessage),
       emitted_from parts_messages answer parts_pair
       /\ _find_question_thread parts_messages (reply_to answer) = Some q
       /\ _find_answer_thread parts_messages q = Some a
       /\ (exists m, m ∈ q /\ question_sender parts_pair = sender m
                     /\ question_date parts_pair = date m
                     /\ forall m', m' ∈ q -> by_sequence m m')
       /\ (a = [] -> answer_date parts_pair = [])
       /\ (a <> [] ->
           exists m, m ∈ a /\ answer_date parts_pair = date m
                     /\ forall m', m' ∈ a -> by_sequence m' m).
Proof.
  split; [exact parts_messages_grouped|].
  split; [exact parts_pair_emitted|].
  split; [reflexivity|]. split; [reflexivity|].
  exact (pair_dates_follow_sequence parts_messages _ parts_pair
           parts_messages_grouped parts_pair_emitted).
Defined.

(** The loop over the official answer and the follow-up answer. *)
Lemma group_loop_only_appends_witness :
  group_loop thread_messages ([official_answer] ++ [follow_up]) ([], ∅)
  = Some ([question_pair; follow_up_pair], {[ [u "1"] ]} ∪ {[ [u "9"] ]})
  /\ exists st1 more,
       group_loop thread_messages [official_answer] ([], ∅) = Some st1
       /\ fst ([question_pair; follow_up_pair],
               ({[ [u "1"] ]} ∪ {[ [u "9"] ]} : gset (list str)))
          = fst st1 ++ more.
Proof.
  assert (H : group_loop thread_messages ([official_answer] ++ [follow_up])
                ([], ∅)
              = Some ([question_pair; follow_up_pair],
                      {[ [u "1"] ]} ∪ {[ [u "9"] ]}))
    by (vm_compute; reflexivity).
  split; [exact H|].
  exact (group_loop_only_appends thread_messages _ _ _ _ H).
Defined.

Lemma thread_messages_flags : flags_identified thread_messages.
Proof.
  rewrite <- thread_transcript_parsed. apply parsed_flags_identified.
Defined.

Lemma answered_pair_has_answer_tag_witness :
  flags_identified thread_messages
  /\ group_questions_answers thread_messages
     = Some [question_pair; follow_up_pair]
  /\ question_pair ∈ [question_pair; follow_up_pair]
  /\ exists (answer : ChatMessage) (q a : list ChatMessage),
       emitted_from thread_messages answer question_pair
       /\ _find_question_thread thread_messages (reply_to answer) = Some q
       /\ _find_answer_thread thread_messages q = Some a
       /\ (a = [] -> qa_tags question_pair = [])
       /\ (a <> [] ->
           exists t, t ∈ qa_tags question_pair /\ is_answer_tag t = true).
Proof.
  split; [exact thread_messages_flags|].
  split; [exact thread_messages_grouped|].
  split; [exact question_pair_emitted|].
  exact (answered_pair_has_answer_tag thread_messages _ question_pair
           thread_messages_flags thread_messages_grouped
           question_pair_emitted).
Defined.

Lemma export_of_transcript_starts_with_answer_tag_witness :
  group_questions_answers (parse_word_document thread_transcript)
  = Some [question_pair; follow_up_pair]
  /\ all_tags (fst (create_json_database [question_pair; follow_up_pair]))
     = [u "#ответвиолетты"; u "#мотивация"]
  /\ (all_tags (fst (create_json_database [question_pair; follow_up_pair]))
      = []
      \/ exists t rest,
           all_tags (fst (create_json_database [question_pair; follow_up_pair]))
           = t :: rest
           /\ is_answer_tag t = true).
Proof.
  split; [exact thread_transcript_grouped|].
  split; [vm_compute; reflexivity|].
  exact (export_of_transcript_starts_with_answer_tag thread_transcript _
           thread_transcript_grouped).
Defined.

Lemma pair_texts_of_transcript_witness :
  group_questions_answers (parse_word_document thread_transcript)
  = Some [question_pair; follow_up_pair]
  /\ question_pair ∈ [question_pair; follow_up_pair]
  /\ exists (answer : ChatMessage) (q a : list ChatMessage),
       emitted_from (parse_word_document thread_transcript) answer question_pair
       /\ _find_question_thread (parse_word_document thread_transcript)
            (reply_to answer) = Some q
       /\ _find_answer_thread (parse_word_document thread_transcript) q
          = Some a
       /\ question_text question_pair <> []
       /\ (answer_text question_pair = [] <-> a = []).
Proof.
  split; [exact thread_transcript_grouped|].
  split; [exact question_pair_emitted|].
  exact (pair_texts_of_transcript thread_transcript _ question_pair
           thread_transcript_grouped question_pair_emitted).
Defined.

(** The tags of a pair with the marker in two spellings, in the page. *)
Lemma page_tag_list_keeps_one_answer_tag_witness :
  last (List.filter includes_marker (getAllTags [two_spellings_pair]))
  = Some (u "#ОтветВиолетты")
  /\ (exists rest,
        sortTags (getAllTags [two_spellings_pair]) = u "#ОтветВиолетты" :: rest)
  /\ u "#ответвиолетты" ∈ getAllTags [two_spellings_pair]
  /\ u "#ОтветВиолетты" ∈ getAllTags [two_spellings_pair]
  /\ u "#ответвиолетты" <> u "#ОтветВиолетты"
  /\ includes_marker (u "#ответвиолетты") = true
  /\ includes_marker (u "#ОтветВиолетты") = true
  /\ exists t, t ∈ getAllTags [two_spellings_pair]
               /\ (t ∉ sortTags (getAllTags [two_spellings_pair]))
               /\ t ∈ _sort_tags_alphabetical (getAllTags [two_spellings_pair]).
Proof.
  assert (H0 : last (List.filter includes_marker
                       (getAllTags [two_spellings_pair]))
               = Some (u "#ОтветВиолетты")) by (vm_compute; reflexivity).
  assert (H1 : u "#ответвиолетты" ∈ getAllTags [two_spellings_pair])
    by decide_by_computation.
  assert (H2 : u "#ОтветВиолетты" ∈ getAllTags [two_spellings_pair])
    by decide_by_computation.
  assert (H3 : u "#ответвиолетты" <> u "#ОтветВиолетты")
    by (vm_compute; discriminate).
  assert (H4 : includes_marker (u "#ответвиолетты") = true)
    by (vm_compute; reflexivity).
  assert (H5 : includes_marker (u "#ОтветВиолетты") = true)
    by (vm_compute; reflexivity).
  split; [exact H0|].
  split; [exact (proj1 (proj2 (page_tag_list_keeps_one_answer_tag _)) _ H0)|].
  do 5 (split; [assumption|]).
  exact (proj2 (proj2 (page_tag_list_keeps_one_answer_tag _))
           _ _ H1 H2 H3 H4 H5).
Defined.

Lemma thread_messages_have_ids :
  forall m, m ∈ thread_messages -> message_id m <> [].
Proof.
  intros m Hm. unfold thread_messages in Hm.
  repeat (apply elem_of_cons in Hm as [->|Hm]; [discriminate|]).
  exfalso. eapply elem_of_nil, Hm.
Defined.

Lemma thread_messages_ids_differ :
  forall m1 m2, m1 ∈ thread_messages -> m2 ∈ thread_messages ->
                message_id m1 = message_id m2 -> m1 = m2.
Proof.
  intros m1 m2 H1 H2 E. unfold thread_messages in H1, H2.
  repeat (apply elem_of_cons in H1 as [->|H1];
          [repeat (apply elem_of_cons in H2 as [->|H2];
                   [first [vm_compute in E; discriminate E|reflexivity]|]);
           exfalso; eapply elem_of_nil, H2|]).
  exfalso. eapply elem_of_nil, H1.
Defined.

(** The second answer to the question: the pair of the question was emitted
    for the first one, and it is the pair of the question thread of the
    second with both answers. *)
Lemma every_found_thread_is_emitted_witness :
  (forall m, m ∈ thread_messages -> message_id m <> [])
  /\ (forall m1 m2, m1 ∈ thread_messages -> m2 ∈ thread_messages ->
                    message_id m1 = message_id m2 -> m1 = m2)
  /\ group_questions_answers thread_messages
     = Some [question_pair; follow_up_pair]
  /\ second_answer ∈ thread_messages
  /\ is_violetta_answer second_answer = true
  /\ _find_question_thread thread_messages (reply_to second_answer)
     = Some [question_msg]
  /\ [question_msg] <> []
  /\ _create_qa_pair [question_msg] [official_answer; second_answer]
     = question_pair
  /\ exists a,
       _find_answer_thread thread_messages [question_msg] = Some a
       /\ _create_qa_pair [question_msg] a ∈ [question_pair; follow_up_pair]
       /\ (forall p, p ∈ [question_pair; follow_up_pair] ->
             canonical_key p = question_key_of (ids_of [question_msg]) ->
             p = _create_qa_pair [question_msg] a).
Proof.
  assert (H1 : second_answer ∈ thread_messages)
    by (unfold thread_messages; do 5 right; left).
  assert (H2 : is_violetta_answer second_answer = true) by reflexivity.
  assert (H3 : _find_question_thread thread_messages (reply_to second_answer)
               = Some [question_msg]) by (vm_compute; reflexivity).
  assert (H4 : [question_msg] <> []) by discriminate.
  split; [exact thread_messages_have_ids|].
  split; [exact thread_messages_ids_differ|].
  split; [exact thread_messages_grouped|].
  split; [exact H1|]. split; [exact H2|]. split; [exact H3|].
  split; [exact H4|]. split; [vm_compute; reflexivity|].
  exact (every_found_thread_is_emitted thread_messages _ second_answer _
           thread_messages_have_ids thread_messages_ids_differ
           thread_messages_grouped H1 H2 H3 H4).
Defined.

(** A start marker and two body blocks, the second repeating a tag. *)
Lemma message_body_is_joined_blocks_witness :
  starts_message (u "Сообщение #7") = true
  /\ Forall (fun p => body_block p = true)
       [u " Первая строка #шаг "; u "Вторая #шаг #итог"]
  /\ exists m,
       parse_word_document
         [u "Сообщение #7"; u " Первая строка #шаг "; u "Вторая #шаг #итог"]
       = [m]
       /\ text m = u "Первая строка #шаг" ++ newline ++ u "Вторая #шаг #итог"
       /\ tags m = [u "#шаг"; u "#шаг"; u "#итог"]
       /\ message_number m = u "7".
Proof.
  assert (H1 : starts_message (u "Сообщение #7") = true)
    by (vm_compute; reflexivity).
  assert (H2 : Forall (fun p => body_block p = true)
                 [u " Первая строка #шаг "; u "Вторая #шаг #итог"])
    by (repeat constructor).
  split; [exact H1|]. split; [exact H2|].
  destruct (message_body_is_joined_blocks _ _ _ H1 H2)
    as (m & E & Ht & Hg & Hn & _).
  exists m. split; [exact E|].
  split; [rewrite Ht; vm_compute; reflexivity|].
  split; [rewrite Hg; vm_compute; reflexivity|].
  rewrite Hn. vm_compute. reflexivity.
Defined.

(** The two parts without number of the question in four parts, and the
    two answers without number among the answers to the question: in both
    threads the messages at 0 come first, in the order of the list, which
    has numbered messages before and between them. *)
Lemma threads_keep_list_order_on_ties_witness :
  messages_by_id parts_messages !! u "31" = Some part_ten
  /\ reply_to part_ten <> []
  /\ List.filter (same_question (reply_to part_ten) (sender part_ten))
       parts_messages
     = [part_ten; part_unnumbered; part_nine; part_postscript]
  /\ _find_question_thread parts_messages (u "31")
     = Some [part_unnumbered; part_postscript; part_nine; part_ten]
  /\ List.filter (fun m => (sequence_number m =? 0)%Z)
       [part_unnumbered; part_postscript; part_nine; part_ten]
     = [part_unnumbered; part_postscript]
  /\ List.filter (fun m => (sequence_number m =? 0)%Z)
       [part_unnumbered; part_postscript; part_nine; part_ten]
     = List.filter (fun m => (sequence_number m =? 0)%Z)
         (List.filter (same_question (reply_to part_ten) (sender part_ten))
            parts_messages)
  /\ List.filter (answers_question (ids_of [question_msg])) tie_messages
     = [second_answer; unnumbered_answer; official_answer;
        unnumbered_postscript]
  /\ _find_answer_thread tie_messages [question_msg]
     = Some [unnumbered_answer; unnumbered_postscript; official_answer;
             second_answer]
  /\ List.filter (fun m => (sequence_number m =? 0)%Z)
       [unnumbered_answer; unnumbered_postscript; official_answer;
        second_answer]
     = List.filter (fun m => (sequence_number m =? 0)%Z)
         (List.filter (answers_question (ids_of [question_msg])) tie_messages).
Proof.
  assert (H1 : messages_by_id parts_messages !! u "31" = Some part_ten)
    by (vm_compute; reflexivity).
  assert (H2 : reply_to part_ten <> []) by discriminate.
  assert (H3 : _find_answer_thread tie_messages [question_msg]
               = Some [unnumbered_answer; unnumbered_postscript;
                       official_answer; second_answer])
    by (vm_compute; reflexivity).
  split; [exact H1|]. split; [exact H2|].
  split; [vm_compute; reflexivity|].
  split; [exact parts_question_thread_found|].
  split; [vm_compute; reflexivity|].
  split; [exact (proj1 (threads_keep_list_order_on_ties parts_messages 0)
                   _ _ _ H1 H2 parts_question_thread_found)|].
  split; [vm_compute; reflexivity|].
  split; [exact H3|].
  exact (proj2 (threads_keep_list_order_on_ties tie_messages 0) _ _ H3).
Defined.

(** A list that starts with the answer to an unknown message. *)
Lemma first_pair_is_of_first_found_answer_witness :
  violetta_answers [orphan_answer; question_msg; official_answer]
  = [orphan_answer] ++ official_answer :: []
  /\ (forall x, x ∈ [orphan_answer] ->
        _find_question_thread [orphan_answer; question_msg; official_answer]
          (reply_to x) = Some [])
  /\ _find_question_thread [orphan_answer; question_msg; official_answer]
       (reply_to official_answer) = Some [question_msg]
  /\ [question_msg] <> []
  /\ group_questions_answers [orphan_answer; question_msg; official_answer]
     = Some [_create_qa_pair [question_msg] [official_answer]]
  /\ exists a more,
       _find_answer_thread [orphan_answer; question_msg; official_answer]
         [question_msg] = Some a
       /\ [_create_qa_pair [question_msg] [official_answer]]
          = _create_qa_pair [question_msg] a :: more.
Proof.
  assert (H1 : violetta_answers [orphan_answer; question_msg; official_answer]
               = [orphan_answer] ++ official_answer :: []) by reflexivity.
  assert (H2 : forall x, x ∈ [orphan_answer] ->
                 _find_question_thread
                   [orphan_answer; question_msg; official_answer]
                   (reply_to x) = Some []).
  { intros x ->%list_elem_of_singleton. vm_compute. reflexivity. }
  assert (H3 : _find_question_thread
                 [orphan_answer; question_msg; official_answer]
                 (reply_to official_answer) = Some [question_msg])
    by (vm_compute; reflexivity).
  assert (H4 : [question_msg] <> []) by discriminate.
  assert (H5 : group_questions_answers
                 [orphan_answer; question_msg; official_answer]
               = Some [_create_qa_pair [question_msg] [official_answer]])
    by (vm_compute; reflexivity).
  split; [exact H1|]. split; [exact H2|]. split; [exact H3|].
  split; [exact H4|]. split; [exact H5|].
  exact (first_pair_is_of_first_found_answer _ _ _ _ _ _ H1 H2 H3 H4 H5).
Defined.

(** The answer 12 to the part 10 of the question in four parts: no number
    of a sibling stops [int], and the thread is the four parts, those
    without number first, then 9, then 10. *)
Lemma question_thread_of_resolved_target_witness :
  messages_by_id parts_messages !! reply_to answer_twelve = Some part_ten
  /\ reply_to part_ten <> []
  /\ _find_question_thread parts_messages (reply_to answer_twelve)
     = Some [part_unnumbered; part_postscript; part_nine; part_ten]
  /\ [part_unnumbered; part_postscript; part_nine; part_ten]
       ≡ₚ List.filter (same_question (reply_to part_ten) (sender part_ten))
            parts_messages
  /\ (forall m,
        m ∈ [part_unnumbered; part_postscript; part_nine; part_ten] <->
        m ∈ parts_messages /\ reply_to m = reply_to part_ten
        /\ sender m = sender part_ten /\ is_violetta_answer m = false)
  /\ StronglySorted by_sequence
       [part_unnumbered; part_postscript; part_nine; part_ten]
  /\ map sequence_key [part_unnumbered; part_postscript; part_nine; part_ten]
     = [Some 0; Some 0; Some 9; Some 10]%Z
  /\ messages_by_id thread_messages !! reply_to official_answer
     = Some question_msg
  /\ reply_to question_msg = []
  /\ _find_question_thread thread_messages (reply_to official_answer)
     = Some [question_msg].
Proof.
  assert (H1 : messages_by_id parts_messages !! reply_to answer_twelve
               = Some part_ten) by (vm_compute; reflexivity).
  assert (H2 : reply_to part_ten <> []) by discriminate.
  assert (H3 : messages_by_id thread_messages !! reply_to official_answer
               = Some question_msg) by (vm_compute; reflexivity).
  assert (H4 : reply_to question_msg = []) by reflexivity.
  destruct (proj2 (proj2 (question_thread_of_resolved_target parts_messages
                            answer_twelve part_ten H1) H2)
              _ parts_question_thread_found) as (P1 & P2 & P3 & _).
  split; [exact H1|]. split; [exact H2|].
  split; [exact parts_question_thread_found|].
  split; [exact P1|]. split; [exact P2|]. split; [exact P3|].
  split; [vm_compute; reflexivity|].
  split; [exact H3|]. split; [exact H4|].
  exact (proj1 (question_thread_of_resolved_target thread_messages
                  official_answer question_msg H3) H4).
Defined.
